(** * ProcessGroupNCCL: a shallow embedding of torch/lib/c10d/ProcessGroupNCCL.cpp

    The development follows the source file top to bottom.  Pure helpers
    (key builders, validators, the flattener) are Rocq functions returning an
    [Outcome]; member functions of [ProcessGroupNCCL] and of [WorkNCCL] thread
    an explicit [State] that holds the members of the process group, the
    targets of the [shared_ptr<NCCLComm>] handles, the contents of the
    key-value store and the log of device/vendor calls. *)

From Stdlib Require Import ZArith Lia String Ascii HexadecimalString.
From stdpp Require Import gmap strings list fin_maps vector sorting.

Open Scope Z_scope.

(* ================================================================== *)
(** * Part I: the model *)
(* ================================================================== *)

(** ** Machine integers *)

(** [size_t] and [uint64_t]: values are taken modulo 2^64. *)
Definition wrap_uint64 (z : Z) : Z := z mod 2 ^ 64.

(** [int]: conversion of a wider value keeps the low 32 bits, read as a
    two's complement number. *)
Definition wrap_int32 (z : Z) : Z := (z + 2 ^ 31) mod 2 ^ 32 - 2 ^ 31.

(** [int64_t], same reading on 64 bits. *)
Definition wrap_int64 (z : Z) : Z := (z + 2 ^ 63) mod 2 ^ 64 - 2 ^ 63.

Definition INT_MIN : Z := - 2 ^ 31.
Definition INT_MAX : Z := 2 ^ 31 - 1.

(** ** Exceptions and outcomes *)

Inductive Exn :=
| runtime_error (what : string)   (* throw std::runtime_error(...) *)
| c10_Error (what : string).      (* TORCH_CHECK / TORCH_INTERNAL_ASSERT *)

(** What a call can do: return, throw, run into undefined behaviour (a
    dereferenced null [shared_ptr]), or never return within the observed
    environment (a blocking [Store::get], a busy wait). *)
Inductive Outcome (A : Type) :=
| Ok (a : A)
| Throw (e : Exn)
| Undefined (why : string)
| Blocked.
Arguments Ok {A} a.
Arguments Throw {A} e.
Arguments Undefined {A} why.
Arguments Blocked {A}.

Definition obind {A B} (o : Outcome A) (k : A -> Outcome B) : Outcome B :=
  match o with
  | Ok a => k a
  | Throw e => Throw e
  | Undefined w => Undefined w
  | Blocked => Blocked
  end.

Definition is_Ok {A} (o : Outcome A) : bool :=
  match o with Ok _ => true | _ => false end.

Definition is_Throw {A} (o : Outcome A) : bool :=
  match o with Throw _ => true | _ => false end.

(** ** Arithmetic on signed integers *)

(** Overflow and division by zero are undefined behaviour; the quotient is
    truncated towards zero, and the remainder has the sign of the
    dividend. *)
Definition int_mul (a b : Z) : Outcome Z :=
  if (INT_MIN <=? a * b) && (a * b <=? INT_MAX) then Ok (a * b)
  else Undefined "signed integer overflow".

Definition int64_mul (a b : Z) : Outcome Z :=
  if (- 2 ^ 63 <=? a * b) && (a * b <? 2 ^ 63) then Ok (a * b)
  else Undefined "signed integer overflow".

Definition int64_add (a b : Z) : Outcome Z :=
  if (- 2 ^ 63 <=? a + b) && (a + b <? 2 ^ 63) then Ok (a + b)
  else Undefined "signed integer overflow".

(** [a / b] and [a % b] on [int64_t]: the one quotient that does not fit
    is that of the least value by -1. *)
Definition int64_div (a b : Z) : Outcome Z :=
  if b =? 0 then Undefined "integer division by zero"
  else if (a =? - 2 ^ 63) && (b =? -1) then
    Undefined "signed integer overflow"
  else Ok (Z.quot a b).

Definition int64_rem (a b : Z) : Outcome Z :=
  if b =? 0 then Undefined "integer division by zero"
  else if (a =? - 2 ^ 63) && (b =? -1) then
    Undefined "signed integer overflow"
  else Ok (Z.rem a b).

(** ** Text produced by the standard library *)

Definition digit_char (d : Z) : ascii :=
  nth (Z.to_nat d) (list_ascii_of_string "0123456789abcdef") "0"%char.

(** Digits of [u] in base [base], most significant first, pushed in front
    of [acc]; [fuel] bounds the number of digits. *)
Fixpoint digits_of (base : Z) (fuel : nat) (u : Z) (acc : string) : string :=
  match fuel with
  | O => acc
  | S fuel' =>
      if u =? 0 then acc
      else digits_of base fuel' (u / base)
             (String (digit_char (u mod base)) acc)
  end.

(** [oss << std::hex << v] for an [int] [v]: lower-case digits of the
    32-bit pattern, no prefix, no padding. *)
Definition ostream_hex_int (v : Z) : string :=
  let u := v mod 2 ^ 32 in
  if u =? 0 then "0"%string else digits_of 16 8 u "".

(** [std::to_string] on an integer of at most 64 bits. *)
Definition std_to_string (v : Z) : string :=
  if v =? 0 then "0"%string
  else if v <? 0 then String "-"%char (digits_of 10 20 (- v) "")
  else digits_of 10 20 v "".

(** [std::stoi(const char* )]: [strtol] in base 10 followed by the range
    check of [int]. *)
Inductive stoi_result :=
| StoiOk (v : Z)
| StoiInvalidArgument     (* std::invalid_argument: no conversion *)
| StoiOutOfRange.         (* std::out_of_range *)

Definition isspace (c : ascii) : bool :=
  let n := nat_of_ascii c in
  ((n =? 32) || ((9 <=? n) && (n <=? 13)))%nat.

Definition isdigit (c : ascii) : bool :=
  let n := nat_of_ascii c in ((48 <=? n) && (n <=? 57))%nat.

Definition digit_value (c : ascii) : Z := Z.of_nat (nat_of_ascii c) - 48.

Fixpoint skip_spaces (s : string) : string :=
  match s with
  | String c s' => if isspace c then skip_spaces s' else s
  | EmptyString => s
  end.

(** The longest prefix of digits, accumulated; the rest of the text is
    ignored. *)
Fixpoint parse_digits (s : string) (acc : Z) : Z :=
  match s with
  | String c s' =>
      if isdigit c then parse_digits s' (10 * acc + digit_value c) else acc
  | EmptyString => acc
  end.

Definition strip_sign (s : string) : bool * string :=
  match s with
  | String c s' =>
      if Ascii.eqb c "-" then (true, s')
      else if Ascii.eqb c "+" then (false, s')
      else (false, s)
  | EmptyString => (false, s)
  end.

Definition stoi (text : string) : stoi_result :=
  let '(neg, body) := strip_sign (skip_spaces text) in
  match body with
  | String c _ =>
      if isdigit c then
        let magnitude := parse_digits body 0 in
        let v := if neg then - magnitude else magnitude in
        if (INT_MIN <=? v) && (v <=? INT_MAX) then StoiOk v
        else StoiOutOfRange
      else StoiInvalidArgument
  | EmptyString => StoiInvalidArgument
  end.

(** ** Communicator identifiers and store keys *)

Definition NCCL_UNIQUE_ID_BYTES : nat := 128.

(** [ncclUniqueId]: a fixed-width blob of bytes. *)
Definition ncclUniqueId : Type := vec Byte.byte NCCL_UNIQUE_ID_BYTES.

Definition kNCCLAbortedCommStoreKey : string := "NCCLABORTEDCOMM".

(** The body of the [for] loop of [buildNcclUniqueIdStr], run over the
    bytes in index order with the stream contents as accumulator. *)
Fixpoint buildNcclUniqueIdStr_loop (bytes : list Byte.byte) (oss : string)
  : string :=
  match bytes with
  | [] => oss
  | b :: rest =>
      buildNcclUniqueIdStr_loop rest
        (oss +:+ ostream_hex_int (Z.of_N (Byte.to_N b)))
  end.

Definition buildNcclUniqueIdStr (ncclID : ncclUniqueId) : string :=
  buildNcclUniqueIdStr_loop (vec_to_list ncclID) "".

Definition getNcclAbortedCommStoreKey (ncclIdStr : string) : string :=
  kNCCLAbortedCommStoreKey +:+ ":" +:+ ncclIdStr.

(** The lower-case hexadecimal numeral of a byte: one digit below 16, two
    digits from 16 on. *)
Definition byte_hex_lower (b : Byte.byte) : string :=
  HexadecimalString.NilZero.string_of_uint (N.to_hex_uint (Byte.to_N b)).

Fixpoint concat_strings (l : list string) : string :=
  match l with
  | [] => ""
  | s :: rest => s +:+ concat_strings rest
  end.

(** The key with the numerals of the bytes one after the other. *)
Definition abort_marker_key_unpadded (ncclID : ncclUniqueId) : string :=
  "NCCLABORTEDCOMM:" +:+ concat_strings (byte_hex_lower <$> vec_to_list ncclID).

(** The wording of the store-key schema, for comparison: the lower-case
    hexadecimal representation of each byte, its two digits, concatenated
    in byte order with nothing between and nothing in front. *)
Definition hex_digit_lower (n : N) : string :=
  HexadecimalString.NilZero.string_of_uint (N.to_hex_uint n).

Definition byte_hex2 (b : Byte.byte) : string :=
  hex_digit_lower (Byte.to_N b / 16)%N +:+ hex_digit_lower (Byte.to_N b mod 16)%N.

Definition abort_marker_key_spec (ncclID : ncclUniqueId) : string :=
  "NCCLABORTEDCOMM:" +:+ concat_strings (byte_hex2 <$> vec_to_list ncclID).

(** ** Tensors *)

Inductive ScalarType :=
| kByte | kChar | kShort | kInt | kLong | kHalf | kFloat | kDouble
| kBool | kBFloat16.

#[global] Instance ScalarType_eq_dec : EqDecision ScalarType.
Proof. solve_decision. Defined.

(** The queries of [at::Tensor] the file uses.  [storage] names the
    underlying allocation: two tensors alias iff the names are equal. *)
Record Tensor := mkTensor {
  is_cuda : bool;
  is_sparse : bool;
  scalar_type : ScalarType;
  sizes : list Z;
  is_contiguous : bool;
  get_device : Z;
  storage : nat;
  storage_offset : Z;
}.

#[global] Instance Tensor_eq_dec : EqDecision Tensor.
Proof. solve_decision. Defined.

Definition numel (t : Tensor) : Z := fold_right Z.mul 1 (sizes t).

(** [tensor.size(0)]; a zero-dimensional tensor has no dimension 0. *)
Definition tensor_size0 (t : Tensor) : Outcome Z :=
  match sizes t with
  | d :: _ => Ok d
  | [] => Throw (c10_Error "Dimension specified as 0 but tensor has no dimensions")
  end.

(** Modelled from the spec: [at::elementSize] is declared in
    c10/core/ScalarType.h, which is not among the sources.  The sizes in
    bytes are those the names of the element types give (section 6: 8-bit
    integers, 16-bit float, 32- and 64-bit integers and floats). *)
Definition elementSize (type : ScalarType) : Z :=
  match type with
  | kByte | kChar | kBool => 1
  | kShort | kHalf | kBFloat16 => 2
  | kInt | kFloat => 4
  | kLong | kDouble => 8
  end.

Definition is_alias_of (s1 s2 : nat) : bool := bool_decide (s1 = s2).

(** ** Validators *)

(** [std::accumulate(first, last, 0)]: the accumulator has the type of the
    initial value, [int]; each sum is computed on 64 bits and stored back
    into the [int]. *)
Definition accumulate_int (l : list Z) : Z :=
  fold_left (fun acc x => wrap_int32 (acc + x)) l 0.

Definition checkSplitSizes (split_sizes : list Z) (tensor : Tensor)
    (group_size : Z) : Outcome unit :=
  if bool_decide (length split_sizes = 0%nat) then
    obind (tensor_size0 tensor) (fun dim0 =>
      obind (int64_rem dim0 group_size) (fun r =>
        if negb (r =? 0) then
          Throw (runtime_error
                   "Tensor's dim 0 does not divide equally across group size")
        else Ok tt))
  else
    if negb (Z.of_nat (length split_sizes) =? wrap_uint64 group_size) then
      Throw (runtime_error "Number of tensor splits not equal to group size")
    else
      let sum := accumulate_int split_sizes in
      obind (tensor_size0 tensor) (fun dim0 =>
        if negb (sum =? dim0) then
          Throw (runtime_error "Split sizes doesn't match total dim 0 size")
        else Ok tt).

(** The [for] loop of [check_gpu_tensors_multi]; [usedDevices] is the
    [unordered_set] of device indices seen so far. *)
Fixpoint check_gpu_tensors_loop (alltoallv : bool) (first : Tensor)
    (usedDevices : gset Z) (tensors : list Tensor) : Outcome unit :=
  match tensors with
  | [] => Ok tt
  | t :: rest =>
      if negb (is_cuda t) || is_sparse t then
        Throw (runtime_error "Tensors must be CUDA and dense")
      else if negb (bool_decide (scalar_type t = scalar_type first)) then
        Throw (runtime_error "Tensors must have identical type")
      else if negb alltoallv && negb (bool_decide (sizes t = sizes first)) then
        Throw (runtime_error "Tensors must have identical size")
      else if negb (is_contiguous t) then
        Throw (runtime_error "Tensors must be contiguous")
      else if negb alltoallv then
        if bool_decide (get_device t ∈ usedDevices) then
          Throw (runtime_error "Tensors must be on distinct GPU devices")
        else
          check_gpu_tensors_loop alltoallv first
            ({[get_device t]} ∪ usedDevices) rest
      else check_gpu_tensors_loop alltoallv first usedDevices rest
  end.

(** [numGPUs] is the value of [at::cuda::getNumGPUs()], already converted
    to [size_t]. *)
Definition check_gpu_tensors_multi (numGPUs : nat) (tensors : list Tensor)
    (alltoallv : bool) : Outcome unit :=
  match tensors with
  | [] => Throw (runtime_error "Tensor list must be nonempty")
  | first :: _ =>
      if negb alltoallv && (numGPUs <? length tensors)%nat then
        Throw (runtime_error
          "Tensor list mustn't be larger than the number of available GPUs")
      else check_gpu_tensors_loop alltoallv first ∅ tensors
  end.

Definition check_gpu_tensors (numGPUs : nat) (tensors : list Tensor)
  : Outcome unit :=
  check_gpu_tensors_multi numGPUs tensors false.

(** ** Flattener *)

(** The inner [for] loop of the [no_copy] block: the value of [no_copy]
    after the loop.  [j] is a [size_t], so the right-hand side of the
    comparison of offsets is computed, and compared, on unsigned 64 bits. *)
Fixpoint no_copy_views_loop (first : Tensor) (j : nat) (ts : list Tensor)
  : bool :=
  match ts with
  | [] => true
  | t :: rest =>
      if negb (is_alias_of (storage t) (storage first))
         || negb (wrap_uint64 (storage_offset t) =?
                  wrap_uint64 (storage_offset first + Z.of_nat j * numel first))
      then false
      else no_copy_views_loop first (S j) rest
  end.

(** The second test of the [no_copy] block, on [other[i]]. *)
Definition other_misaligned (first other_i : Tensor) (rank : nat) : bool :=
  is_alias_of (storage other_i) (storage first)
  && negb (wrap_uint64 (storage_offset other_i) =?
           wrap_uint64 (storage_offset first + Z.of_nat rank * numel first)).

(** The value of [no_copy] when the block [if (no_copy) { ... }] is left,
    given that it was entered. *)
Definition no_copy_block (tensor_list : list Tensor) (first other_i : Tensor)
    (rank : nat) : bool :=
  let no_copy := no_copy_views_loop first 0 tensor_list in
  if other_misaligned first other_i rank then false else no_copy.

(** [at::empty({0}, other[i].options()).set_(storage, offset, size, {})]. *)
Definition set_view (first other_i : Tensor) (world_size : nat) : Tensor :=
  {| is_cuda := is_cuda other_i;
     is_sparse := is_sparse other_i;
     scalar_type := scalar_type other_i;
     sizes := [wrap_int64 (wrap_uint64 (Z.of_nat world_size * numel other_i))];
     is_contiguous := true;
     get_device := get_device other_i;
     storage := storage first;
     storage_offset := storage_offset first |}.

(** Modelled from the spec: [newLikeFlat] is declared in c10d/Utils.hpp,
    which is not among the sources.  Section 4.2: the lists' tensors
    reside on one device, and the staging tensor is a fresh flat allocation
    sized world_size * other[i].numel; the comment at the call adds that
    [newLikeFlat] checks the device of the tensors after the first.
    [alloc] is the name the allocator gives to the next storage. *)
Definition newLikeFlat (tensor_list : list Tensor) (other_i : Tensor)
    (world_size : nat) (alloc : nat) : Outcome Tensor :=
  match tensor_list with
  | [] => Throw (runtime_error "Received an empty list")
  | t :: rest =>
      if negb (forallb (fun u => get_device u =? get_device t) rest) then
        Throw (runtime_error "Expecting all tensors on the same device")
      else
        Ok {| is_cuda := is_cuda t;
              is_sparse := is_sparse t;
              scalar_type := scalar_type t;
              sizes := [Z.of_nat world_size * numel other_i];
              is_contiguous := true;
              get_device := get_device t;
              storage := alloc;
              storage_offset := 0 |}
  end.

(** The loop over devices of [flatten_for_scatter_gather].  [no_copy] is
    the by-value parameter, which the body overwrites; [alloc] counts the
    storages handed out by the allocator. *)
Fixpoint flatten_loop (num_devices world_size rank : nat) (no_copy : bool)
    (alloc : nat) (tensor_lists : list (list Tensor)) (other : list Tensor)
  : Outcome (list Tensor * nat) :=
  match tensor_lists, other with
  | [], _ => Ok ([], alloc)
  | _ :: _, [] => Undefined "other[i] out of range"
  | tensor_list :: lists', other_i :: other' =>
      if negb (Z.of_nat (length tensor_list) =?
               wrap_uint64 (Z.of_nat world_size * Z.of_nat num_devices)) then
        Throw (runtime_error
          "Tensor list input to scatter/gather must match number of collective participants")
      else
        match tensor_list with
        | [] => Undefined "front() of an empty vector"
        | first :: _ =>
            if negb (get_device first =? get_device other_i) then
              Throw (runtime_error
                "Corresponding input/output tensors to scatter/gather must all reside on the same device")
            else if negb (forallb (fun t => numel t =? numel other_i)
                            tensor_list) then
              Throw (runtime_error
                "All tensor operands to scatter/gather must have the same size")
            else
              let no_copy' :=
                if no_copy then no_copy_block tensor_list first other_i rank
                else false in
              obind
                (if no_copy' then Ok (set_view first other_i world_size, alloc)
                 else obind (newLikeFlat tensor_list other_i world_size alloc)
                        (fun flat => Ok (flat, S alloc)))
                (fun '(flat, alloc') =>
                   obind (flatten_loop num_devices world_size rank no_copy'
                            alloc' lists' other')
                     (fun '(flattened, alloc'') =>
                        Ok (flat :: flattened, alloc'')))
        end
  end.

Definition flatten_for_scatter_gather (tensor_lists : list (list Tensor))
    (other : list Tensor) (world_size rank : nat) (no_copy : bool)
    (alloc : nat) : Outcome (list Tensor * nat) :=
  if negb (bool_decide (length tensor_lists = length other)) then
    Throw (runtime_error
      "Tensor list operands to scatter/gather must have the same length")
  else
    flatten_loop (length tensor_lists) world_size rank no_copy alloc
      tensor_lists other.

(** ** The state of a process group and of its surroundings *)

(** A non-null [shared_ptr<NCCLComm>] is the name of its target in
    [comms]; copies of the pointer share the target. *)
Definition CommPtr : Type := nat.

Definition ncclResult_t : Type := Z.
Definition ncclSuccess : ncclResult_t := 0.

(** Modelled from the spec: [NCCLComm] is declared in c10d/NCCLUtils.hpp,
    which is not among the sources.  A communicator is created with
    (global size, global rank, unique id), can be queried for an
    asynchronous error and can be aborted. *)
Record NCCLComm := mkNCCLComm {
  comm_nranks : Z;
  comm_rank : Z;
  comm_id : ncclUniqueId;
  comm_device : Z;
  comm_asyncErr : ncclResult_t;
  comm_aborted : bool;
}.

Definition abort_comm (c : NCCLComm) : NCCLComm :=
  {| comm_nranks := comm_nranks c; comm_rank := comm_rank c;
     comm_id := comm_id c; comm_device := comm_device c;
     comm_asyncErr := comm_asyncErr c; comm_aborted := true |}.

Definition raise_asyncErr (e : ncclResult_t) (c : NCCLComm) : NCCLComm :=
  {| comm_nranks := comm_nranks c; comm_rank := comm_rank c;
     comm_id := comm_id c; comm_device := comm_device c;
     comm_asyncErr := e; comm_aborted := comm_aborted c |}.

Inductive CUDAStream :=
| CurrentStream (device : Z)            (* getCurrentCUDAStream(device) *)
| PoolStream (device : Z) (serial : nat). (* getStreamFromPool() *)

Inductive CUDAEvent :=
| SyncEvent (devicesKey : string) (i : nat)   (* ncclEvents_[key][i] *)
| WorkEvent (i : nat).                        (* work->cudaEvents_[i] *)

(** A device address: a storage and an offset in bytes from its start. *)
Record DevPtr := mkDevPtr { ptr_storage : nat; ptr_offset : Z }.

(** [tensor.data_ptr()]: the address of the first element, which lies
    [storage_offset] elements into the storage. *)
Definition data_ptr (t : Tensor) : DevPtr :=
  {| ptr_storage := storage t;
     ptr_offset := storage_offset t * elementSize (scalar_type t) |}.

Inductive ncclDataType_t :=
| ncclInt8 | ncclUint8 | ncclFloat | ncclDouble | ncclInt32 | ncclInt64
| ncclHalf.

(** The table [ncclDataType] looked up with [at()]. *)
Definition getNcclDataType (type : ScalarType) : Outcome ncclDataType_t :=
  match type with
  | kChar => Ok ncclInt8
  | kByte => Ok ncclUint8
  | kFloat => Ok ncclFloat
  | kDouble => Ok ncclDouble
  | kInt => Ok ncclInt32
  | kLong => Ok ncclInt64
  | kHalf => Ok ncclHalf
  | _ => Throw (runtime_error "Unsupported data type for NCCL process group")
  end.

Inductive ReduceOp := SUM | PRODUCT | MIN | MAX | BAND | BOR | BXOR.

(** The reduction operators of the vendor library; [ncclSum] is the
    enumerator 0. *)
Inductive ncclRedOp_t := ncclSum | ncclProd | ncclMax | ncclMin.

(** The table [ncclOp] looked up with [operator[]].  The table has four
    entries; for a key that is not in it, [operator[]] inserts the key
    with a value-initialised operator, the enumerator 0, and returns that.
    The entry it leaves in the table gives the same answer afterwards. *)
Definition ncclOp (op : ReduceOp) : ncclRedOp_t :=
  match op with
  | MIN => ncclMin
  | MAX => ncclMax
  | SUM => ncclSum
  | PRODUCT => ncclProd
  | BAND | BOR | BXOR => ncclSum
  end.

(** The calls into the device runtime, the allocator and the vendor
    library, in the order they are issued. *)
Inductive Effect :=
| cudaSetDevice (index : Z)
| cudaEventRecord (ev : CUDAEvent) (s : CUDAStream)
| cudaStreamWaitEvent (s : CUDAStream) (ev : CUDAEvent)
| cudaDeviceSynchronize (device : Z)
| recordStream (storage : nat) (s : CUDAStream)
| freeMutex_lock
| freeMutex_unlock
| ncclGroupStart
| ncclGroupEnd
| ncclCommInitRank (nranks rank : Z) (id : ncclUniqueId) (c : CommPtr)
| ncclCommAbort (c : CommPtr)
| ncclAllReduce (sendbuff recvbuff : DevPtr) (count : Z)
    (datatype : ncclDataType_t) (op : ncclRedOp_t) (c : CommPtr)
    (s : CUDAStream)
| ncclAllGather (sendbuff recvbuff : DevPtr) (sendcount : Z)
    (datatype : ncclDataType_t) (c : CommPtr) (s : CUDAStream)
| ncclSend (buf : DevPtr) (count : Z) (datatype : ncclDataType_t) (peer : Z)
    (c : CommPtr) (s : CUDAStream)
| ncclRecv (buf : DevPtr) (count : Z) (datatype : ncclDataType_t) (peer : Z)
    (c : CommPtr) (s : CUDAStream)
| tensor_copy (dst : Tensor) (flat : Tensor) (j : nat) (* dst.copy_(flat[j], true) *)
| sleep_for (millis : Z).

Record State := mkState {
  (* ProcessGroup *)
  rank_ : Z;
  size_ : Z;
  (* ProcessGroupNCCL *)
  ncclCommCounter_ : Z;
  devNCCLCommMap_ : gmap string (list CommPtr);
  ncclIdToCommMap_ : gmap string (list CommPtr);
  abortedComms_ : gset string;
  usedDeviceIdxs_ : gset Z;
  ncclStreams_ : gmap string (list CUDAStream);
  ncclEvents_ : gmap string nat;       (* a vector of that many events *)
  blockingWait_ : bool;
  opTimeout_ : Z;                       (* milliseconds *)
  (* what the members point to, and the rest of the process *)
  comms : gmap CommPtr NCCLComm;
  store : gmap string (list Byte.byte); (* the target of store_ *)
  uniqueIds : list ncclUniqueId;        (* what ncclGetUniqueId returns next *)
  numGPUs : nat;                        (* at::cuda::getNumGPUs() *)
  next_stream : nat;
  next_storage : nat;
  steady_clock : Z;                     (* milliseconds *)
  effects : list Effect;
}.

Definition set_ncclCommCounter_ (v : Z) (s : State) : State :=
  mkState (rank_ s) (size_ s) v (devNCCLCommMap_ s) (ncclIdToCommMap_ s)
    (abortedComms_ s) (usedDeviceIdxs_ s) (ncclStreams_ s) (ncclEvents_ s)
    (blockingWait_ s) (opTimeout_ s) (comms s) (store s) (uniqueIds s)
    (numGPUs s) (next_stream s) (next_storage s) (steady_clock s) (effects s).

Definition set_devNCCLCommMap_ (v : gmap string (list CommPtr)) (s : State)
  : State :=
  mkState (rank_ s) (size_ s) (ncclCommCounter_ s) v (ncclIdToCommMap_ s)
    (abortedComms_ s) (usedDeviceIdxs_ s) (ncclStreams_ s) (ncclEvents_ s)
    (blockingWait_ s) (opTimeout_ s) (comms s) (store s) (uniqueIds s)
    (numGPUs s) (next_stream s) (next_storage s) (steady_clock s) (effects s).

Definition set_ncclIdToCommMap_ (v : gmap string (list CommPtr)) (s : State)
  : State :=
  mkState (rank_ s) (size_ s) (ncclCommCounter_ s) (devNCCLCommMap_ s) v
    (abortedComms_ s) (usedDeviceIdxs_ s) (ncclStreams_ s) (ncclEvents_ s)
    (blockingWait_ s) (opTimeout_ s) (comms s) (store s) (uniqueIds s)
    (numGPUs s) (next_stream s) (next_storage s) (steady_clock s) (effects s).

Definition set_abortedComms_ (v : gset string) (s : State) : State :=
  mkState (rank_ s) (size_ s) (ncclCommCounter_ s) (devNCCLCommMap_ s)
    (ncclIdToCommMap_ s) v (usedDeviceIdxs_ s) (ncclStreams_ s)
    (ncclEvents_ s) (blockingWait_ s) (opTimeout_ s) (comms s) (store s)
    (uniqueIds s) (numGPUs s) (next_stream s) (next_storage s)
    (steady_clock s) (effects s).

Definition set_usedDeviceIdxs_ (v : gset Z) (s : State) : State :=
  mkState (rank_ s) (size_ s) (ncclCommCounter_ s) (devNCCLCommMap_ s)
    (ncclIdToCommMap_ s) (abortedComms_ s) v (ncclStreams_ s)
    (ncclEvents_ s) (blockingWait_ s) (opTimeout_ s) (comms s) (store s)
    (uniqueIds s) (numGPUs s) (next_stream s) (next_storage s)
    (steady_clock s) (effects s).

Definition set_ncclStreams_ (v : gmap string (list CUDAStream)) (s : State)
  : State :=
  mkState (rank_ s) (size_ s) (ncclCommCounter_ s) (devNCCLCommMap_ s)
    (ncclIdToCommMap_ s) (abortedComms_ s) (usedDeviceIdxs_ s) v
    (ncclEvents_ s) (blockingWait_ s) (opTimeout_ s) (comms s) (store s)
    (uniqueIds s) (numGPUs s) (next_stream s) (next_storage s)
    (steady_clock s) (effects s).

Definition set_ncclEvents_ (v : gmap string nat) (s : State) : State :=
  mkState (rank_ s) (size_ s) (ncclCommCounter_ s) (devNCCLCommMap_ s)
    (ncclIdToCommMap_ s) (abortedComms_ s) (usedDeviceIdxs_ s)
    (ncclStreams_ s) v (blockingWait_ s) (opTimeout_ s) (comms s) (store s)
    (uniqueIds s) (numGPUs s) (next_stream s) (next_storage s)
    (steady_clock s) (effects s).

Definition set_comms (v : gmap CommPtr NCCLComm) (s : State) : State :=
  mkState (rank_ s) (size_ s) (ncclCommCounter_ s) (devNCCLCommMap_ s)
    (ncclIdToCommMap_ s) (abortedComms_ s) (usedDeviceIdxs_ s)
    (ncclStreams_ s) (ncclEvents_ s) (blockingWait_ s) (opTimeout_ s) v
    (store s) (uniqueIds s) (numGPUs s) (next_stream s) (next_storage s)
    (steady_clock s) (effects s).

Definition set_store (v : gmap string (list Byte.byte)) (s : State) : State :=
  mkState (rank_ s) (size_ s) (ncclCommCounter_ s) (devNCCLCommMap_ s)
    (ncclIdToCommMap_ s) (abortedComms_ s) (usedDeviceIdxs_ s)
    (ncclStreams_ s) (ncclEvents_ s) (blockingWait_ s) (opTimeout_ s)
    (comms s) v (uniqueIds s) (numGPUs s) (next_stream s) (next_storage s)
    (steady_clock s) (effects s).

Definition set_uniqueIds (v : list ncclUniqueId) (s : State) : State :=
  mkState (rank_ s) (size_ s) (ncclCommCounter_ s) (devNCCLCommMap_ s)
    (ncclIdToCommMap_ s) (abortedComms_ s) (usedDeviceIdxs_ s)
    (ncclStreams_ s) (ncclEvents_ s) (blockingWait_ s) (opTimeout_ s)
    (comms s) (store s) v (numGPUs s) (next_stream s) (next_storage s)
    (steady_clock s) (effects s).

Definition set_next_stream (v : nat) (s : State) : State :=
  mkState (rank_ s) (size_ s) (ncclCommCounter_ s) (devNCCLCommMap_ s)
    (ncclIdToCommMap_ s) (abortedComms_ s) (usedDeviceIdxs_ s)
    (ncclStreams_ s) (ncclEvents_ s) (blockingWait_ s) (opTimeout_ s)
    (comms s) (store s) (uniqueIds s) (numGPUs s) v (next_storage s)
    (steady_clock s) (effects s).

Definition set_next_storage (v : nat) (s : State) : State :=
  mkState (rank_ s) (size_ s) (ncclCommCounter_ s) (devNCCLCommMap_ s)
    (ncclIdToCommMap_ s) (abortedComms_ s) (usedDeviceIdxs_ s)
    (ncclStreams_ s) (ncclEvents_ s) (blockingWait_ s) (opTimeout_ s)
    (comms s) (store s) (uniqueIds s) (numGPUs s) (next_stream s) v
    (steady_clock s) (effects s).

Definition set_steady_clock (v : Z) (s : State) : State :=
  mkState (rank_ s) (size_ s) (ncclCommCounter_ s) (devNCCLCommMap_ s)
    (ncclIdToCommMap_ s) (abortedComms_ s) (usedDeviceIdxs_ s)
    (ncclStreams_ s) (ncclEvents_ s) (blockingWait_ s) (opTimeout_ s)
    (comms s) (store s) (uniqueIds s) (numGPUs s) (next_stream s)
    (next_storage s) v (effects s).

Definition set_effects (v : list Effect) (s : State) : State :=
  mkState (rank_ s) (size_ s) (ncclCommCounter_ s) (devNCCLCommMap_ s)
    (ncclIdToCommMap_ s) (abortedComms_ s) (usedDeviceIdxs_ s)
    (ncclStreams_ s) (ncclEvents_ s) (blockingWait_ s) (opTimeout_ s)
    (comms s) (store s) (uniqueIds s) (numGPUs s) (next_stream s)
    (next_storage s) (steady_clock s) v.

(** ** The monad of member functions: state, exceptions, faults *)

Definition M (A : Type) : Type := State -> Outcome A * State.

Definition ret {A} (a : A) : M A := fun s => (Ok a, s).

Definition bind {A B} (m : M A) (k : A -> M B) : M B :=
  fun s =>
    match m s with
    | (Ok a, s') => k a s'
    | (Throw e, s') => (Throw e, s')
    | (Undefined w, s') => (Undefined w, s')
    | (Blocked, s') => (Blocked, s')
    end.

Declare Scope pg_scope.
Delimit Scope pg_scope with pg.
Notation "x <- c ;;; k" := (bind c (fun x => k))
  (at level 62, c at next level, right associativity) : pg_scope.
Notation "c ;;; k" := (bind c (fun _ => k))
  (at level 62, right associativity) : pg_scope.
Open Scope pg_scope.

Definition throw {A} (e : Exn) : M A := fun s => (Throw e, s).
Definition undefined {A} (why : string) : M A := fun s => (Undefined why, s).
Definition blocked {A} : M A := fun s => (Blocked, s).
Definition get_state : M State := fun s => (Ok s, s).
Definition modify (f : State -> State) : M unit := fun s => (Ok tt, f s).
Definition lift {A} (o : Outcome A) : M A := fun s => (o, s).

(** One call is appended to the log. *)
Definition emit (e : Effect) : M unit :=
  modify (fun s => set_effects (effects s ++ [e]) s).

(** A scope guard: [cleanup] runs when the body returns or throws. *)
Definition scoped {A} (body : M A) (cleanup : M unit) : M A :=
  fun s =>
    match body s with
    | (Ok a, s') =>
        match cleanup s' with
        | (Ok _, s'') => (Ok a, s'')
        | (Throw e, s'') => (Throw e, s'')
        | (Undefined w, s'') => (Undefined w, s'')
        | (Blocked, s'') => (Blocked, s'')
        end
    | (Throw e, s') =>
        match cleanup s' with
        | (Undefined w, s'') => (Undefined w, s'')
        | (Blocked, s'') => (Blocked, s'')
        | (_, s'') => (Throw e, s'')
        end
    | other => other
    end.

(** [v[i]] on a vector: out of range is undefined behaviour. *)
Definition at_index {A} (l : list A) (i : nat) : M A :=
  match l !! i with
  | Some a => ret a
  | None => undefined "vector index out of range"
  end.

(** [map.emplace(k, v)]: no effect when the key is present. *)
Definition emplace {V} (k : string) (v : V) (m : gmap string V)
  : gmap string V :=
  match m !! k with
  | Some _ => m
  | None => <[k := v]> m
  end.

Fixpoint for_each {A} (l : list A) (body : A -> M unit) : M unit :=
  match l with
  | [] => ret tt
  | x :: rest => body x ;;; for_each rest body
  end.

(** [for (size_t i = 0; i < n; ++i) body(i)]. *)
Definition for_range (n : nat) (body : nat -> M unit) : M unit :=
  for_each (seq 0 n) body.

(** The same loop when the body updates a local object. *)
Fixpoint fold_each {A W} (l : list A) (body : A -> W -> M W) (w : W) : M W :=
  match l with
  | [] => ret w
  | x :: rest => w' <- body x w ;;; fold_each rest body w'
  end.

(** ** Keys and device lists *)

Definition getKeyFromDevices (devices : list Z) : string :=
  fold_left
    (fun deviceList index =>
       if bool_decide (deviceList = ""%string) then std_to_string index
       else deviceList +:+ "," +:+ std_to_string index)
    devices ""%string.

Definition getDeviceList (tensors : list Tensor) : list Z :=
  get_device <$> tensors.

(** ** Work objects *)

(** [store_] of a work object: a [shared_ptr<Store>], null until assigned. *)
Inductive StorePtr := null_store | the_store.

Inductive cudaError_t := cudaSuccess | cudaErrorNotReady | cudaErrorOther.

Record WorkNCCL := mkWork {
  devices_ : list Z;
  cudaEvents_ : list (option CUDAStream); (* the stream each event was recorded on *)
  ncclComms_ : list (option CommPtr);     (* null until assigned *)
  w_blockingWait_ : bool;
  w_opTimeout_ : Z;
  workStartTime_ : Z;
  w_store_ : StorePtr;
  exception_ : option Exn;
  barrierTensors_ : list Tensor;
}.

Definition set_exception_ (e : option Exn) (w : WorkNCCL) : WorkNCCL :=
  mkWork (devices_ w) (cudaEvents_ w) (ncclComms_ w) (w_blockingWait_ w)
    (w_opTimeout_ w) (workStartTime_ w) (w_store_ w) e (barrierTensors_ w).

(** The constructor of [WorkNCCL]: the vectors are resized to the number of
    devices, the start time is read from the clock, and the members the
    constructor does not mention keep their defaults. *)
Definition initWork (devices : list Z) : M WorkNCCL :=
  s <- get_state ;;;
  ret {| devices_ := devices;
         cudaEvents_ := replicate (length devices) None;
         ncclComms_ := replicate (length devices) None;
         w_blockingWait_ := false;
         w_opTimeout_ := 0;
         workStartTime_ := steady_clock s;
         w_store_ := null_store;
         exception_ := None;
         barrierTensors_ := [] |}.

Definition ncclGetErrorWithVersion (e : ncclResult_t) : string :=
  std_to_string e.

(** [checkForNCCLErrorsInternal]: the first communicator whose error query
    is not [ncclSuccess] decides. *)
Fixpoint checkForNCCLErrorsInternal (heap : gmap CommPtr NCCLComm)
    (ncclComms : list (option CommPtr)) : Outcome (option Exn) :=
  match ncclComms with
  | [] => Ok None
  | None :: _ => Undefined "null shared_ptr<NCCLComm>"
  | Some p :: rest =>
      match heap !! p with
      | None => Undefined "dangling shared_ptr<NCCLComm>"
      | Some c =>
          if negb (comm_asyncErr c =? ncclSuccess) then
            Ok (Some (runtime_error
                        ("NCCL error: " +:+ ncclGetErrorWithVersion (comm_asyncErr c))))
          else checkForNCCLErrorsInternal heap rest
      end
  end.

Definition checkForNCCLErrors (ncclComms : list (option CommPtr))
  : M (option Exn) :=
  s <- get_state ;;; lift (checkForNCCLErrorsInternal (comms s) ncclComms).

Definition checkAndSetException (w : WorkNCCL) : M WorkNCCL :=
  match exception_ w with
  | Some _ => ret w
  | None =>
      exception_ptr <- checkForNCCLErrors (ncclComms_ w) ;;;
      ret (set_exception_ exception_ptr w)
  end.

(** [finishedGPUExecutionInternal]; [queries] are the results
    [cudaEventQuery] gives for the events of the work, in device order. *)
Fixpoint finishedGPUExecutionInternal (queries : list cudaError_t)
    (devices : list Z) : M bool :=
  match devices with
  | [] => ret true
  | _ :: rest =>
      match queries with
      | [] => undefined "cudaEventQuery on a missing event"
      | cudaSuccess :: queries' => finishedGPUExecutionInternal queries' rest
      | cudaErrorNotReady :: _ => ret false
      | cudaErrorOther :: _ => throw (runtime_error "CUDA error")
      end
  end.

Definition isCompleted (queries : list cudaError_t) (w : WorkNCCL)
  : M (bool * WorkNCCL) :=
  w' <- checkAndSetException w ;;;
  match exception_ w' with
  | Some _ => ret (true, w')
  | None =>
      finished <- finishedGPUExecutionInternal queries (devices_ w') ;;;
      ret (finished, w')
  end.

Definition checkAndThrowException (w : WorkNCCL) : M WorkNCCL :=
  w' <- checkAndSetException w ;;;
  match exception_ w' with
  | Some e => throw e
  | None => ret w'
  end.

(** [ncclComm->ncclCommAbort()]. *)
Definition comm_abort (p : CommPtr) : M unit :=
  emit (ncclCommAbort p) ;;;
  modify (fun s => set_comms (alter abort_comm p (comms s)) s).

Definition comm_getNcclId (p : CommPtr) : M ncclUniqueId :=
  s <- get_state ;;;
  match comms s !! p with
  | Some c => ret (comm_id c)
  | None => undefined "dangling shared_ptr<NCCLComm>"
  end.

(** [store_->set(key, value)] through a pointer that may be null. *)
Definition store_set (sp : StorePtr) (key : string) (value : list Byte.byte)
  : M unit :=
  match sp with
  | null_store => undefined "null shared_ptr<Store>"
  | the_store => modify (fun s => set_store (<[key := value]> (store s)) s)
  end.

(** The body of the loop over [ncclComms_] run when [synchronize] detects
    the timeout: abort the communicator, then write its id to the store. *)
Definition abort_and_publish (sp : StorePtr) (ncclComm : option CommPtr)
  : M unit :=
  match ncclComm with
  | None => undefined "null shared_ptr<NCCLComm>"
  | Some p =>
      comm_abort p ;;;
      id <- comm_getNcclId p ;;;
      let storeKey := getNcclAbortedCommStoreKey (buildNcclUniqueIdStr id) in
      store_set sp storeKey []
  end.

(** The body of the [if] that detects the timeout in [synchronize]. *)
Definition abort_on_timeout (w : WorkNCCL) : M unit :=
  for_each (ncclComms_ w) (abort_and_publish (w_store_ w)) ;;;
  throw (runtime_error "Operation timed out!").

Definition kSynchronizeBusyWaitMillis : Z := 10.
Definition kWaitForAbortCommStoreKey : Z := 1000.
Definition kWatchdogThreadSleepMillis : Z := 10000.

(** What the surroundings show at one evaluation of the loop condition of
    [synchronize]: asynchronous errors raised on communicators since the
    last look, the answers of [cudaEventQuery], and the clock reading taken
    in the body. *)
Record Tick := mkTick {
  tick_errors : list (CommPtr * ncclResult_t);
  tick_queries : list cudaError_t;
  tick_now : Z;
}.

Definition observe (tk : Tick) : M unit :=
  modify (fun s =>
    set_steady_clock (tick_now tk)
      (set_comms
         (fold_left (fun heap pe => alter (raise_asyncErr pe.2) pe.1 heap)
            (tick_errors tk) (comms s)) s)).

(** The [while (!isCompleted())] loop and the statement after it.  One
    [Tick] is consumed per evaluation of the condition; when the observed
    ticks end before the loop does, the call has not returned. *)
Fixpoint synchronize_wait (ticks : list Tick) (w : WorkNCCL) : M WorkNCCL :=
  match ticks with
  | [] => blocked
  | tk :: rest =>
      observe tk ;;;
      c <- isCompleted (tick_queries tk) w ;;;
      if c.1 then checkAndThrowException c.2
      else
        if w_opTimeout_ c.2 <? tick_now tk - workStartTime_ c.2 then
          abort_on_timeout c.2 ;;; ret c.2
        else
          w' <- checkAndThrowException c.2 ;;;
          emit (sleep_for kSynchronizeBusyWaitMillis) ;;;
          synchronize_wait rest w'
  end.

Definition synchronize (ticks : list Tick) (w : WorkNCCL) : M WorkNCCL :=
  for_range (length (devices_ w)) (fun i =>
    d <- at_index (devices_ w) i ;;;
    emit (cudaStreamWaitEvent (CurrentStream d) (WorkEvent i)) ;;;
    if negb (bool_decide (barrierTensors_ w = [])) then
      emit (cudaSetDevice d) ;;; emit (cudaDeviceSynchronize d)
    else ret tt) ;;;
  if w_blockingWait_ w then synchronize_wait ticks w else ret w.

Definition wait (ticks : list Tick) (w : WorkNCCL) : M bool :=
  synchronize ticks w ;;; ret true.

(** ** Communicator cache and rendezvous *)

(** [store_->get(key)] blocks until the key is present. *)
Definition store_get (key : string) : M (list Byte.byte) :=
  s <- get_state ;;;
  match store s !! key with
  | Some v => ret v
  | None => blocked
  end.

(** [store_->wait({key}, timeout)] throws when the key does not appear. *)
Definition store_wait (key : string) (timeout : Z) : M unit :=
  s <- get_state ;;;
  match store s !! key with
  | Some _ => ret tt
  | None => throw (runtime_error "Wait timeout")
  end.

(** The bytes fetched from the store, copied over an [ncclUniqueId] once
    their number is known to be the width of the type. *)
Definition bytes_to_ncclUniqueId (l : list Byte.byte) : option ncclUniqueId :=
  match decide (length l = NCCL_UNIQUE_ID_BYTES) with
  | left H => Some (eq_rect _ (vec Byte.byte) (list_to_vec l) _ H)
  | right _ => None
  end.

Definition ncclGetUniqueId : M ncclUniqueId :=
  s <- get_state ;;;
  match uniqueIds s with
  | id :: rest => modify (set_uniqueIds rest) ;;; ret id
  | [] => throw (runtime_error "NCCL error in ncclGetUniqueId")
  end.

Definition broadcastUniqueNCCLID (ncclID : ncclUniqueId) : M ncclUniqueId :=
  s <- get_state ;;;
  let storeKey := std_to_string (ncclCommCounter_ s) in
  modify (set_ncclCommCounter_ (wrap_uint64 (ncclCommCounter_ s + 1))) ;;;
  if rank_ s =? 0 then
    store_set the_store storeKey (vec_to_list ncclID) ;;; ret ncclID
  else
    vec <- store_get storeKey ;;;
    match bytes_to_ncclUniqueId vec with
    | Some id => ret id
    | None =>
        throw (c10_Error
          "Expected vec.size() == NCCL_UNIQUE_ID_BYTES to be true, but got false.")
    end.

(** [NCCLComm::create(numRanks, rank, ncclID)] on the current device: a
    new communicator, owned by the returned pointer. *)
Definition NCCLComm_create (numRanks rank : Z) (ncclID : ncclUniqueId)
    (device : Z) : M CommPtr :=
  s <- get_state ;;;
  let p := fresh (dom (comms s)) in
  emit (ncclCommInitRank numRanks rank ncclID p) ;;;
  modify (fun s =>
    set_comms (<[p := {| comm_nranks := numRanks; comm_rank := rank;
                         comm_id := ncclID; comm_device := device;
                         comm_asyncErr := ncclSuccess;
                         comm_aborted := false |}]> (comms s)) s) ;;;
  ret p.

Definition getStreamFromPool (device : Z) : M CUDAStream :=
  s <- get_state ;;;
  modify (set_next_stream (S (next_stream s))) ;;;
  ret (PoolStream device (next_stream s)).

(** The body of the loop of [getNCCLComm] that creates the communicators;
    the accumulator holds [ncclComms] and [streamVal]. *)
Definition create_comm_step (ncclID : ncclUniqueId) (devices : list Z)
    (i : nat) (acc : list CommPtr * list CUDAStream)
  : M (list CommPtr * list CUDAStream) :=
  s <- get_state ;;;
  let n := Z.of_nat (length devices) in
  let numRanks := wrap_int32 (wrap_uint64 (size_ s * n)) in
  let rank := wrap_int32 (wrap_uint64 (rank_ s * n + Z.of_nat i)) in
  d <- at_index devices i ;;;
  emit (cudaSetDevice d) ;;;
  p <- NCCLComm_create numRanks rank ncclID d ;;;
  stream <- getStreamFromPool d ;;;
  ret (acc.1 ++ [p], acc.2 ++ [stream]).

Definition getNCCLComm (devicesKey : string) (devices : list Z)
  : M (list CommPtr) :=
  if bool_decide (devicesKey = ""%string) then
    throw (runtime_error
      "Not able to create/get the NCCL Communicator since the GPU devices are not known")
  else
    modify (fun s =>
      set_usedDeviceIdxs_ (list_to_set devices ∪ usedDeviceIdxs_ s) s) ;;;
    s <- get_state ;;;
    match devNCCLCommMap_ s !! devicesKey with
    | Some ncclComms => ret ncclComms
    | None =>
        ncclID0 <- (if rank_ s =? 0 then ncclGetUniqueId
                    else ret (vreplicate NCCL_UNIQUE_ID_BYTES Byte.x00)) ;;;
        ncclID <- broadcastUniqueNCCLID ncclID0 ;;;
        emit ncclGroupStart ;;;
        created <- fold_each (seq 0 (length devices))
                     (create_comm_step ncclID devices) ([], []) ;;;
        emit ncclGroupEnd ;;;
        modify (fun s =>
          set_ncclStreams_ (emplace devicesKey created.2 (ncclStreams_ s)) s) ;;;
        modify (fun s =>
          set_ncclEvents_
            (emplace devicesKey (length devices) (ncclEvents_ s)) s) ;;;
        modify (fun s =>
          set_ncclIdToCommMap_
            (emplace (buildNcclUniqueIdStr ncclID) created.1
               (ncclIdToCommMap_ s)) s) ;;;
        modify (fun s =>
          set_devNCCLCommMap_
            (emplace devicesKey created.1 (devNCCLCommMap_ s)) s) ;;;
        s' <- get_state ;;;
        ret (default [] (devNCCLCommMap_ s' !! devicesKey))
    end.

(** ** Collective driver *)

(** [ncclStreams_[key]]: [operator[]] inserts an empty vector when the key
    is absent. *)
Definition ncclStreams_at (key : string) : M (list CUDAStream) :=
  modify (fun s => set_ncclStreams_ (emplace key [] (ncclStreams_ s)) s) ;;;
  s <- get_state ;;;
  ret (default [] (ncclStreams_ s !! key)).

Definition ncclEvents_at (key : string) : M nat :=
  modify (fun s => set_ncclEvents_ (emplace key 0%nat (ncclEvents_ s)) s) ;;;
  s <- get_state ;;;
  ret (default 0%nat (ncclEvents_ s !! key)).

Definition syncStreams (devices : list Z) (key : string) (ncclEvents : nat)
    (ncclStreams : list CUDAStream) : M unit :=
  for_range (length devices) (fun i =>
    ncclStream <- at_index ncclStreams i ;;;
    (if (i <? ncclEvents)%nat then ret tt
     else undefined "vector index out of range") ;;;
    d <- at_index devices i ;;;
    emit (cudaEventRecord (SyncEvent key i) (CurrentStream d)) ;;;
    emit (cudaStreamWaitEvent ncclStream (SyncEvent key i))).

Definition C10D_NCCL_CHECK (r : ncclResult_t) : M unit :=
  if r =? ncclSuccess then ret tt
  else throw (runtime_error ("NCCL error: " +:+ ncclGetErrorWithVersion r)).

(** [work->member = value] on element [i] of a vector member. *)
Definition assign {A} (l : list A) (i : nat) (a : A) : M (list A) :=
  if (i <? length l)%nat then ret (<[i := a]> l)
  else undefined "vector index out of range".

(** The last loop of [collective]: the completion events are recorded and
    the policy members copied, [store_] included. *)
Definition collective_finish_step (ncclStreams : list CUDAStream)
    (ncclComms : list CommPtr) (i : nat) (work : WorkNCCL) : M WorkNCCL :=
  s <- get_state ;;;
  ncclStream <- at_index ncclStreams i ;;;
  events <- assign (cudaEvents_ work) i (Some ncclStream) ;;;
  emit (cudaEventRecord (WorkEvent i) ncclStream) ;;;
  p <- at_index ncclComms i ;;;
  work_comms <- assign (ncclComms_ work) i (Some p) ;;;
  ret {| devices_ := devices_ work;
         cudaEvents_ := events;
         ncclComms_ := work_comms;
         w_blockingWait_ := blockingWait_ s;
         w_opTimeout_ := opTimeout_ s;
         workStartTime_ := workStartTime_ work;
         w_store_ := the_store;
         exception_ := exception_ work;
         barrierTensors_ := barrierTensors_ work |}.

Definition collective (inputs outputs : list Tensor)
    (fn : Tensor -> Tensor -> CommPtr -> CUDAStream -> M ncclResult_t)
    (pre post : list CUDAStream -> M unit) : M WorkNCCL :=
  let devices := getDeviceList inputs in
  let key := getKeyFromDevices devices in
  ncclComms <- getNCCLComm key devices ;;;
  ncclEvents <- ncclEvents_at key ;;;
  ncclStreams <- ncclStreams_at key ;;;
  syncStreams devices key ncclEvents ncclStreams ;;;
  work <- initWork devices ;;;
  pre ncclStreams ;;;
  for_range (length inputs) (fun i =>
    d <- at_index devices i ;;;
    emit (cudaSetDevice d) ;;;
    ncclStream <- at_index ncclStreams i ;;;
    input <- at_index inputs i ;;;
    emit (recordStream (storage input) ncclStream)) ;;;
  emit freeMutex_lock ;;;
  emit ncclGroupStart ;;;
  scoped
    (for_range (length inputs) (fun i =>
       d <- at_index devices i ;;;
       emit (cudaSetDevice d) ;;;
       ncclStream <- at_index ncclStreams i ;;;
       input <- at_index inputs i ;;;
       output <- at_index outputs i ;;;
       p <- at_index ncclComms i ;;;
       r <- fn input output p ncclStream ;;;
       C10D_NCCL_CHECK r))
    (emit ncclGroupEnd ;;; emit freeMutex_unlock) ;;;
  post ncclStreams ;;;
  fold_each (seq 0 (length inputs))
    (collective_finish_step ncclStreams ncclComms) work.

(** The last loop of [batchedp2p]. *)
Definition batchedp2p_finish_step (ncclStreams : list CUDAStream)
    (ncclComms : list CommPtr) (i : nat) (work : WorkNCCL) : M WorkNCCL :=
  s <- get_state ;;;
  ncclStream <- at_index ncclStreams i ;;;
  events <- assign (cudaEvents_ work) i (Some ncclStream) ;;;
  emit (cudaEventRecord (WorkEvent i) ncclStream) ;;;
  p <- at_index ncclComms i ;;;
  work_comms <- assign (ncclComms_ work) i (Some p) ;;;
  ret {| devices_ := devices_ work;
         cudaEvents_ := events;
         ncclComms_ := work_comms;
         w_blockingWait_ := blockingWait_ s;
         w_opTimeout_ := opTimeout_ s;
         workStartTime_ := workStartTime_ work;
         w_store_ := w_store_ work;
         exception_ := exception_ work;
         barrierTensors_ := barrierTensors_ work |}.

Definition batchedp2p (send_ptrs : list DevPtr) (send_lengths : list Z)
    (recv_ptrs : list DevPtr) (recv_lengths : list Z)
    (datatype : ncclDataType_t) (inputs outputs : list Tensor) : M WorkNCCL :=
  let devices := getDeviceList inputs in
  let key := getKeyFromDevices devices in
  ncclComms <- getNCCLComm key devices ;;;
  ncclEvents <- ncclEvents_at key ;;;
  ncclStreams <- ncclStreams_at key ;;;
  syncStreams devices key ncclEvents ncclStreams ;;;
  work <- initWork devices ;;;
  for_range (length inputs) (fun i =>
    d <- at_index devices i ;;;
    emit (cudaSetDevice d) ;;;
    ncclStream <- at_index ncclStreams i ;;;
    input <- at_index inputs i ;;;
    emit (recordStream (storage input) ncclStream)) ;;;
  s <- get_state ;;;
  emit freeMutex_lock ;;;
  emit ncclGroupStart ;;;
  scoped
    (for_range (Z.to_nat (size_ s)) (fun i =>
       for_range (length inputs) (fun j =>
         d <- at_index devices j ;;; emit (cudaSetDevice d)) ;;;
       ncclStream <- at_index ncclStreams 0 ;;;
       comm0 <- at_index ncclComms 0 ;;;
       send_ptr <- at_index send_ptrs i ;;;
       send_length <- at_index send_lengths i ;;;
       emit (ncclSend send_ptr send_length datatype (Z.of_nat i) comm0
               ncclStream) ;;;
       recv_ptr <- at_index recv_ptrs i ;;;
       recv_length <- at_index recv_lengths i ;;;
       emit (ncclRecv recv_ptr recv_length datatype (Z.of_nat i) comm0
               ncclStream)))
    (emit ncclGroupEnd ;;; emit freeMutex_unlock) ;;;
  for_range (length outputs) (fun i =>
    d <- at_index devices i ;;;
    emit (cudaSetDevice d) ;;;
    ncclStream <- at_index ncclStreams i ;;;
    output <- at_index outputs i ;;;
    emit (recordStream (storage output) ncclStream)) ;;;
  fold_each (seq 0 (length inputs))
    (batchedp2p_finish_step ncclStreams ncclComms) work.

(** ** Entry points *)

Definition check_gpu_tensors_m (tensors : list Tensor) (alltoallv : bool)
  : M unit :=
  s <- get_state ;;;
  lift (check_gpu_tensors_multi (numGPUs s) tensors alltoallv).

Definition allreduce (tensors : list Tensor) (reduceOp : ReduceOp)
  : M WorkNCCL :=
  check_gpu_tensors_m tensors false ;;;
  collective tensors tensors
    (fun input output comm stream =>
       datatype <- lift (getNcclDataType (scalar_type input)) ;;;
       emit (ncclAllReduce (data_ptr input) (data_ptr output) (numel input)
               datatype (ncclOp reduceOp) comm stream) ;;;
       ret ncclSuccess)
    (fun _ => ret tt)
    (fun _ => ret tt).

(** The test that guards the copy in the [post] hook of [allgather]:
    [outputFlattened[i][j]] shares the storage of [outputFlattened[i]]. *)
Definition in_place (flat : Tensor) (first t : Tensor) (j : nat) : bool :=
  is_alias_of (storage flat) (storage t)
  && (wrap_uint64 (storage_offset t) =?
      wrap_uint64 (storage_offset first + numel t * Z.of_nat j)).

(** The inner loop of the hook, over [j]; it is left at the first tensor
    that is found in place. *)
Fixpoint allgather_copy_loop (ncclStream : CUDAStream) (flat : Tensor)
    (outputs_i : list Tensor) (js : list nat) : M unit :=
  match js with
  | [] => ret tt
  | j :: rest =>
      t <- at_index outputs_i j ;;;
      first <- at_index outputs_i 0 ;;;
      if in_place flat first t j then ret tt
      else
        emit (recordStream (storage t) ncclStream) ;;;
        emit (tensor_copy t flat j) ;;;
        allgather_copy_loop ncclStream flat outputs_i rest
  end.

Definition allgather_post (outputTensors : list (list Tensor))
    (outputFlattened : list Tensor) (ncclStreams : list CUDAStream) : M unit :=
  for_range (length outputTensors) (fun i =>
    ncclStream <- at_index ncclStreams i ;;;
    outputs_0 <- at_index outputTensors 0 ;;;
    flat <- at_index outputFlattened i ;;;
    outputs_i <- at_index outputTensors i ;;;
    allgather_copy_loop ncclStream flat outputs_i
      (seq 0 (length outputs_0))).

(** [size_] and [rank_] are [int]s passed for [size_t] parameters. *)
Definition to_size_t (z : Z) : nat := Z.to_nat (wrap_uint64 z).

Definition allgather (outputTensors : list (list Tensor))
    (inputTensors : list Tensor) (noCopy : bool) : M WorkNCCL :=
  check_gpu_tensors_m inputTensors false ;;;
  s <- get_state ;;;
  flat <- lift (flatten_for_scatter_gather outputTensors inputTensors
                  (to_size_t (size_ s)) (to_size_t (rank_ s)) noCopy
                  (next_storage s)) ;;;
  modify (set_next_storage flat.2) ;;;
  let outputFlattened := flat.1 in
  check_gpu_tensors_m outputFlattened false ;;;
  collective inputTensors outputFlattened
    (fun input output comm stream =>
       emit (recordStream (storage output) stream) ;;;
       datatype <- lift (getNcclDataType (scalar_type input)) ;;;
       emit (ncclAllGather (data_ptr input) (data_ptr output) (numel input)
               datatype comm stream) ;;;
       ret ncclSuccess)
    (fun _ => ret tt)
    (allgather_post outputTensors outputFlattened).

(** The body of the loop of [alltoall] that fills the per-peer vectors
    ([send_lengths], [recv_lengths], [send_ptrs], [recv_ptrs]); the lengths
    are stored into [int]s. *)
Definition alltoall_fill_step (inputTensors outputTensors : list Tensor)
    (i : nat) (acc : list Z * list Z * list DevPtr * list DevPtr)
  : M (list Z * list Z * list DevPtr * list DevPtr) :=
  input <- at_index inputTensors i ;;;
  output <- at_index outputTensors i ;;;
  ret (acc.1.1.1 ++ [wrap_int32 (numel input)],
       acc.1.1.2 ++ [wrap_int32 (numel output)],
       acc.1.2 ++ [data_ptr input],
       acc.2 ++ [data_ptr output]).

Definition alltoall (outputTensors inputTensors : list Tensor) : M WorkNCCL :=
  s <- get_state ;;;
  if negb (Z.of_nat (length inputTensors) =? wrap_uint64 (size_ s))
     || negb (Z.of_nat (length outputTensors) =? wrap_uint64 (size_ s)) then
    throw (runtime_error
      "Number of input or output tensors are not equal to group size")
  else
    check_gpu_tensors_m inputTensors true ;;;
    check_gpu_tensors_m outputTensors true ;;;
    filled <- fold_each (seq 0 (Z.to_nat (size_ s)))
                (alltoall_fill_step inputTensors outputTensors)
                ([], [], [], []) ;;;
    let send_lengths := filled.1.1.1 in
    let recv_lengths := filled.1.1.2 in
    let send_ptrs := filled.1.2 in
    let recv_ptrs := filled.2 in
    input0 <- at_index inputTensors 0 ;;;
    output0 <- at_index outputTensors 0 ;;;
    datatype <- lift (getNcclDataType (scalar_type input0)) ;;;
    batchedp2p send_ptrs send_lengths recv_ptrs recv_lengths datatype
      [input0] [output0].

(** ** Watchdog *)

(** [try { body } catch (std::exception&) { log }]. *)
Definition try_catch (body : M unit) : M unit :=
  fun s =>
    match body s with
    | (Throw _, s') => (Ok tt, s')
    | other => other
    end.

(** The body of the loop over the cache, for one entry: the ids of its
    communicators join [allCommIds]; when the group reports an error and
    blocking wait is on, its communicators are aborted and their ids join
    [abortedCommIds].  The accumulator is ([allCommIds], [abortedCommIds]). *)
Definition watchdog_scan_entry (ncclComms : list CommPtr)
    (acc : gset string * gset string) : M (gset string * gset string) :=
  s <- get_state ;;;
  allCommIds <- fold_each ncclComms (fun p all =>
      id <- comm_getNcclId p ;;; ret ({[buildNcclUniqueIdStr id]} ∪ all))
    acc.1 ;;;
  err <- checkForNCCLErrors (Some <$> ncclComms) ;;;
  match err with
  | Some _ =>
      if blockingWait_ s then
        abortedCommIds <- fold_each ncclComms (fun p aborted =>
            comm_abort p ;;;
            id <- comm_getNcclId p ;;;
            ret ({[buildNcclUniqueIdStr id]} ∪ aborted))
          acc.2 ;;;
        ret (allCommIds, abortedCommIds)
      else ret (allCommIds, acc.2)
  | None => ret (allCommIds, acc.2)
  end.

(** The [try] block run for a communicator id that is not yet known as
    aborted: wait for the marker, then abort the group of that id. *)
Definition watchdog_follow_abort (commId : string) : M unit :=
  let storeKey := getNcclAbortedCommStoreKey commId in
  try_catch (
    store_wait storeKey kWaitForAbortCommStoreKey ;;;
    s <- get_state ;;;
    match ncclIdToCommMap_ s !! commId with
    | None =>
        throw (c10_Error "it != ncclIdToCommMap_.end() INTERNAL ASSERT FAILED")
    | Some ncclComms =>
        for_each ncclComms comm_abort ;;;
        modify (fun s => set_abortedComms_ ({[commId]} ∪ abortedComms_ s) s)
    end).

(** One turn of the [while] loop of [ncclCommWatchdogInternal], up to the
    wait on the condition variable. *)
Definition ncclCommWatchdog_iteration : M unit :=
  s <- get_state ;;;
  ids <- fold_each (map_to_list (devNCCLCommMap_ s))
           (fun entry acc => watchdog_scan_entry entry.2 acc) (∅, ∅) ;;;
  if blockingWait_ s then
    for_each (elements ids.2) (fun abortedCommId =>
      modify (fun s =>
        set_abortedComms_ ({[abortedCommId]} ∪ abortedComms_ s) s) ;;;
      store_set the_store (getNcclAbortedCommStoreKey abortedCommId) []) ;;;
    for_each (elements ids.1) (fun commId =>
      s' <- get_state ;;;
      if bool_decide (commId ∈ abortedComms_ s') then ret tt
      else watchdog_follow_abort commId)
  else ret tt.

(** ** Construction *)

Definition NCCL_BLOCKING_WAIT : string := "NCCL_BLOCKING_WAIT".

(** The [try] block of the constructor: the value [blockingWait_] ends up
    with.  Both exceptions of [std::stoi] and the [runtime_error] thrown in
    the block are caught by the handler, which throws the same message. *)
Definition parse_blocking_wait (blockingWait : option string) : Outcome bool :=
  let invalid :=
    runtime_error ("Invalid value for environment variable: "
                   +:+ NCCL_BLOCKING_WAIT) in
  match blockingWait with
  | None => Ok false
  | Some text =>
      match stoi text with
      | StoiOk val =>
          if val =? 1 then Ok true
          else if negb (val =? 0) then Throw invalid
          else Ok false
      | StoiInvalidArgument => Throw invalid
      | StoiOutOfRange => Throw invalid
      end
  end.

(** The surroundings a process group is constructed in. *)
Record Process := mkProcess {
  getenv : string -> option string;
  proc_store : gmap string (list Byte.byte);
  proc_uniqueIds : list ncclUniqueId;
  proc_numGPUs : nat;
  proc_clock : Z;
}.

Definition ProcessGroupNCCL_new (proc : Process) (rank size opTimeout : Z)
  : Outcome State :=
  obind (parse_blocking_wait (getenv proc NCCL_BLOCKING_WAIT))
    (fun blockingWait =>
       Ok {| rank_ := rank; size_ := size;
             ncclCommCounter_ := 0;
             devNCCLCommMap_ := ∅; ncclIdToCommMap_ := ∅;
             abortedComms_ := ∅; usedDeviceIdxs_ := ∅;
             ncclStreams_ := ∅; ncclEvents_ := ∅;
             blockingWait_ := blockingWait;
             opTimeout_ := opTimeout;
             comms := ∅;
             store := proc_store proc;
             uniqueIds := proc_uniqueIds proc;
             numGPUs := proc_numGPUs proc;
             next_stream := 0; next_storage := 0;
             steady_clock := proc_clock proc;
             effects := [] |}).

(** ** Further members and entry points *)

(** [WorkNCCL::isSuccess]: a [const] member, it does not record what the
    error query finds. *)
Definition isSuccess (queries : list cudaError_t) (w : WorkNCCL) : M bool :=
  match exception_ w with
  | Some _ => ret false
  | None =>
      err <- checkForNCCLErrors (ncclComms_ w) ;;;
      match err with
      | Some _ => ret false
      | None => finishedGPUExecutionInternal queries (devices_ w)
      end
  end.

(** [int16_t], the type of a device index. *)
Definition wrap_int16 (z : Z) : Z := (z + 2 ^ 15) mod 2 ^ 16 - 2 ^ 15.

Definition set_barrierTensors_ (v : list Tensor) (w : WorkNCCL) : WorkNCCL :=
  mkWork (devices_ w) (cudaEvents_ w) (ncclComms_ w) (w_blockingWait_ w)
    (w_opTimeout_ w) (workStartTime_ w) (w_store_ w) (exception_ w) v.

(** [at::empty({1}, TensorOptions().device(CUDA).dtype(kByte))] on the
    current device, in the storage the allocator hands out. *)
Definition empty_byte_tensor (device : Z) (stor : nat) : Tensor :=
  {| is_cuda := true; is_sparse := false; scalar_type := kByte;
     sizes := [1]; is_contiguous := true; get_device := device;
     storage := stor; storage_offset := 0 |}.

(** The devices [barrier] works on.  Modelled from the spec:
    [usedDeviceIdxs_] is declared in c10d/ProcessGroupNCCL.hpp, which is
    not among the sources; it is the set of device indices ever used
    (section 3), taken to be a [std::set<int>], which a range-[for] visits
    in ascending order. *)
Definition barrier_devices : M (list Z) :=
  s <- get_state ;;;
  if bool_decide (usedDeviceIdxs_ s = ∅) then
    if bool_decide (numGPUs s = 0%nat) then
      undefined "integer division by zero"
    else ret [wrap_int16 (Z.rem (rank_ s) (Z.of_nat (numGPUs s)))]
  else ret (wrap_int16 <$> merge_sort Z.le (elements (usedDeviceIdxs_ s))).

(** The body of the loop that allocates the placeholder tensors. *)
Definition barrier_alloc_step (device : Z) (barrierTensors : list Tensor)
  : M (list Tensor) :=
  emit (cudaSetDevice device) ;;;
  s <- get_state ;;;
  modify (set_next_storage (S (next_storage s))) ;;;
  ret (barrierTensors ++ [empty_byte_tensor device (next_storage s)]).

(** [barrier]; [allreduce] is called with the default options, whose
    reduce operation is the sum. *)
Definition barrier : M WorkNCCL :=
  devices <- barrier_devices ;;;
  barrierTensors <- fold_each devices barrier_alloc_step [] ;;;
  work <- allreduce barrierTensors SUM ;;;
  ret (set_barrierTensors_ barrierTensors work).

(** [(char* )p + bytes]. *)
Definition ptr_add_bytes (p : DevPtr) (bytes : Z) : DevPtr :=
  {| ptr_storage := ptr_storage p; ptr_offset := ptr_offset p + bytes |}.

(** The body of the loop of [alltoall_base] for equal splits; the product
    [typesize * len * i] is computed in [int], from left to right. *)
Definition alltoall_base_equal_step (inputTensor outputTensor : Tensor)
    (typesize len : Z) (i : nat)
    (acc : list Z * list Z * list DevPtr * list DevPtr)
  : M (list Z * list Z * list DevPtr * list DevPtr) :=
  a <- lift (int_mul typesize len) ;;;
  bytes <- lift (int_mul a (Z.of_nat i)) ;;;
  ret (acc.1.1.1 ++ [len],
       acc.1.1.2 ++ [len],
       acc.1.2 ++ [ptr_add_bytes (data_ptr inputTensor) bytes],
       acc.2 ++ [ptr_add_bytes (data_ptr outputTensor) bytes]).

(** The body of the loop for given splits.  The accumulator holds the
    per-peer vectors and the two running offsets, which are [int64_t]; the
    lengths are stored into [int]s.  Both offsets are turned into bytes
    with [typesize], the size of an element of the input. *)
Definition alltoall_base_split_step (inputTensor outputTensor : Tensor)
    (typesize row_size : Z) (inputSplitSizes outputSplitSizes : list Z)
    (i : nat)
    (acc : (list Z * list Z * list DevPtr * list DevPtr) * (Z * Z))
  : M ((list Z * list Z * list DevPtr * list DevPtr) * (Z * Z)) :=
  let inputOffset := acc.2.1 in
  let outputOffset := acc.2.2 in
  send_bytes <- lift (int64_mul inputOffset typesize) ;;;
  recv_bytes <- lift (int64_mul outputOffset typesize) ;;;
  inputSplit <- at_index inputSplitSizes i ;;;
  send_count <- lift (int64_mul row_size inputSplit) ;;;
  let send_length := wrap_int32 send_count in
  outputSplit <- at_index outputSplitSizes i ;;;
  recv_count <- lift (int64_mul row_size outputSplit) ;;;
  let recv_length := wrap_int32 recv_count in
  inputOffset' <- lift (int64_add inputOffset send_length) ;;;
  outputOffset' <- lift (int64_add outputOffset recv_length) ;;;
  ret ((acc.1.1.1.1 ++ [send_length],
        acc.1.1.1.2 ++ [recv_length],
        acc.1.1.2 ++ [ptr_add_bytes (data_ptr inputTensor) send_bytes],
        acc.1.2 ++ [ptr_add_bytes (data_ptr outputTensor) recv_bytes]),
       (inputOffset', outputOffset')).

(** The per-peer vectors [alltoall_base] computes: [send_lengths],
    [recv_lengths], [send_ptrs], [recv_ptrs]. *)
Definition alltoall_base_plan (outputTensor inputTensor : Tensor)
    (outputSplitSizes inputSplitSizes : list Z)
  : M (list Z * list Z * list DevPtr * list DevPtr) :=
  s <- get_state ;;;
  let typesize := elementSize (scalar_type inputTensor) in
  if bool_decide (length outputSplitSizes = 0%nat)
     && bool_decide (length inputSplitSizes = 0%nat) then
    (if negb (numel outputTensor =? numel inputTensor)
        || negb (bool_decide (scalar_type outputTensor
                              = scalar_type inputTensor)) then
       throw (runtime_error "Tensors are not equal in size or data type")
     else ret tt) ;;;
    dim0 <- lift (tensor_size0 outputTensor) ;;;
    r <- lift (int64_rem dim0 (size_ s)) ;;;
    (if negb (r =? 0) then
       throw (runtime_error
                "Tensor's dim 0 does not divide equally across group size")
     else ret tt) ;;;
    q <- lift (int64_div (numel inputTensor) (size_ s)) ;;;
    let len := wrap_int32 q in
    fold_each (seq 0 (Z.to_nat (size_ s)))
      (alltoall_base_equal_step inputTensor outputTensor typesize len)
      ([], [], [], [])
  else
    lift (checkSplitSizes inputSplitSizes inputTensor (size_ s)) ;;;
    lift (checkSplitSizes outputSplitSizes outputTensor (size_ s)) ;;;
    dim0 <- lift (tensor_size0 inputTensor) ;;;
    q <- lift (int64_div (numel inputTensor) dim0) ;;;
    let row_size := wrap_int32 q in
    filled <- fold_each (seq 0 (Z.to_nat (size_ s)))
                (alltoall_base_split_step inputTensor outputTensor typesize
                   row_size inputSplitSizes outputSplitSizes)
                (([], [], [], []), (0, 0)) ;;;
    ret filled.1.

Definition alltoall_base (outputTensor inputTensor : Tensor)
    (outputSplitSizes inputSplitSizes : list Z) : M WorkNCCL :=
  check_gpu_tensors_m [inputTensor] false ;;;
  check_gpu_tensors_m [outputTensor] false ;;;
  plan <- alltoall_base_plan outputTensor inputTensor outputSplitSizes
            inputSplitSizes ;;;
  datatype <- lift (getNcclDataType (scalar_type inputTensor)) ;;;
  batchedp2p plan.1.2 plan.1.1.1 plan.2 plan.1.1.2 datatype
    [inputTensor] [outputTensor].

(** ** Vocabulary of the statements, and sample inputs *)

(** A decimal digit or a letter from a to f. *)
Definition is_lower_hex (c : ascii) : bool :=
  let n := nat_of_ascii c in
  (((48 <=? n) && (n <=? 57)) || ((97 <=? n) && (n <=? 102)))%nat.

(** A computation that only reads the state. *)
Definition read_only {A} (m : M A) : Prop := forall s, (m s).2 = s.

Definition invalid_blocking_wait : Exn :=
  runtime_error "Invalid value for environment variable: NCCL_BLOCKING_WAIT".

Definition omap_outcome {A B} (f : A -> B) (o : Outcome A) : Outcome B :=
  obind o (fun a => Ok (f a)).

(** What the loop of the validator asks of one tensor. *)
Definition valid_tensor (alltoallv : bool) (first t : Tensor) : Prop :=
  is_cuda t = true /\ is_sparse t = false
  /\ scalar_type t = scalar_type first
  /\ (alltoallv = false -> sizes t = sizes first)
  /\ is_contiguous t = true.

(** A dense, contiguous float tensor of four elements on a device. *)
Definition dense_float (device : Z) (stor : nat) : Tensor :=
  {| is_cuda := true; is_sparse := false; scalar_type := kFloat;
     sizes := [4]; is_contiguous := true; get_device := device;
     storage := stor; storage_offset := 0 |}.

(** Check (a) of the no-copy mode: every tensor of the list lies in the
    storage of the first, [j] blocks after it. *)
Definition views_aligned (tensor_list : list Tensor) : Prop :=
  forall j t first,
    tensor_list !! j = Some t -> tensor_list !! 0%nat = Some first ->
    storage t = storage first
    /\ storage_offset t = storage_offset first + Z.of_nat j * numel first.

(** Check (b): [other[i]] is outside that storage, or [rank] blocks after
    the first tensor. *)
Definition other_aligned (tensor_list : list Tensor) (other_i : Tensor)
    (rank : nat) : Prop :=
  forall first,
    tensor_list !! 0%nat = Some first ->
    storage other_i <> storage first
    \/ storage_offset other_i
       = storage_offset first + Z.of_nat rank * numel first.

Definition no_copy_checks (tensor_list : list Tensor) (other_i : Tensor)
    (rank : nat) : Prop :=
  views_aligned tensor_list /\ other_aligned tensor_list other_i rank.

(** A well-formed operand pair for one device: the right number of
    tensors, all on the device of [other_i] and of its number of elements,
    with offsets and extents that are addresses of a 64-bit machine. *)
Record device_well_formed (world_size num_devices rank : nat)
    (tensor_list : list Tensor) (other_i : Tensor) : Prop := {
  wf_count : length tensor_list = (world_size * num_devices)%nat;
  wf_count_small : Z.of_nat (length tensor_list) < 2 ^ 63;
  wf_nonempty : tensor_list <> [];
  wf_device : Forall (fun t => get_device t = get_device other_i) tensor_list;
  wf_numel : Forall (fun t => numel t = numel other_i) tensor_list;
  wf_offsets :
    Forall (fun t => 0 <= storage_offset t < 2 ^ 63) (other_i :: tensor_list);
  wf_numel_pos : 0 <= numel other_i;
  wf_extent :
    Forall (fun t =>
              storage_offset t
              + (Z.of_nat (length tensor_list) + Z.of_nat rank) * numel other_i
              < 2 ^ 63) tensor_list;
}.

(** The flag [no_copy] is still set when device [i] is reached: it was
    requested and the checks held for every device up to [i]. *)
Definition no_copy_up_to (no_copy : bool) (rank : nat)
    (tensor_lists : list (list Tensor)) (other : list Tensor) (i : nat)
  : Prop :=
  no_copy = true
  /\ forall k l o, (k <= i)%nat ->
       tensor_lists !! k = Some l -> other !! k = Some o ->
       no_copy_checks l o rank.

(** The same at an offset into its storage. *)
Definition cuda_float (device : Z) (stor : nat) (offset : Z) : Tensor :=
  {| is_cuda := true; is_sparse := false; scalar_type := kFloat;
     sizes := [4]; is_contiguous := true; get_device := device;
     storage := stor; storage_offset := offset |}.

(** Two devices, one rank.  On device 0 the two output tensors lie in
    different storages; on device 1 they are laid out back to back in one
    storage, and [other[1]] is elsewhere. *)
Definition two_device_lists : list (list Tensor) :=
  [ [cuda_float 0 0 0; cuda_float 0 1 0];
    [cuda_float 1 2 0; cuda_float 1 2 4] ].

Definition two_device_other : list Tensor :=
  [cuda_float 0 10 0; cuda_float 1 11 0].

(** The state after some more calls have been logged. *)
Definition logged (calls : list Effect) (s : State) : State :=
  set_effects (effects s ++ calls) s.






(** A process group of [size] ranks in which nothing has happened yet. *)
Definition idle_state (rank size : Z) (blockingWait : bool)
    (ids : list ncclUniqueId) : State :=
  {| rank_ := rank; size_ := size; ncclCommCounter_ := 0;
     devNCCLCommMap_ := ∅; ncclIdToCommMap_ := ∅; abortedComms_ := ∅;
     usedDeviceIdxs_ := ∅; ncclStreams_ := ∅; ncclEvents_ := ∅;
     blockingWait_ := blockingWait; opTimeout_ := 500;
     comms := ∅; store := ∅; uniqueIds := ids; numGPUs := 2;
     next_stream := 0; next_storage := 20; steady_clock := 0;
     effects := [] |}.

(** The communicator [NCCLComm::create] makes for device [i] of [n]. *)
Definition created_comm (s : State) (ncclID : ncclUniqueId) (devices : list Z)
    (i : nat) : NCCLComm :=
  let n := Z.of_nat (length devices) in
  {| comm_nranks := wrap_int32 (wrap_uint64 (size_ s * n));
     comm_rank := wrap_int32 (wrap_uint64 (rank_ s * n + Z.of_nat i));
     comm_id := ncclID;
     comm_device := default 0 (devices !! i);
     comm_asyncErr := ncclSuccess;
     comm_aborted := false |}.

(** What the creation loop leaves alone. *)
Definition only_creates (s s' : State) : Prop :=
  rank_ s' = rank_ s /\ size_ s' = size_ s
  /\ ncclCommCounter_ s' = ncclCommCounter_ s
  /\ devNCCLCommMap_ s' = devNCCLCommMap_ s
  /\ ncclIdToCommMap_ s' = ncclIdToCommMap_ s
  /\ ncclStreams_ s' = ncclStreams_ s
  /\ ncclEvents_ s' = ncclEvents_ s
  /\ store s' = store s
  /\ (forall p c, comms s !! p = Some c -> comms s' !! p = Some c).

(** How [getNCCLComm] obtains the unique id on a miss of the cache. *)
Definition obtain_unique_id (s : State) : M ncclUniqueId :=
  ncclID0 <- (if rank_ s =? 0 then ncclGetUniqueId
              else ret (vreplicate NCCL_UNIQUE_ID_BYTES Byte.x00)) ;;;
  broadcastUniqueNCCLID ncclID0.

Definition note_devices (devices : list Z) (s : State) : State :=
  set_usedDeviceIdxs_ (list_to_set devices ∪ usedDeviceIdxs_ s) s.

(** A unique id all of whose bytes are 0x0a. *)
Definition example_id : ncclUniqueId :=
  vreplicate NCCL_UNIQUE_ID_BYTES Byte.x0a.

(** Two unique ids that differ in their first two bytes: 01 23 and 12 03. *)
Definition id_01_23 : ncclUniqueId :=
  Byte.x01 ::: Byte.x23 ::: vreplicate 126 Byte.x00.

Definition id_12_03 : ncclUniqueId :=
  Byte.x12 ::: Byte.x03 ::: vreplicate 126 Byte.x00.

(** [h'] is [h] after some of its communicators were aborted. *)
Definition heap_le (h h' : gmap CommPtr NCCLComm) : Prop :=
  forall p,
    match h !! p, h' !! p with
    | Some c, Some c' => c' = c \/ c' = abort_comm c
    | None, None => True
    | _, _ => False
    end.

Definition aborted_in (h : gmap CommPtr NCCLComm) (p : CommPtr) : Prop :=
  exists c, h !! p = Some c /\ comm_aborted c = true.

(** Every pointer of the list has a target. *)
Definition all_valid (h : gmap CommPtr NCCLComm) (ps : list CommPtr) : Prop :=
  Forall (fun p => is_Some (h !! p)) ps.

(** What the watchdog and the timeout branch leave alone: the caches and
    the policy; communicators are at most aborted. *)
Definition aborts_only (s s' : State) : Prop :=
  devNCCLCommMap_ s' = devNCCLCommMap_ s
  /\ ncclIdToCommMap_ s' = ncclIdToCommMap_ s
  /\ blockingWait_ s' = blockingWait_ s
  /\ heap_le (comms s) (comms s').

Definition reports_error (h : gmap CommPtr NCCLComm) (ps : list CommPtr)
  : Prop :=
  exists e, checkForNCCLErrorsInternal h (Some <$> ps) = Ok (Some e).

(** A group of one communicator that reports an error, in a process group
    with blocking wait on. *)
Definition erroring_state : State :=
  {| rank_ := 0; size_ := 2; ncclCommCounter_ := 1;
     devNCCLCommMap_ := {["0"%string := [0%nat]]};
     ncclIdToCommMap_ := {[buildNcclUniqueIdStr example_id := [0%nat]]};
     abortedComms_ := ∅; usedDeviceIdxs_ := {[0]};
     ncclStreams_ := {["0"%string := [PoolStream 0 0]]};
     ncclEvents_ := {["0"%string := 1%nat]};
     blockingWait_ := true; opTimeout_ := 500;
     comms := {[0%nat := {| comm_nranks := 2; comm_rank := 0;
                            comm_id := example_id; comm_device := 0;
                            comm_asyncErr := 1; comm_aborted := false |}]};
     store := ∅; uniqueIds := []; numGPUs := 1;
     next_stream := 1; next_storage := 0; steady_clock := 0;
     effects := [] |}.

(** Rank 0 of two issues [alltoall] on device 0 with blocking wait on and
    a timeout of 500 ms; at 600 ms the work is not finished. *)
Definition blocking_state : State := idle_state 0 2 true [example_id].

Definition late_tick : Tick :=
  {| tick_errors := []; tick_queries := [cudaErrorNotReady]; tick_now := 600 |}.

(** ** Further vocabulary *)

(** Every character of the text passes the test. *)
Fixpoint string_all (P : ascii -> bool) (s : string) : bool :=
  match s with
  | EmptyString => true
  | String c s' => P c && string_all P s'
  end.

(** The reading of a decimal numeral with an optional minus sign. *)
Definition read_decimal (s : string) : Z :=
  match s with
  | String c s' => if Ascii.eqb c "-" then - parse_digits s' 0 else parse_digits s 0
  | EmptyString => 0
  end.

Definition not_comma (c : ascii) : bool := negb (Ascii.eqb c ",").

(** What follows the first index in a key: each further index after a comma. *)
Definition key_tail (devices : list Z) : string :=
  concat_strings ((fun d => "," +:+ std_to_string d) <$> devices).

(** The computation leaves one component of the state as it found it,
    whatever its outcome. *)
Definition keeps {X A} (f : State -> X) (m : M A) : Prop :=
  forall s, f (m s).2 = f s.

(** Rank 1 of two, looking at a store with the given contents. *)
Definition peer_state (rank : Z) (contents : gmap string (list Byte.byte))
  : State :=
  set_store contents (idle_state rank 2 false []).

(** The calls of the first loop of [synchronize], from device [i] on: the
    current stream of each device waits for the event of the work, and the
    device is synchronized when the work backs a barrier. *)
Fixpoint synchronize_calls_from (barrier : bool) (i : nat) (devices : list Z)
  : list Effect :=
  match devices with
  | [] => []
  | d :: rest =>
      cudaStreamWaitEvent (CurrentStream d) (WorkEvent i)
      :: (if barrier then [cudaSetDevice d; cudaDeviceSynchronize d] else [])
      ++ synchronize_calls_from barrier (S i) rest
  end.

Definition synchronize_calls (w : WorkNCCL) : list Effect :=
  synchronize_calls_from (negb (bool_decide (barrierTensors_ w = []))) 0
    (devices_ w).

(** A work of one device whose event is pending. *)
Definition sample_work (blockingWait : bool) (exn : option Exn) : WorkNCCL :=
  {| devices_ := [0]; cudaEvents_ := [Some (PoolStream 0 0)];
     ncclComms_ := [Some 0%nat]; w_blockingWait_ := blockingWait;
     w_opTimeout_ := 500; workStartTime_ := 0; w_store_ := the_store;
     exception_ := exn; barrierTensors_ := [] |}.

(** The process group the work belongs to: one communicator, [err] being
    what its error query answers. *)
Definition sample_group (err : ncclResult_t) : State :=
  {| rank_ := 0; size_ := 2; ncclCommCounter_ := 1;
     devNCCLCommMap_ := {["0"%string := [0%nat]]};
     ncclIdToCommMap_ := {[buildNcclUniqueIdStr example_id := [0%nat]]};
     abortedComms_ := ∅; usedDeviceIdxs_ := {[0]};
     ncclStreams_ := {["0"%string := [PoolStream 0 0]]};
     ncclEvents_ := {["0"%string := 1%nat]};
     blockingWait_ := true; opTimeout_ := 500;
     comms := {[0%nat := {| comm_nranks := 2; comm_rank := 0;
                            comm_id := example_id; comm_device := 0;
                            comm_asyncErr := err; comm_aborted := false |}]};
     store := ∅; uniqueIds := []; numGPUs := 1;
     next_stream := 1; next_storage := 0; steady_clock := 0;
     effects := [] |}.

Definition tick_at (now : Z) (query : cudaError_t) : Tick :=
  {| tick_errors := []; tick_queries := [query]; tick_now := now |}.

(** No group of the cache reports an error. *)
Definition cache_quiet (s : State) : Prop :=
  forall key group,
    devNCCLCommMap_ s !! key = Some group ->
    checkForNCCLErrorsInternal (comms s) (Some <$> group) = Ok None.

(** The body of the last loop of the watchdog, for one communicator id. *)
Definition watchdog_follow_step (commId : string) : M unit :=
  s' <- get_state ;;;
  if bool_decide (commId ∈ abortedComms_ s') then ret tt
  else watchdog_follow_abort commId.

(** Rank 1 of the group of [sample_group], with the given store. *)
Definition sample_peer (contents : gmap string (list Byte.byte)) : State :=
  {| rank_ := 1; size_ := 2; ncclCommCounter_ := 1;
     devNCCLCommMap_ := {["0"%string := [0%nat]]};
     ncclIdToCommMap_ := {[buildNcclUniqueIdStr example_id := [0%nat]]};
     abortedComms_ := ∅; usedDeviceIdxs_ := {[0]};
     ncclStreams_ := {["0"%string := [PoolStream 0 0]]};
     ncclEvents_ := {["0"%string := 1%nat]};
     blockingWait_ := true; opTimeout_ := 500;
     comms := {[0%nat := {| comm_nranks := 2; comm_rank := 1;
                            comm_id := example_id; comm_device := 0;
                            comm_asyncErr := 0; comm_aborted := false |}]};
     store := contents; uniqueIds := []; numGPUs := 1;
     next_stream := 1; next_storage := 0; steady_clock := 0;
     effects := [] |}.

(** A store that holds the abort marker of [example_id] and nothing else. *)
Definition marker_store : gmap string (list Byte.byte) :=
  {[getNcclAbortedCommStoreKey (buildNcclUniqueIdStr example_id) := []]}.

(** The communicator cache, the streams kept with it, and the wait policy. *)
Definition policy (s : State)
  : gmap string (list CommPtr) * gmap string (list CUDAStream) * bool * Z :=
  (devNCCLCommMap_ s, ncclStreams_ s, blockingWait_ s, opTimeout_ s).

(** What one device of a collective works with: its tensor, its
    communicator and its stream. *)
Definition Lane : Type := Tensor * CommPtr * CUDAStream.

Definition lanes (tensors : list Tensor) (ncclComms : list CommPtr)
    (ncclStreams : list CUDAStream) : list Lane :=
  zip (zip tensors ncclComms) ncclStreams.

(** [l] lists the lanes from index [k] on. *)
Definition lanes_from (tensors : list Tensor) (ncclComms : list CommPtr)
    (ncclStreams : list CUDAStream) (k : nat) (l : list Lane) : Prop :=
  forall j t p st,
    l !! j = Some (t, p, st) ->
    tensors !! (k + j)%nat = Some t /\ ncclComms !! (k + j)%nat = Some p
    /\ ncclStreams !! (k + j)%nat = Some st.

(** The calls of [syncStreams]: the stream of each lane waits for what the
    current stream of its device has been given so far. *)
Fixpoint syncStreams_calls (key : string) (i : nat) (l : list Lane)
  : list Effect :=
  match l with
  | [] => []
  | (t, _, ncclStream) :: rest =>
      cudaEventRecord (SyncEvent key i) (CurrentStream (get_device t))
      :: cudaStreamWaitEvent ncclStream (SyncEvent key i)
      :: syncStreams_calls key (S i) rest
  end.

(** The allocator is told that the storage of each input is in use on the
    stream of its lane. *)
Definition recordStream_calls (l : list Lane) : list Effect :=
  flat_map (fun lane : Lane =>
              [cudaSetDevice (get_device lane.1.1);
               recordStream (storage lane.1.1) lane.2]) l.

(** One in-place all-reduce for each lane. *)
Definition allreduce_calls (datatype : ncclDataType_t) (op : ncclRedOp_t)
    (l : list Lane) : list Effect :=
  flat_map (fun lane : Lane =>
              [cudaSetDevice (get_device lane.1.1);
               ncclAllReduce (data_ptr lane.1.1) (data_ptr lane.1.1)
                 (numel lane.1.1) datatype op lane.1.2 lane.2]) l.

(** The completion event of each lane is recorded on its stream. *)
Fixpoint workEvent_calls (i : nat) (l : list Lane) : list Effect :=
  match l with
  | [] => []
  | lane :: rest =>
      cudaEventRecord (WorkEvent i) lane.2 :: workEvent_calls (S i) rest
  end.

(** All the calls of an all-reduce whose communicators are cached. *)
Definition allreduce_trace (key : string) (datatype : ncclDataType_t)
    (op : ncclRedOp_t) (l : list Lane) : list Effect :=
  syncStreams_calls key 0 l ++ recordStream_calls l
  ++ [freeMutex_lock; ncclGroupStart]
  ++ allreduce_calls datatype op l
  ++ [ncclGroupEnd; freeMutex_unlock]
  ++ workEvent_calls 0 l.

(** A dense, contiguous tensor of booleans on a device. *)
Definition dense_bool (device : Z) (stor : nat) : Tensor :=
  {| is_cuda := true; is_sparse := false; scalar_type := kBool;
     sizes := [4]; is_contiguous := true; get_device := device;
     storage := stor; storage_offset := 0 |}.

(** The placeholder tensors of a barrier: one byte on each device, in
    consecutive allocations. *)
Fixpoint placeholder_tensors (stor : nat) (devices : list Z) : list Tensor :=
  match devices with
  | [] => []
  | d :: rest => empty_byte_tensor d stor :: placeholder_tensors (S stor) rest
  end.

(** What is exchanged with one peer: where to send from and how much,
    where to receive and how much. *)
Definition Exchange : Type := (DevPtr * Z) * (DevPtr * Z).

Definition exchanges (send_ptrs : list DevPtr) (send_lengths : list Z)
    (recv_ptrs : list DevPtr) (recv_lengths : list Z) : list Exchange :=
  zip (zip send_ptrs send_lengths) (zip recv_ptrs recv_lengths).

(** [l] lists the exchanges from peer [k] on. *)
Definition exchanges_from (send_ptrs : list DevPtr) (send_lengths : list Z)
    (recv_ptrs : list DevPtr) (recv_lengths : list Z) (k : nat)
    (l : list Exchange) : Prop :=
  forall j sp sl rp rl,
    l !! j = Some ((sp, sl), (rp, rl)) ->
    send_ptrs !! (k + j)%nat = Some sp /\ send_lengths !! (k + j)%nat = Some sl
    /\ recv_ptrs !! (k + j)%nat = Some rp
    /\ recv_lengths !! (k + j)%nat = Some rl.

(** The calls inside the NCCL group of [batchedp2p] on one device: for
    each peer in turn, the device is selected, then a send and a receive
    are issued on the one communicator and the one stream. *)
Fixpoint p2p_calls (device : Z) (datatype : ncclDataType_t) (comm : CommPtr)
    (ncclStream : CUDAStream) (i : nat) (l : list Exchange) : list Effect :=
  match l with
  | [] => []
  | ((sp, sl), (rp, rl)) :: rest =>
      cudaSetDevice device
      :: ncclSend sp sl datatype (Z.of_nat i) comm ncclStream
      :: ncclRecv rp rl datatype (Z.of_nat i) comm ncclStream
      :: p2p_calls device datatype comm ncclStream (S i) rest
  end.

(** The address [k] elements after the first element of a tensor. *)
Definition element_ptr (t : Tensor) (k : Z) : DevPtr :=
  {| ptr_storage := storage t;
     ptr_offset := (storage_offset t + k) * elementSize (scalar_type t) |}.

(** The address [b] bytes after the first element of a tensor. *)
Definition byte_ptr (t : Tensor) (b : Z) : DevPtr :=
  {| ptr_storage := storage t;
     ptr_offset := storage_offset t * elementSize (scalar_type t) + b |}.

(** What comes before each element of a list, added up. *)
Fixpoint sums_before (acc : Z) (l : list Z) : list Z :=
  match l with
  | [] => []
  | x :: rest => acc :: sums_before (acc + x) rest
  end.

(** A dense, contiguous matrix of doubles, [rows] rows of three elements,
    that starts [offset] elements into its storage. *)
Definition double_matrix (device : Z) (stor : nat) (rows offset : Z)
  : Tensor :=
  {| is_cuda := true; is_sparse := false; scalar_type := kDouble;
     sizes := [rows; 3]; is_contiguous := true; get_device := device;
     storage := stor; storage_offset := offset |}.

(** A dense, contiguous float matrix of [rows] rows of three elements. *)
Definition float_matrix (device : Z) (stor : nat) (rows : Z) : Tensor :=
  {| is_cuda := true; is_sparse := false; scalar_type := kFloat;
     sizes := [rows; 3]; is_contiguous := true; get_device := device;
     storage := stor; storage_offset := 0 |}.

Definition sum_of (l : list Z) : Z := fold_right Z.add 0 l.

(* ================================================================== *)
(** * Part II: properties *)
(* ================================================================== *)

(** ** Strings *)

Lemma string_app_assoc (a b c : string) : (a +:+ b) +:+ c = a +:+ b +:+ c.
Proof.
  induction a as [|x a IH]; [reflexivity|].
  change (String x ((a +:+ b) +:+ c) = String x (a +:+ b +:+ c)).
  now rewrite IH.
Qed.

Lemma string_app_nil_r (a : string) : a +:+ "" = a.
Proof.
  induction a as [|x a IH]; [reflexivity|].
  change (String x (a +:+ "") = String x a). now rewrite IH.
Qed.

Lemma append_cons (c : ascii) (a b : string) :
  String c a +:+ b = String c (a +:+ b).
Proof. reflexivity. Qed.

Lemma string_length_app (a b : string) :
  String.length (a +:+ b) = (String.length a + String.length b)%nat.
Proof.
  induction a as [|c a IH]; [reflexivity|].
  rewrite append_cons. cbn [String.length]. now rewrite IH.
Qed.

(** ** Abort-marker keys *)

(** What the stream prints for a byte is the hexadecimal numeral of the
    byte: one digit below 16, two digits from 16 on. *)
Lemma ostream_hex_byte (b : Byte.byte) :
  ostream_hex_int (Z.of_N (Byte.to_N b)) = byte_hex_lower b.
Proof. destruct b; vm_compute; reflexivity. Qed.

Lemma buildNcclUniqueIdStr_loop_spec (bytes : list Byte.byte) (oss : string) :
  buildNcclUniqueIdStr_loop bytes oss
  = oss +:+ concat_strings (byte_hex_lower <$> bytes).
Proof.
  revert oss; induction bytes as [|b bytes IH]; intros oss.
  - cbn. now rewrite string_app_nil_r.
  - cbn [buildNcclUniqueIdStr_loop]. rewrite fmap_cons.
    cbn [concat_strings].
    rewrite IH, ostream_hex_byte, string_app_assoc. reflexivity.
Qed.

Lemma abort_marker_key_eq (ncclID : ncclUniqueId) :
  getNcclAbortedCommStoreKey (buildNcclUniqueIdStr ncclID)
  = abort_marker_key_unpadded ncclID.
Proof.
  unfold getNcclAbortedCommStoreKey, buildNcclUniqueIdStr,
    abort_marker_key_unpadded.
  rewrite buildNcclUniqueIdStr_loop_spec. reflexivity.
Qed.

(** The numerals are not padded, so the text of an id does not determine
    the id: both ids below give "1230...0". *)
Lemma buildNcclUniqueIdStr_not_injective :
  id_01_23 <> id_12_03
  /\ buildNcclUniqueIdStr id_01_23 = buildNcclUniqueIdStr id_12_03.
Proof. split; [discriminate | vm_compute; reflexivity]. Qed.

(** The numeral of a byte has one or two characters, each a decimal digit
    or a letter from a to f. *)
Lemma byte_hex_lower_shape (b : Byte.byte) :
  forallb is_lower_hex (list_ascii_of_string (byte_hex_lower b)) = true
  /\ (String.length (byte_hex_lower b) = 1 \/ String.length (byte_hex_lower b) = 2)%nat.
Proof. destruct b; vm_compute; auto. Qed.

(** The two digits of a byte are its numeral exactly from 16 on; below,
    the numeral has the second digit only. *)
Lemma byte_hex2_cases (b : Byte.byte) :
  String.length (byte_hex2 b) = 2%nat
  /\ ((16 <= Byte.to_N b)%N /\ byte_hex_lower b = byte_hex2 b
      \/ (Byte.to_N b < 16)%N /\ String.length (byte_hex_lower b) = 1%nat).
Proof.
  destruct b; (split; [reflexivity|]);
    first [ left; split; [vm_compute; discriminate | reflexivity]
          | right; split; reflexivity ].
Qed.

Lemma concat_hex2_length (bytes : list Byte.byte) :
  String.length (concat_strings (byte_hex2 <$> bytes))
  = (2 * length bytes)%nat.
Proof.
  induction bytes as [|b bytes IH]; [reflexivity|].
  rewrite fmap_cons. cbn [concat_strings length].
  rewrite string_length_app, IH.
  destruct (byte_hex2_cases b) as [-> _]. lia.
Qed.

Lemma concat_hex_lower_length (bytes : list Byte.byte) :
  (String.length (concat_strings (byte_hex_lower <$> bytes))
   <= 2 * length bytes)%nat.
Proof.
  induction bytes as [|b bytes IH]; [cbn; lia|].
  rewrite fmap_cons. cbn [concat_strings length].
  rewrite string_length_app.
  destruct (byte_hex_lower_shape b) as [_ [-> | ->]]; lia.
Qed.

Lemma concat_hex_full_length (bytes : list Byte.byte) :
  String.length (concat_strings (byte_hex_lower <$> bytes))
  = (2 * length bytes)%nat ->
  Forall (fun b => (16 <= Byte.to_N b)%N) bytes.
Proof.
  induction bytes as [|b bytes IH]; intros Hlen; [constructor|].
  rewrite fmap_cons in Hlen. cbn [concat_strings length] in Hlen.
  rewrite string_length_app in Hlen.
  pose proof (concat_hex_lower_length bytes) as Hle.
  destruct (byte_hex2_cases b) as [_ [[Hb _] | [_ Hone]]].
  - constructor; [exact Hb|]. apply IH.
    destruct (byte_hex_lower_shape b) as [_ [H1 | H2]]; lia.
  - lia.
Qed.

(** The numerals of the bytes make up the two-digit text of the bytes
    exactly when no byte is below 16. *)
Lemma concat_hex_padded_iff (bytes : list Byte.byte) :
  concat_strings (byte_hex_lower <$> bytes)
  = concat_strings (byte_hex2 <$> bytes)
  <-> Forall (fun b => (16 <= Byte.to_N b)%N) bytes.
Proof.
  split.
  - intros Heq. apply concat_hex_full_length.
    rewrite Heq. apply concat_hex2_length.
  - induction 1 as [|b bytes Hb _ IH]; [reflexivity|].
    rewrite !fmap_cons. cbn [concat_strings]. rewrite IH.
    destruct (byte_hex2_cases b) as [_ [[_ ->] | [Hlt _]]];
      [reflexivity | lia].
Qed.

(** ** The monad *)

Lemma read_only_ret {A} (a : A) : read_only (ret a).
Proof. intros s; reflexivity. Qed.

Lemma read_only_lift {A} (o : Outcome A) : read_only (lift o).
Proof. intros s; reflexivity. Qed.

Lemma read_only_throw {A} (e : Exn) : read_only (@throw A e).
Proof. intros s; reflexivity. Qed.

Lemma read_only_undefined {A} (w : string) : read_only (@undefined A w).
Proof. intros s; reflexivity. Qed.

Lemma read_only_blocked {A} : read_only (@blocked A).
Proof. intros s; reflexivity. Qed.

Lemma read_only_get_state : read_only get_state.
Proof. intros s; reflexivity. Qed.

Lemma read_only_bind {A B} (m : M A) (k : A -> M B) :
  read_only m -> (forall a, read_only (k a)) -> read_only (bind m k).
Proof.
  intros Hm Hk s. unfold bind. specialize (Hm s).
  destruct (m s) as [[a| | |] s']; simpl in *; subst; auto. apply Hk.
Qed.

Lemma read_only_at_index {A} (l : list A) (i : nat) : read_only (at_index l i).
Proof. unfold at_index. destruct (l !! i); intros s; reflexivity. Qed.

Lemma read_only_fold_each {A W} (l : list A) (body : A -> W -> M W) (w : W) :
  (forall a w, read_only (body a w)) -> read_only (fold_each l body w).
Proof.
  intros Hb. revert w. induction l as [|a l IH]; intros w; simpl.
  - apply read_only_ret.
  - apply read_only_bind; auto.
Qed.

Lemma read_only_for_each {A} (l : list A) (body : A -> M unit) :
  (forall a, read_only (body a)) -> read_only (for_each l body).
Proof.
  intros Hb. induction l as [|a l IH]; simpl.
  - apply read_only_ret.
  - apply read_only_bind; auto.
Qed.

Lemma read_only_check_gpu_tensors_m ts a : read_only (check_gpu_tensors_m ts a).
Proof.
  apply read_only_bind; [apply read_only_get_state|].
  intros; apply read_only_lift.
Qed.

Create HintDb pg.
#[local] Hint Resolve read_only_ret read_only_lift read_only_throw
  read_only_undefined read_only_blocked read_only_get_state
  read_only_at_index read_only_check_gpu_tensors_m : pg.

(** A failing first statement fails the sequence, in the state it left. *)
Lemma bind_throw {A B} (m : M A) (k : A -> M B) s e s' :
  m s = (Throw e, s') -> bind m k s = (Throw e, s').
Proof. intros H. unfold bind. now rewrite H. Qed.

Lemma bind_blocked {A B} (m : M A) (k : A -> M B) s s' :
  m s = (Blocked, s') -> bind m k s = (Blocked, s').
Proof. intros H. unfold bind. now rewrite H. Qed.

Lemma bind_ok {A B} (m : M A) (k : A -> M B) s a s' :
  m s = (Ok a, s') -> bind m k s = k a s'.
Proof. intros H. unfold bind. now rewrite H. Qed.

Lemma check_gpu_tensors_m_run ts a s :
  check_gpu_tensors_m ts a s = (check_gpu_tensors_multi (numGPUs s) ts a, s).
Proof. reflexivity. Qed.

(** ** Construction: NCCL_BLOCKING_WAIT *)

Lemma stoi_one : stoi "1" = StoiOk 1.
Proof. reflexivity. Qed.

Lemma stoi_zero : stoi "0" = StoiOk 0.
Proof. reflexivity. Qed.

(** C7 read on the text fails: "01" is neither "1" nor "0" and is
    accepted, with blocking wait switched on; the text is read as a number,
    and only the number is compared. *)
Lemma blocking_wait_leading_zero_accepted :
  let proc := {| getenv := fun name =>
                   if bool_decide (name = NCCL_BLOCKING_WAIT) then Some "01"%string
                   else None;
                 proc_store := ∅; proc_uniqueIds := []; proc_numGPUs := 1;
                 proc_clock := 0 |} in
  getenv proc NCCL_BLOCKING_WAIT = Some "01"%string
  /\ "01"%string <> "1"%string /\ "01"%string <> "0"%string
  /\ omap_outcome blockingWait_ (ProcessGroupNCCL_new proc 0 2 1000) = Ok true.
Proof. vm_compute. repeat split; congruence. Qed.

(** C7, as the code has it.  The variable is read with [std::stoi]: unset leaves
    blocking wait off; a text that converts to 1 (such as "1") switches it
    on; a text that converts to 0 (such as "0") leaves it off; a text that
    does not convert to an [int], or converts to another number, makes the
    constructor throw the configuration error. *)
Theorem blocking_wait_from_environment (proc : Process) (rank size t : Z) :
  stoi "1" = StoiOk 1 /\ stoi "0" = StoiOk 0 /\
  match getenv proc NCCL_BLOCKING_WAIT with
  | None =>
      omap_outcome blockingWait_ (ProcessGroupNCCL_new proc rank size t)
      = Ok false
  | Some text =>
      match stoi text with
      | StoiOk 1 =>
          omap_outcome blockingWait_ (ProcessGroupNCCL_new proc rank size t)
          = Ok true
      | StoiOk 0 =>
          omap_outcome blockingWait_ (ProcessGroupNCCL_new proc rank size t)
          = Ok false
      | _ =>
          ProcessGroupNCCL_new proc rank size t = Throw invalid_blocking_wait
      end
  end.
Proof.
  split; [reflexivity|]. split; [reflexivity|].
  unfold ProcessGroupNCCL_new, parse_blocking_wait.
  destruct (getenv proc NCCL_BLOCKING_WAIT) as [text|]; [|reflexivity].
  destruct (stoi text) as [v| |]; try reflexivity.
  destruct v as [|p|p]; try reflexivity.
  destruct p; reflexivity.
Qed.

(** ** Arithmetic on signed integers *)

Lemma int_mul_ok (a b : Z) :
  INT_MIN <= a * b <= INT_MAX -> int_mul a b = Ok (a * b).
Proof.
  intros H. unfold int_mul.
  destruct (Z.leb_spec INT_MIN (a * b)); [|lia].
  destruct (Z.leb_spec (a * b) INT_MAX); [reflexivity|lia].
Qed.

Lemma int64_mul_ok (a b : Z) :
  - 2 ^ 63 <= a * b < 2 ^ 63 -> int64_mul a b = Ok (a * b).
Proof.
  intros H. unfold int64_mul.
  destruct (Z.leb_spec (- 2 ^ 63) (a * b)); [|lia].
  destruct (Z.ltb_spec (a * b) (2 ^ 63)); [reflexivity|lia].
Qed.

Lemma int64_add_ok (a b : Z) :
  - 2 ^ 63 <= a + b < 2 ^ 63 -> int64_add a b = Ok (a + b).
Proof.
  intros H. unfold int64_add.
  destruct (Z.leb_spec (- 2 ^ 63) (a + b)); [|lia].
  destruct (Z.ltb_spec (a + b) (2 ^ 63)); [reflexivity|lia].
Qed.

Lemma int64_div_ok (a b : Z) :
  0 <= a < 2 ^ 63 -> 0 < b -> int64_div a b = Ok (a / b).
Proof.
  intros Ha Hb. unfold int64_div.
  destruct (Z.eqb_spec b 0); [lia|].
  destruct (Z.eqb_spec a (- 2 ^ 63)); [lia|]. cbn [andb].
  rewrite Z.quot_div_nonneg by lia. reflexivity.
Qed.

Lemma int64_rem_pos (a b : Z) : 0 < b -> int64_rem a b = Ok (Z.rem a b).
Proof.
  intros Hb. unfold int64_rem.
  destruct (Z.eqb_spec b 0); [lia|].
  destruct (Z.eqb_spec b (-1)); [lia|].
  rewrite andb_false_r. reflexivity.
Qed.

Lemma int64_rem_ok (a b : Z) :
  0 <= a < 2 ^ 63 -> 0 < b -> int64_rem a b = Ok (a mod b).
Proof.
  intros Ha Hb. rewrite int64_rem_pos by exact Hb.
  rewrite Z.rem_mod_nonneg by lia. reflexivity.
Qed.

(** ** Split sizes *)

(** C6.  A split list whose sum is not the size of dimension 0 is
    accepted, because the sum is accumulated in an [int]: 4294967301 is
    2^32 + 5. *)
Theorem checkSplitSizes_accepts_wrong_sum :
  let t := {| is_cuda := true; is_sparse := false; scalar_type := kFloat;
              sizes := [5]; is_contiguous := true; get_device := 0;
              storage := 0%nat; storage_offset := 0 |} in
  checkSplitSizes [4294967301] t 1 = Ok tt
  /\ length [4294967301] = 1%nat
  /\ fold_right Z.add 0 [4294967301] <> 5
  /\ tensor_size0 t = Ok 5.
Proof. vm_compute. repeat split; congruence. Qed.

(** The converse failure: a split list with the right sum is rejected once
    the sum does not fit an [int]. *)
Lemma checkSplitSizes_rejects_right_sum :
  let t := {| is_cuda := true; is_sparse := false; scalar_type := kByte;
              sizes := [2147483648]; is_contiguous := true; get_device := 0;
              storage := 0%nat; storage_offset := 0 |} in
  checkSplitSizes [2147483648] t 1
  = Throw (runtime_error "Split sizes doesn't match total dim 0 size")
  /\ fold_right Z.add 0 [2147483648] = 2147483648.
Proof. vm_compute. split; reflexivity. Qed.

Lemma wrap_int32_small (z : Z) : INT_MIN <= z <= INT_MAX -> wrap_int32 z = z.
Proof.
  unfold wrap_int32, INT_MIN, INT_MAX. intros H.
  rewrite Z.mod_small; lia.
Qed.

Lemma wrap_uint64_small (z : Z) : 0 <= z < 2 ^ 64 -> wrap_uint64 z = z.
Proof. unfold wrap_uint64. intros H. now apply Z.mod_small. Qed.

Lemma accumulate_int_small (l : list Z) (acc : Z) :
  Forall (fun x => 0 <= x) l -> 0 <= acc ->
  acc + fold_right Z.add 0 l <= INT_MAX ->
  fold_left (fun a x => wrap_int32 (a + x)) l acc = acc + fold_right Z.add 0 l.
Proof.
  revert acc. induction l as [|x l IH]; intros acc Hl Hacc Hsum; simpl in *.
  - lia.
  - inversion Hl as [|? ? Hx Hl']; subst.
    assert (0 <= fold_right Z.add 0 l).
    { clear -Hl'. induction Hl'; simpl; lia. }
    rewrite wrap_int32_small by (unfold INT_MIN, INT_MAX in *; lia).
    rewrite IH; auto; lia.
Qed.

(** Where the sum of the splits fits an [int], the check is the one the
    messages announce. *)
Lemma checkSplitSizes_small (splits : list Z) (t : Tensor) (group_size dim0 : Z) :
  splits <> [] -> 0 <= group_size < 2 ^ 31 ->
  sizes t = dim0 :: tail (sizes t) ->
  Forall (fun x => 0 <= x) splits ->
  fold_right Z.add 0 splits <= INT_MAX ->
  (checkSplitSizes splits t group_size = Ok tt
   <-> Z.of_nat (length splits) = group_size
       /\ fold_right Z.add 0 splits = dim0).
Proof.
  intros Hne Hg Hsz Hpos Hsum. unfold checkSplitSizes, tensor_size0, accumulate_int.
  rewrite Hsz. rewrite bool_decide_eq_false_2 by (destruct splits; simpl; congruence).
  rewrite wrap_uint64_small by lia.
  rewrite accumulate_int_small by (auto; lia). rewrite Z.add_0_l. simpl.
  destruct (Z.eqb_spec (Z.of_nat (length splits)) group_size) as [E1|E1]; simpl.
  - destruct (Z.eqb_spec (fold_right Z.add 0 splits) dim0) as [E2|E2]; simpl.
    + split; [intros _; split; assumption | reflexivity].
    + split; [discriminate | intros [_ E]; contradiction].
  - split; [discriminate | intros [E _]; contradiction].
Qed.

(** ** alltoall: the size test comes first *)

(** C10.  When the number of input tensors or of output tensors differs
    from the size of the group, [alltoall] throws and the state (caches,
    store, communicators, log of device and vendor calls) is the one it was
    called in. *)
Theorem alltoall_size_mismatch (s : State) (outputTensors inputTensors : list Tensor) :
  0 <= size_ s < 2 ^ 64 ->
  Z.of_nat (length inputTensors) <> size_ s
  \/ Z.of_nat (length outputTensors) <> size_ s ->
  alltoall outputTensors inputTensors s
  = (Throw (runtime_error
       "Number of input or output tensors are not equal to group size"), s).
Proof.
  intros Hsize Hne. unfold alltoall, bind, get_state.
  rewrite wrap_uint64_small by lia.
  destruct (Z.eqb_spec (Z.of_nat (length inputTensors)) (size_ s));
    destruct (Z.eqb_spec (Z.of_nat (length outputTensors)) (size_ s));
    simpl; try reflexivity.
  exfalso; tauto.
Qed.

(** ** Validation of tensor lists *)

Lemma Forall_not_used (d : Z) (used : gset Z) (ts : list Tensor) :
  Forall (fun t => get_device t ∉ ({[d]} ∪ used)) ts
  <-> (d ∉ (get_device <$> ts)) /\ Forall (fun t => get_device t ∉ used) ts.
Proof.
  rewrite !Forall_forall, list_elem_of_fmap. split.
  - intros H. split.
    + intros [u [-> Hu]]. apply (H u Hu).
      apply elem_of_union_l. now apply elem_of_singleton.
    + intros u Hu Hin. apply (H u Hu). now apply elem_of_union_r.
  - intros [H1 H2] u Hu Hin.
    apply elem_of_union in Hin as [Hin|Hin].
    + apply elem_of_singleton in Hin. apply H1. eauto.
    + exact (H2 u Hu Hin).
Qed.

Lemma check_gpu_tensors_loop_spec (alltoallv : bool) (first : Tensor)
    (usedDevices : gset Z) (tensors : list Tensor) :
  check_gpu_tensors_loop alltoallv first usedDevices tensors = Ok tt
  <-> Forall (valid_tensor alltoallv first) tensors
      /\ (alltoallv = false ->
          NoDup (get_device <$> tensors)
          /\ Forall (fun t => get_device t ∉ usedDevices) tensors).
Proof.
  revert usedDevices.
  induction tensors as [|t ts IH]; intros used.
  - simpl. split; [intros _|reflexivity].
    split; [constructor|]. intros _. split; constructor.
  - cbn [check_gpu_tensors_loop]. rewrite fmap_cons, !Forall_cons, NoDup_cons.
    unfold valid_tensor at 1.
    destruct (is_cuda t) eqn:Hc, (is_sparse t) eqn:Hs,
      (is_contiguous t) eqn:Hk, alltoallv;
      cbn [negb orb andb]; repeat case_bool_decide; cbn [negb orb andb];
      try rewrite IH;
      try solve [split; [discriminate
                        | intros; intuition (try discriminate; try congruence)]].
    + intuition discriminate.
    + rewrite Forall_not_used. intuition.
Qed.

Lemma check_gpu_tensors_loop_outcome (alltoallv : bool) (first : Tensor)
    (usedDevices : gset Z) (tensors : list Tensor) :
  check_gpu_tensors_loop alltoallv first usedDevices tensors = Ok tt
  \/ exists what,
       check_gpu_tensors_loop alltoallv first usedDevices tensors
       = Throw (runtime_error what).
Proof.
  revert usedDevices. induction tensors as [|t ts IH]; intros used.
  - left; reflexivity.
  - cbn [check_gpu_tensors_loop].
    repeat match goal with
           | |- context [if ?b then _ else _] =>
               destruct b eqn:?; [try (right; eexists; reflexivity)|]
           end; try (right; eexists; reflexivity); apply IH.
Qed.

(** Validation comes first in the entry points: when it throws, the entry
    point throws the same exception in an unchanged state. *)
Lemma allreduce_invalid (tensors : list Tensor) (op : ReduceOp) (s : State) e :
  check_gpu_tensors_multi (numGPUs s) tensors false = Throw e ->
  allreduce tensors op s = (Throw e, s).
Proof.
  intros H. unfold allreduce. apply bind_throw.
  rewrite check_gpu_tensors_m_run, H. reflexivity.
Qed.

Lemma allgather_invalid (outputTensors : list (list Tensor))
    (inputTensors : list Tensor) (noCopy : bool) (s : State) e :
  check_gpu_tensors_multi (numGPUs s) inputTensors false = Throw e ->
  allgather outputTensors inputTensors noCopy s = (Throw e, s).
Proof.
  intros H. unfold allgather. apply bind_throw.
  rewrite check_gpu_tensors_m_run, H. reflexivity.
Qed.

Lemma alltoall_invalid (outputTensors inputTensors : list Tensor) (s : State) e :
  Z.of_nat (length inputTensors) = wrap_uint64 (size_ s) ->
  Z.of_nat (length outputTensors) = wrap_uint64 (size_ s) ->
  check_gpu_tensors_multi (numGPUs s) inputTensors true = Throw e ->
  alltoall outputTensors inputTensors s = (Throw e, s).
Proof.
  intros H1 H2 H. unfold alltoall.
  erewrite bind_ok by reflexivity.
  rewrite H1, H2, Z.eqb_refl. cbn [negb orb].
  apply bind_throw. rewrite check_gpu_tensors_m_run, H. reflexivity.
Qed.

(** C4.  The validator returns exactly when the list is not empty, (in
    strict mode) is no longer than the number of local devices, every
    tensor is a dense device tensor of the scalar type of the first,
    contiguous and (in strict mode) of the shape of the first, and (in
    strict mode) the device indices are pairwise distinct; otherwise it
    throws a [runtime_error].  It takes and returns no state, and an entry
    point whose validation throws leaves the state as it found it. *)
Theorem check_gpu_tensors_multi_spec (n : nat) (tensors : list Tensor)
    (alltoallv : bool) :
  (check_gpu_tensors_multi n tensors alltoallv = Ok tt
   <-> exists first rest,
         tensors = first :: rest
         /\ (alltoallv = false -> (length tensors <= n)%nat)
         /\ Forall (valid_tensor alltoallv first) tensors
         /\ (alltoallv = false -> NoDup (get_device <$> tensors)))
  /\ (check_gpu_tensors_multi n tensors alltoallv = Ok tt
      \/ exists what,
           check_gpu_tensors_multi n tensors alltoallv
           = Throw (runtime_error what))
  /\ (forall s e,
        check_gpu_tensors_multi (numGPUs s) tensors false = Throw e ->
        (forall op, allreduce tensors op s = (Throw e, s))
        /\ (forall outputTensors noCopy,
              allgather outputTensors tensors noCopy s = (Throw e, s)))
  /\ (forall s e outputTensors,
        Z.of_nat (length tensors) = wrap_uint64 (size_ s) ->
        Z.of_nat (length outputTensors) = wrap_uint64 (size_ s) ->
        check_gpu_tensors_multi (numGPUs s) tensors true = Throw e ->
        alltoall outputTensors tensors s = (Throw e, s)).
Proof.
  repeat split.
  - unfold check_gpu_tensors_multi. destruct tensors as [|first rest];
      [discriminate|].
    destruct alltoallv; cbn [negb andb].
    + rewrite check_gpu_tensors_loop_spec. intros [Hf _].
      exists first, rest. repeat split; auto; discriminate.
    + destruct (Nat.ltb_spec n (length (first :: rest))); [discriminate|].
      rewrite check_gpu_tensors_loop_spec. intros [Hf Hd].
      exists first, rest. repeat split; auto. now apply Hd.
  - intros (first & rest & -> & Hlen & Hf & Hd).
    unfold check_gpu_tensors_multi. destruct alltoallv; cbn [negb andb].
    + rewrite check_gpu_tensors_loop_spec. split; [exact Hf | discriminate].
    + destruct (Nat.ltb_spec n (length (first :: rest)));
        [specialize (Hlen eq_refl); lia|].
      rewrite check_gpu_tensors_loop_spec. split; [exact Hf|].
      intros _. split; [now apply Hd|].
      apply Forall_forall. intros u _. apply not_elem_of_empty.
  - unfold check_gpu_tensors_multi. destruct tensors as [|first rest];
      [right; eexists; reflexivity|].
    destruct (negb alltoallv && (n <? length (first :: rest))%nat);
      [right; eexists; reflexivity|].
    apply check_gpu_tensors_loop_outcome.
  - intros op. now apply allreduce_invalid.
  - intros outs nc. now apply allgather_invalid.
  - intros s e outs. apply alltoall_invalid.
Qed.

(** Two float tensors on devices 0 and 1 pass in strict mode; two tensors
    on device 0 do not. *)
Lemma check_gpu_tensors_multi_spec_witness :
  check_gpu_tensors_multi 2 [dense_float 0 0; dense_float 1 1] false = Ok tt
  /\ exists what,
       check_gpu_tensors_multi 2 [dense_float 0 0; dense_float 0 0] false
       = Throw (runtime_error what).
Proof.
  split.
  - apply (proj1 (check_gpu_tensors_multi_spec 2
                    [dense_float 0 0; dense_float 1 1] false)).
    exists (dense_float 0 0), [dense_float 1 1].
    split; [reflexivity|]. split; [simpl; lia|]. split.
    + repeat constructor.
    + intros _. simpl. apply NoDup_cons. split; [|apply NoDup_singleton].
      intros H. apply list_elem_of_singleton in H. discriminate.
  - destruct (proj1 (proj2 (check_gpu_tensors_multi_spec 2
                       [dense_float 0 0; dense_float 0 0] false))) as [H|H].
    + discriminate H.
    + exact H.
Defined.

(** ** The flattener and its no-copy mode *)

Lemma no_copy_views_loop_spec (first : Tensor) (j : nat) (ts : list Tensor) :
  Forall (fun t => 0 <= storage_offset t < 2 ^ 63) ts ->
  0 <= storage_offset first -> 0 <= numel first ->
  storage_offset first + Z.of_nat (j + length ts) * numel first < 2 ^ 63 ->
  (no_copy_views_loop first j ts = true
   <-> forall k t, ts !! k = Some t ->
         storage t = storage first
         /\ storage_offset t
            = storage_offset first + Z.of_nat (j + k) * numel first).
Proof.
  revert j. induction ts as [|t ts IH]; intros j Hoff H0 Hn Hext.
  - simpl. split; [intros _ k t Hk; now rewrite lookup_nil in Hk | reflexivity].
  - cbn [no_copy_views_loop]. unfold is_alias_of.
    inversion Hoff as [|? ? Ht Hts]; subst.
    cbn [length] in Hext.
    rewrite (wrap_uint64_small (storage_offset t)) by lia.
    rewrite (wrap_uint64_small (storage_offset first + Z.of_nat j * numel first))
      by nia.
    case_bool_decide as Hst; cbn [negb orb].
    + destruct (Z.eqb_spec (storage_offset t)
                  (storage_offset first + Z.of_nat j * numel first)) as [E|E];
        cbn [negb].
      * rewrite IH by (auto; try nia). split.
        -- intros H [|k] u Hk.
           ++ injection Hk as <-. rewrite Nat.add_0_r. auto.
           ++ rewrite lookup_cons in Hk. cbn in Hk.
              destruct (H k u Hk) as [? ?]. split; [auto|].
              replace (j + S k)%nat with (S j + k)%nat by lia. auto.
        -- intros H k u Hk. specialize (H (S k) u Hk).
           replace (j + S k)%nat with (S j + k)%nat in H by lia. auto.
      * split; [discriminate|]. intros H.
        destruct (H 0%nat t eq_refl) as [_ H']. rewrite Nat.add_0_r in H'.
        contradiction.
    + split; [discriminate|]. intros H.
      destruct (H 0%nat t eq_refl) as [H' _]. contradiction.
Qed.

Lemma wrap_int64_small (z : Z) : - 2 ^ 63 <= z < 2 ^ 63 -> wrap_int64 z = z.
Proof. unfold wrap_int64. intros H. rewrite Z.mod_small; lia. Qed.

Section OneDevice.
Context {world_size num_devices rank : nat} {tensor_list : list Tensor}
  {other_i first : Tensor}.
Hypothesis Hwf :
  device_well_formed world_size num_devices rank tensor_list other_i.
Hypothesis Hfirst : tensor_list !! 0%nat = Some first.

Lemma wf_first_in : first ∈ tensor_list.
Proof. eapply list_elem_of_lookup_2; eauto. Qed.

Lemma wf_first_numel : numel first = numel other_i.
Proof.
  pose proof (wf_numel _ _ _ _ _ Hwf) as H. rewrite Forall_forall in H.
  apply H, wf_first_in.
Qed.

Lemma wf_first_device : get_device first = get_device other_i.
Proof.
  pose proof (wf_device _ _ _ _ _ Hwf) as H. rewrite Forall_forall in H.
  apply H, wf_first_in.
Qed.

Lemma wf_first_offset : 0 <= storage_offset first < 2 ^ 63.
Proof.
  pose proof (wf_offsets _ _ _ _ _ Hwf) as H. rewrite Forall_forall in H.
  apply H. right. apply wf_first_in.
Qed.

Lemma wf_first_extent :
  storage_offset first
  + (Z.of_nat (length tensor_list) + Z.of_nat rank) * numel other_i < 2 ^ 63.
Proof.
  pose proof (wf_extent _ _ _ _ _ Hwf) as H. rewrite Forall_forall in H.
  apply (H first), wf_first_in.
Qed.

Lemma wf_flat_size :
  wrap_int64 (wrap_uint64 (Z.of_nat world_size * numel other_i))
  = Z.of_nat world_size * numel other_i.
Proof.
  pose proof wf_first_extent as He. pose proof wf_first_offset as Ho.
  pose proof (wf_numel_pos _ _ _ _ _ Hwf) as Hn.
  pose proof (wf_count _ _ _ _ _ Hwf) as Hc.
  assert (length tensor_list <> 0%nat) as Hne.
  { pose proof (wf_nonempty _ _ _ _ _ Hwf). destruct tensor_list; simpl;
      congruence. }
  assert (world_size <= length tensor_list)%nat.
  { rewrite Hc in *. destruct num_devices; [lia|].
    rewrite Nat.mul_succ_r. lia. }
  assert (0 <= Z.of_nat world_size * numel other_i < 2 ^ 63) by nia.
  rewrite wrap_uint64_small by lia. apply wrap_int64_small. lia.
Qed.

(** The [no_copy] block answers the two checks. *)
Lemma no_copy_block_spec :
  no_copy_block tensor_list first other_i rank = true
  <-> no_copy_checks tensor_list other_i rank.
Proof.
  pose proof wf_first_extent as He. pose proof wf_first_offset as Ho.
  pose proof wf_first_numel as Hnf.
  pose proof (wf_numel_pos _ _ _ _ _ Hwf) as Hn.
  pose proof (wf_offsets _ _ _ _ _ Hwf) as Hoffs.
  inversion Hoffs as [|? ? Hoo Hol]; subst.
  unfold no_copy_block, no_copy_checks, views_aligned, other_aligned,
    other_misaligned, is_alias_of.
  rewrite (wrap_uint64_small (storage_offset other_i)) by lia.
  rewrite (wrap_uint64_small
             (storage_offset first + Z.of_nat rank * numel first)) by nia.
  assert (no_copy_views_loop first 0 tensor_list = true
          <-> forall k t, tensor_list !! k = Some t ->
                storage t = storage first
                /\ storage_offset t
                   = storage_offset first + Z.of_nat k * numel first)
    as Hloop.
  { apply no_copy_views_loop_spec; auto; try lia; cbn [Nat.add]; nia. }
  rewrite Hfirst.
  case_bool_decide as Hst; cbn [andb].
  - destruct (Z.eqb_spec (storage_offset other_i)
                (storage_offset first + Z.of_nat rank * numel first)) as [E|E];
      cbn [negb].
    + rewrite Hloop. split.
      * intros H. split.
        -- intros j t f Hj [= <-]. auto.
        -- intros f [= <-]. now right.
      * intros [H _] k t Hk. now apply H.
    + split; [discriminate|]. intros [_ H].
      destruct (H first eq_refl) as [H'|H']; contradiction.
  - rewrite Hloop. split.
    + intros H. split.
      * intros j t f Hj [= <-]. auto.
      * intros f [= <-]. now left.
    + intros [H _] k t Hk. now apply H.
Qed.

Lemma newLikeFlat_ok (alloc : nat) :
  exists flat,
    newLikeFlat tensor_list other_i world_size alloc = Ok flat
    /\ storage flat = alloc /\ storage_offset flat = 0
    /\ sizes flat = [Z.of_nat world_size * numel other_i]
    /\ get_device flat = get_device other_i.
Proof.
  unfold newLikeFlat. destruct tensor_list as [|t rest] eqn:E;
    [discriminate Hfirst|].
  injection Hfirst as ->.
  pose proof (wf_device _ _ _ _ _ Hwf) as Hd.
  inversion Hd as [|? ? Hd1 Hd2]; subst.
  assert (forallb (fun u => get_device u =? get_device first) rest = true)
    as ->.
  { apply forallb_forall. intros u Hu. rewrite Forall_forall in Hd2.
    apply Z.eqb_eq. rewrite Hd1. apply Hd2. now apply list_elem_of_In. }
  cbn [negb]. eexists. split; [reflexivity|]. cbn. auto.
Qed.
End OneDevice.

Lemma no_copy_up_to_zero b rank l o lists other :
  no_copy_up_to b rank (l :: lists) (o :: other) 0
  <-> b = true /\ no_copy_checks l o rank.
Proof.
  unfold no_copy_up_to. split.
  - intros [Hb H]. split; [exact Hb|]. now apply (H 0%nat l o).
  - intros [Hb H]. split; [exact Hb|].
    intros k l' o' Hk Hl Ho. assert (k = 0%nat) as -> by lia.
    injection Hl as <-. injection Ho as <-. exact H.
Qed.

Lemma no_copy_up_to_succ b b' rank l o lists other i :
  (b' = true <-> b = true /\ no_copy_checks l o rank) ->
  (no_copy_up_to b rank (l :: lists) (o :: other) (S i)
   <-> no_copy_up_to b' rank lists other i).
Proof.
  intros Hb'. unfold no_copy_up_to. split.
  - intros [Hb H]. split.
    + apply Hb'. split; [exact Hb|]. apply (H 0%nat l o); [lia|done|done].
    + intros k l' o' Hk Hl Ho. apply (H (S k) l' o'); [lia|done|done].
  - intros [Hb H]. apply Hb' in Hb as [Hb Hc]. split; [exact Hb|].
    intros [|k] l' o' Hk Hl Ho.
    + injection Hl as <-. injection Ho as <-. exact Hc.
    + apply (H k l' o'); [lia|done|done].
Qed.

Lemma flatten_loop_spec (n ws rank : nat) (tensor_lists : list (list Tensor)) :
  forall (other : list Tensor) (b : bool) (alloc : nat),
    length tensor_lists = length other ->
    (forall i l o, tensor_lists !! i = Some l -> other !! i = Some o ->
                   device_well_formed ws n rank l o) ->
    exists flattened alloc',
      flatten_loop n ws rank b alloc tensor_lists other
      = Ok (flattened, alloc')
      /\ length flattened = length tensor_lists
      /\ forall i l o first flat,
           tensor_lists !! i = Some l -> other !! i = Some o ->
           l !! 0%nat = Some first -> flattened !! i = Some flat ->
           (no_copy_up_to b rank tensor_lists other i
            /\ flat = set_view first o ws)
           \/ (~ no_copy_up_to b rank tensor_lists other i
               /\ exists a, (alloc <= a)%nat
                            /\ newLikeFlat l o ws a = Ok flat).
Proof.
  induction tensor_lists as [|l lists IH]; intros other b alloc Hlen Hwf.
  - exists [], alloc. repeat split. intros i l o first flat Hl.
    now rewrite lookup_nil in Hl.
  - destruct other as [|o other]; [discriminate Hlen|].
    injection Hlen as Hlen.
    pose proof (Hwf 0%nat l o eq_refl eq_refl) as Hwf0.
    assert (forall i l' o', lists !! i = Some l' -> other !! i = Some o' ->
                            device_well_formed ws n rank l' o') as Hwf'.
    { intros i l' o' Hl Ho. exact (Hwf (S i) l' o' Hl Ho). }
    destruct l as [|first rest];
      [exfalso; now apply (wf_nonempty _ _ _ _ _ Hwf0)|].
    set (l := first :: rest) in *.
    assert (l !! 0%nat = Some first) as Hfirst by reflexivity.
    set (b' := if b then no_copy_block l first o rank else false).
    assert (b' = true <-> b = true /\ no_copy_checks l o rank) as Hb'.
    { unfold b'. destruct b.
      - rewrite (no_copy_block_spec Hwf0 Hfirst). tauto.
      - split; [discriminate | intros [? _]; discriminate]. }
    assert (exists flat0 alloc0,
              (if b' then Ok (set_view first o ws, alloc)
               else obind (newLikeFlat l o ws alloc)
                      (fun flat => Ok (flat, S alloc)))
              = Ok (flat0, alloc0)
              /\ (alloc <= alloc0)%nat
              /\ ((b' = true /\ flat0 = set_view first o ws)
                  \/ (b' = false /\ newLikeFlat l o ws alloc = Ok flat0)))
      as (flat0 & alloc0 & Hhead & Hle & Hflat0).
    { destruct b'.
      - exists (set_view first o ws), alloc. repeat split; auto.
      - destruct (newLikeFlat_ok Hwf0 Hfirst alloc) as (flat & Hnew & _).
        exists flat, (S alloc). rewrite Hnew. repeat split; auto. }
    destruct (IH other b' alloc0 Hlen Hwf') as (flattened & alloc' & Hrun & Hl' & Hspec).
    exists (flat0 :: flattened), alloc'.
    split; [|split].
    + unfold l at 1. cbn [flatten_loop]. fold l.
      rewrite (wf_count _ _ _ _ _ Hwf0) at 1.
      rewrite Nat2Z.inj_mul, wrap_uint64_small, Z.eqb_refl.
      2:{ pose proof (wf_count_small _ _ _ _ _ Hwf0) as Hs.
          rewrite (wf_count _ _ _ _ _ Hwf0) in Hs. lia. }
      cbn [negb].
      rewrite (wf_first_device Hwf0 Hfirst), Z.eqb_refl. cbn [negb].
      assert (forallb (fun t => numel t =? numel o) l = true) as ->.
      { apply forallb_forall. intros u Hu.
        pose proof (wf_numel _ _ _ _ _ Hwf0) as Hn. rewrite Forall_forall in Hn.
        apply Z.eqb_eq, Hn. now apply list_elem_of_In. }
      cbn [negb]. fold b'. rewrite Hhead. cbn [obind].
      rewrite Hrun. reflexivity.
    + cbn [length]. now rewrite Hl'.
    + intros [|i] l1 o1 first1 flat Hl1 Ho1 Hf1 Hfl.
      * injection Hl1 as <-. injection Ho1 as <-. injection Hfl as <-.
        rewrite Hfirst in Hf1. injection Hf1 as <-.
        rewrite no_copy_up_to_zero.
        destruct Hflat0 as [[Hb Hv]|[Hb Hn]].
        -- left. split; [now apply Hb'|exact Hv].
        -- right. split.
           ++ intros H. apply Hb' in H. congruence.
           ++ exists alloc. split; [lia | exact Hn].
      * rewrite (no_copy_up_to_succ b b') by exact Hb'.
        destruct (Hspec i l1 o1 first1 flat Hl1 Ho1 Hf1 Hfl)
          as [H|[Hno (a & Ha & Hnew)]]; [left; exact H|].
        right. split; [exact Hno|]. exists a. split; [lia|exact Hnew].
Qed.

(** C3, as the code has it.  For well-formed operands and [no_copy] requested, the
    call returns one tensor per device; the tensor for device [i] is a view
    over the storage of [tensor_lists[i][0]] (at that tensor's offset)
    exactly when checks (a) and (b) hold for every device up to and
    including [i]; otherwise it lies in a storage allocated by the call.
    Either way it has world_size * other[i].numel elements. *)
Theorem flatten_no_copy_until_first_failure
    (tensor_lists : list (list Tensor)) (other : list Tensor)
    (world_size rank alloc : nat) :
  Forall2 (device_well_formed world_size (length tensor_lists) rank)
    tensor_lists other ->
  Forall (Forall (fun t => (storage t < alloc)%nat)) tensor_lists ->
  exists flattened alloc',
    flatten_for_scatter_gather tensor_lists other world_size rank true alloc
    = Ok (flattened, alloc')
    /\ length flattened = length tensor_lists
    /\ forall i l o first flat,
         tensor_lists !! i = Some l -> other !! i = Some o ->
         l !! 0%nat = Some first -> flattened !! i = Some flat ->
         (storage flat = storage first
          <-> forall k l' o', (k <= i)%nat ->
                tensor_lists !! k = Some l' -> other !! k = Some o' ->
                no_copy_checks l' o' rank)
         /\ (storage flat = storage first ->
             storage_offset flat = storage_offset first)
         /\ (storage flat <> storage first ->
             (alloc <= storage flat)%nat /\ storage_offset flat = 0)
         /\ sizes flat = [Z.of_nat world_size * numel o].
Proof.
  intros Hwf Hold.
  pose proof (Forall2_length _ _ _ Hwf) as Hlen.
  destruct (flatten_loop_spec (length tensor_lists) world_size rank
              tensor_lists other true alloc Hlen)
    as (flattened & alloc' & Hrun & Hl & Hspec).
  { intros i l o Hi Ho. eapply Forall2_lookup_lr; eauto. }
  exists flattened, alloc'. split; [|split; [exact Hl|]].
  - unfold flatten_for_scatter_gather.
    rewrite bool_decide_eq_true_2 by exact Hlen. exact Hrun.
  - intros i l o first flat Hi Ho Hf Hfl.
    assert (device_well_formed world_size (length tensor_lists) rank l o)
      as Hwfi by (eapply Forall2_lookup_lr; eauto).
    assert (storage first < alloc)%nat as Hfresh.
    { rewrite Forall_forall in Hold.
      pose proof (Hold l (list_elem_of_lookup_2 _ _ _ Hi)) as Hl'.
      rewrite Forall_forall in Hl'.
      exact (Hl' first (list_elem_of_lookup_2 _ _ _ Hf)). }
    destruct (Hspec i l o first flat Hi Ho Hf Hfl)
      as [[[_ Hup] ->]|[Hno (a & Ha & Hnew)]].
    + cbn [set_view storage storage_offset sizes].
      rewrite (wf_flat_size Hwfi Hf).
      split; [split; [intros _; exact Hup | reflexivity]|].
      split; [reflexivity|].
      split; [intros Hne; now contradiction Hne | reflexivity].
    + destruct (newLikeFlat_ok Hwfi Hf a) as (flat' & Hnew' & Hst & Hoff & Hsz & _).
      rewrite Hnew in Hnew'. injection Hnew' as <-.
      assert (storage flat <> storage first) as Hne by lia.
      split; [split; [intros E; contradiction|]|].
      { intros Hup. exfalso. apply Hno. split; [reflexivity | exact Hup]. }
      split; [intros E; contradiction|].
      split; [intros _; split; [lia | exact Hoff] | exact Hsz].
Qed.

Ltac solve_Forall :=
  repeat (apply List.Forall_cons; [first [reflexivity | cbn; lia]|]);
  apply List.Forall_nil.

Lemma cuda_float_well_formed (n rank : nat) (l : list Tensor) (o : Tensor) :
  n = 2%nat -> rank = 0%nat ->
  (l, o) = ([cuda_float 0 0 0; cuda_float 0 1 0], cuda_float 0 10 0)
  \/ (l, o) = ([cuda_float 1 2 0; cuda_float 1 2 4], cuda_float 1 11 0) ->
  device_well_formed 1 n rank l o.
Proof.
  intros -> -> [[= -> ->]|[= -> ->]].
  - constructor.
    + reflexivity.
    + cbn; lia.
    + discriminate.
    + solve_Forall.
    + solve_Forall.
    + solve_Forall.
    + cbn; lia.
    + solve_Forall.
  - constructor.
    + reflexivity.
    + cbn; lia.
    + discriminate.
    + solve_Forall.
    + solve_Forall.
    + solve_Forall.
    + cbn; lia.
    + solve_Forall.
Qed.

Lemma two_device_well_formed :
  Forall2 (device_well_formed 1 (length two_device_lists) 0)
    two_device_lists two_device_other.
Proof.
  constructor; [apply cuda_float_well_formed; auto|].
  constructor; [apply cuda_float_well_formed; auto|].
  constructor.
Qed.

(** C3 read device by device fails on device 1: checks (a) and (b) hold
    there, on well-formed operands, and the tensor returned for the device
    is not in the storage of [tensor_lists[1][0]]. *)
Lemma flatten_no_copy_per_device_fails :
  Forall2 (device_well_formed 1 (length two_device_lists) 0)
    two_device_lists two_device_other
  /\ no_copy_checks [cuda_float 1 2 0; cuda_float 1 2 4] (cuda_float 1 11 0) 0
  /\ exists flattened alloc' flat,
       flatten_for_scatter_gather two_device_lists two_device_other 1 0 true 20
       = Ok (flattened, alloc')
       /\ flattened !! 1%nat = Some flat
       /\ storage flat <> storage (cuda_float 1 2 0).
Proof.
  split; [exact two_device_well_formed|]. split.
  - apply (no_copy_block_spec
             (cuda_float_well_formed 2 0 _ _ eq_refl eq_refl
                (or_intror eq_refl)) (first := cuda_float 1 2 0) eq_refl).
    reflexivity.
  - eexists _, _, _. split; [vm_compute; reflexivity|].
    split; [reflexivity|]. cbn. lia.
Qed.

Lemma flatten_no_copy_until_first_failure_witness :
  exists flattened alloc',
    flatten_for_scatter_gather two_device_lists two_device_other 1 0 true 20
    = Ok (flattened, alloc')
    /\ length flattened = 2%nat.
Proof.
  destruct (flatten_no_copy_until_first_failure two_device_lists
              two_device_other 1 0 20) as (flattened & alloc' & H & Hl & _).
  - exact two_device_well_formed.
  - unfold two_device_lists. repeat (constructor; [solve_Forall|]).
    constructor.
  - exists flattened, alloc'. split; [exact H | exact Hl].
Defined.

(** ** The post hook of allgather *)

Lemma set_effects_id (s : State) : set_effects (effects s) s = s.
Proof. destruct s; reflexivity. Qed.

Lemma set_effects_twice (a b : list Effect) (s : State) :
  set_effects b (set_effects a s) = set_effects b s.
Proof. reflexivity. Qed.


Lemma at_index_run {A} (l : list A) (i : nat) (a : A) (s : State) :
  l !! i = Some a -> at_index l i s = (Ok a, s).
Proof. intros H. unfold at_index. now rewrite H. Qed.

Lemma emit_run (e : Effect) (s : State) : emit e s = (Ok tt, logged [e] s).
Proof. reflexivity. Qed.

Lemma logged_nil (s : State) : logged [] s = s.
Proof. unfold logged. rewrite app_nil_r. apply set_effects_id. Qed.

Lemma logged_app (a b : list Effect) (s : State) :
  logged b (logged a s) = logged (a ++ b) s.
Proof. unfold logged. cbn. now rewrite app_assoc. Qed.













(** ** First-time creation of communicators *)

Lemma only_creates_refl (s : State) : only_creates s s.
Proof. repeat split; auto. Qed.

Lemma only_creates_trans (s1 s2 s3 : State) :
  only_creates s1 s2 -> only_creates s2 s3 -> only_creates s1 s3.
Proof.
  unfold only_creates.
  intros (?&?&?&?&?&?&?&?&Hc1) (?&?&?&?&?&?&?&?&Hc2).
  repeat split; try congruence. auto.
Qed.

Lemma create_comm_step_run (ncclID : ncclUniqueId) (devices : list Z) (i : nat)
    (acc : list CommPtr * list CUDAStream) (s : State) :
  (i < length devices)%nat ->
  exists p stream s',
    create_comm_step ncclID devices i acc s
    = (Ok (acc.1 ++ [p], acc.2 ++ [stream]), s')
    /\ comms s' !! p = Some (created_comm s ncclID devices i)
    /\ only_creates s s'.
Proof.
  intros Hi. destruct (lookup_lt_is_Some_2 devices i Hi) as [d Hd].
  unfold create_comm_step.
  rewrite (bind_ok _ _ _ _ _ (eq_refl : get_state s = (Ok s, s))).
  rewrite (bind_ok _ _ _ _ _ (at_index_run _ _ _ _ Hd)).
  rewrite (bind_ok _ _ _ _ _ (emit_run _ _)).
  unfold NCCLComm_create, getStreamFromPool, bind, get_state, modify, emit, ret.
  cbn.
  eexists _, _, _. split; [reflexivity|]. split.
  - cbn. rewrite lookup_insert_eq. unfold created_comm. now rewrite Hd.
  - repeat split. cbn. intros p c Hp.
    rewrite lookup_insert_ne; [exact Hp|].
    intros <-. pose proof (is_fresh (dom (comms s))) as Hf.
    apply Hf. apply elem_of_dom. eauto.
Qed.

Lemma created_comm_ext (s s' : State) id devices i :
  rank_ s' = rank_ s -> size_ s' = size_ s ->
  created_comm s' id devices i = created_comm s id devices i.
Proof. intros H1 H2. unfold created_comm. now rewrite H1, H2. Qed.

Lemma create_loop_run (ncclID : ncclUniqueId) (devices : list Z) :
  forall (m k : nat) (acc : list CommPtr * list CUDAStream) (s : State),
    (k + m <= length devices)%nat ->
    exists ps streams s',
      fold_each (seq k m) (create_comm_step ncclID devices) acc s
      = (Ok (acc.1 ++ ps, acc.2 ++ streams), s')
      /\ length ps = m /\ length streams = m
      /\ (forall j p, ps !! j = Some p ->
            comms s' !! p = Some (created_comm s ncclID devices (k + j)))
      /\ only_creates s s'.
Proof.
  induction m as [|m IH]; intros k acc s Hk.
  - exists [], [], s. cbn [seq fold_each]. rewrite !app_nil_r.
    destruct acc. repeat split; auto.
    intros j p Hj. now rewrite lookup_nil in Hj.
  - destruct (create_comm_step_run ncclID devices k acc s ltac:(lia))
      as (p & stream & s1 & Hstep & Hp & Hs1).
    destruct (IH (S k) (acc.1 ++ [p], acc.2 ++ [stream]) s1 ltac:(lia))
      as (ps & streams & s' & Hrun & Hlp & Hls & Hcomms & Hs').
    exists (p :: ps), (stream :: streams), s'.
    split; [|split; [|split; [|split]]].
    + cbn [seq fold_each]. rewrite (bind_ok _ _ _ _ _ Hstep), Hrun.
      cbn [fst snd]. now rewrite <- !app_assoc.
    + cbn. now rewrite Hlp.
    + cbn. now rewrite Hls.
    + intros [|j] q Hq.
      * injection Hq as <-. rewrite Nat.add_0_r.
        destruct Hs' as (_&_&_&_&_&_&_&_&Hkeep). now apply Hkeep.
      * rewrite (Hcomms j q Hq).
        destruct Hs1 as (Hr & Hz & _).
        rewrite (created_comm_ext s s1) by assumption.
        f_equal. f_equal. lia.
    + eapply only_creates_trans; eauto.
Qed.

Lemma vec_to_list_cast {A} (l : list A) (n : nat) (H : length l = n) :
  vec_to_list (eq_rect (length l) (vec A) (list_to_vec l) n H) = l.
Proof. destruct H. cbn. apply vec_to_list_to_vec. Qed.

Lemma bytes_to_ncclUniqueId_Some (l : list Byte.byte) (id : ncclUniqueId) :
  bytes_to_ncclUniqueId l = Some id -> vec_to_list id = l.
Proof.
  unfold bytes_to_ncclUniqueId. destruct (decide _) as [H|H]; [|discriminate].
  intros [= <-]. apply vec_to_list_cast.
Qed.

Lemma bytes_to_ncclUniqueId_width (l : list Byte.byte) :
  (length l = NCCL_UNIQUE_ID_BYTES -> is_Some (bytes_to_ncclUniqueId l))
  /\ (length l <> NCCL_UNIQUE_ID_BYTES -> bytes_to_ncclUniqueId l = None).
Proof.
  unfold bytes_to_ncclUniqueId. destruct (decide _) as [H|H]; split; intros H';
    try contradiction; eauto.
Qed.

(** The rendezvous, as run by rank 0 and by the other ranks. *)
Lemma broadcastUniqueNCCLID_rank0 (ncclID : ncclUniqueId) (s : State) :
  rank_ s = 0 ->
  broadcastUniqueNCCLID ncclID s
  = (Ok ncclID,
     set_store (<[std_to_string (ncclCommCounter_ s) := vec_to_list ncclID]>
                  (store s))
       (set_ncclCommCounter_ (wrap_uint64 (ncclCommCounter_ s + 1)) s)).
Proof.
  intros Hr. unfold broadcastUniqueNCCLID, bind, get_state, modify, store_set,
    ret. cbn. rewrite Hr. reflexivity.
Qed.

Lemma broadcastUniqueNCCLID_other (ncclID : ncclUniqueId) (s : State)
    (bytes : list Byte.byte) :
  rank_ s <> 0 ->
  store s !! std_to_string (ncclCommCounter_ s) = Some bytes ->
  broadcastUniqueNCCLID ncclID s
  = (match bytes_to_ncclUniqueId bytes with
     | Some id => Ok id
     | None =>
         Throw (c10_Error
           "Expected vec.size() == NCCL_UNIQUE_ID_BYTES to be true, but got false.")
     end,
     set_ncclCommCounter_ (wrap_uint64 (ncclCommCounter_ s + 1)) s).
Proof.
  intros Hr Hst. unfold broadcastUniqueNCCLID, bind, get_state, modify,
    store_get, ret, throw.
  remember (std_to_string (ncclCommCounter_ s)) as storeKey.
  cbn [store set_ncclCommCounter_ rank_].
  destruct (Z.eqb_spec (rank_ s) 0) as [E|E]; [contradiction|].
  unfold bind, get_state. cbn [store set_ncclCommCounter_].
  rewrite Hst. destruct (bytes_to_ncclUniqueId bytes); reflexivity.
Qed.

Lemma bind_assoc {A B C} (m : M A) (k : A -> M B) (h : B -> M C) (s : State) :
  bind (bind m k) h s = bind m (fun a => bind (k a) h) s.
Proof. unfold bind. destruct (m s) as [[a| | |] s']; reflexivity. Qed.

Lemma emplace_absent {V} (k : string) (v : V) (m : gmap string V) :
  m !! k = None -> emplace k v m !! k = Some v.
Proof. intros H. unfold emplace. rewrite H. apply lookup_insert_eq. Qed.

(** A miss of the cache, once the unique id is there: one communicator per
    device is created and the group is entered into the cache. *)
Lemma getNCCLComm_miss (devicesKey : string) (devices : list Z) (s s1 : State)
    (ncclID : ncclUniqueId) :
  devicesKey <> ""%string ->
  devNCCLCommMap_ s !! devicesKey = None ->
  obtain_unique_id (note_devices devices s) (note_devices devices s)
  = (Ok ncclID, s1) ->
  rank_ s1 = rank_ s -> size_ s1 = size_ s ->
  devNCCLCommMap_ s1 = devNCCLCommMap_ s ->
  exists ps s',
    getNCCLComm devicesKey devices s = (Ok ps, s')
    /\ length ps = length devices
    /\ (forall i p, ps !! i = Some p ->
          comms s' !! p = Some (created_comm s ncclID devices i))
    /\ (forall p c, comms s1 !! p = Some c -> comms s' !! p = Some c)
    /\ store s' = store s1
    /\ ncclCommCounter_ s' = ncclCommCounter_ s1
    /\ devNCCLCommMap_ s' !! devicesKey = Some ps.
Proof.
  intros Hkey Hmiss Hid Hr Hz Hmap.
  destruct (create_loop_run ncclID devices (length devices) 0 ([], [])
              (logged [ncclGroupStart] s1) ltac:(lia))
    as (ps & streams & s2 & Hloop & Hlp & Hls & Hcomms & Hs2).
  cbn [fst snd app] in Hloop.
  destruct Hs2 as (Hr2 & Hz2 & Hc2 & Hm2 & Hi2 & Hst2 & He2 & Hsto2 & Hkeep2).
  cbn in Hr2, Hz2, Hc2, Hm2, Hi2, Hst2, He2, Hsto2, Hkeep2.
  eexists ps, _. split; [|split; [exact Hlp|split; [|split; [|split; [|split]]]]].
  - unfold getNCCLComm. rewrite bool_decide_eq_false_2 by exact Hkey.
    erewrite bind_ok by reflexivity.
    erewrite bind_ok by reflexivity.
    fold (note_devices devices s).
    replace (devNCCLCommMap_ (note_devices devices s) !! devicesKey)
      with (@None (list CommPtr)) by (symmetry; exact Hmiss).
    rewrite <- bind_assoc. fold (obtain_unique_id (note_devices devices s)).
    rewrite (bind_ok _ _ _ _ _ Hid).
    erewrite bind_ok by (apply emit_run).
    rewrite (bind_ok _ _ _ _ _ Hloop).
    erewrite bind_ok by (apply emit_run).
    erewrite bind_ok by reflexivity.
    erewrite bind_ok by reflexivity.
    erewrite bind_ok by reflexivity.
    erewrite bind_ok by reflexivity.
    erewrite bind_ok by reflexivity.
    unfold ret. cbn [fst snd]. f_equal.
    cbn [devNCCLCommMap_ set_devNCCLCommMap_ set_ncclIdToCommMap_
           set_ncclEvents_ set_ncclStreams_ logged set_effects].
    rewrite emplace_absent; [reflexivity|]. now rewrite Hm2, Hmap.
  - intros i p Hp. cbn. rewrite (Hcomms i p Hp).
    cbn [Nat.add]. f_equal. apply created_comm_ext; assumption.
  - intros p c Hp. cbn. apply Hkeep2. exact Hp.
  - cbn. rewrite Hsto2. reflexivity.
  - cbn. rewrite Hc2. reflexivity.
  - cbn. rewrite emplace_absent; [reflexivity|]. now rewrite Hm2, Hmap.
Qed.

Lemma created_comm_fields (s : State) (ncclID : ncclUniqueId)
    (devices : list Z) (i : nat) :
  let n := Z.of_nat (length devices) in
  0 <= rank_ s -> 0 <= size_ s ->
  size_ s * n < 2 ^ 31 -> rank_ s * n + n <= 2 ^ 31 ->
  (i < length devices)%nat ->
  comm_nranks (created_comm s ncclID devices i) = size_ s * n
  /\ comm_rank (created_comm s ncclID devices i) = rank_ s * n + Z.of_nat i
  /\ comm_id (created_comm s ncclID devices i) = ncclID.
Proof.
  intros n Hr Hz Hsn Hrn Hi. unfold created_comm. cbn. fold n.
  assert (0 <= size_ s * n) by nia.
  assert (0 <= rank_ s * n) by nia.
  rewrite !wrap_uint64_small by lia.
  rewrite !wrap_int32_small by (unfold INT_MIN, INT_MAX; lia).
  auto.
Qed.

Lemma broadcastUniqueNCCLID_waits (ncclID : ncclUniqueId) (s : State) :
  rank_ s <> 0 ->
  store s !! std_to_string (ncclCommCounter_ s) = None ->
  broadcastUniqueNCCLID ncclID s
  = (Blocked, set_ncclCommCounter_ (wrap_uint64 (ncclCommCounter_ s + 1)) s).
Proof.
  intros Hr Hst. unfold broadcastUniqueNCCLID, bind, get_state, modify,
    store_get, ret, throw, blocked.
  remember (std_to_string (ncclCommCounter_ s)) as storeKey.
  cbn [store set_ncclCommCounter_ rank_].
  destruct (Z.eqb_spec (rank_ s) 0) as [E|E]; [contradiction|].
  unfold bind, get_state. cbn [store set_ncclCommCounter_].
  rewrite Hst. reflexivity.
Qed.

(** C9.  On a miss of the cache, within the range of [int]: the
    communicator of device [i] of [n] is created with global size
    [size * n], global rank [rank * n + i] and the unique id of the
    rendezvous.  The rendezvous uses the decimal text of the counter as
    key and increments the counter; rank 0 stores the bytes of a fresh id
    under the key; any other rank reads the key, waiting while it is
    absent, and goes on only when the value has the width of an id,
    throwing otherwise without creating a communicator. *)
Theorem getNCCLComm_first_time (devicesKey : string) (devices : list Z)
    (s : State) :
  devicesKey <> ""%string ->
  devNCCLCommMap_ s !! devicesKey = None ->
  0 <= rank_ s -> 0 <= size_ s ->
  size_ s * Z.of_nat (length devices) < 2 ^ 31 ->
  rank_ s * Z.of_nat (length devices) + Z.of_nat (length devices) <= 2 ^ 31 ->
  let n := Z.of_nat (length devices) in
  let storeKey := std_to_string (ncclCommCounter_ s) in
  let created ncclID ps s' :=
    getNCCLComm devicesKey devices s = (Ok ps, s')
    /\ length ps = length devices
    /\ (forall i p, ps !! i = Some p ->
          exists c, comms s' !! p = Some c
                    /\ comm_nranks c = size_ s * n
                    /\ comm_rank c = rank_ s * n + Z.of_nat i
                    /\ comm_id c = ncclID)
    /\ ncclCommCounter_ s' = wrap_uint64 (ncclCommCounter_ s + 1)
    /\ devNCCLCommMap_ s' !! devicesKey = Some ps in
  (rank_ s = 0 ->
   forall ncclID rest, uniqueIds s = ncclID :: rest ->
     exists ps s',
       created ncclID ps s'
       /\ store s' = <[storeKey := vec_to_list ncclID]> (store s))
  /\ (rank_ s <> 0 -> store s !! storeKey = None ->
      exists s',
        getNCCLComm devicesKey devices s = (Blocked, s')
        /\ comms s' = comms s /\ store s' = store s)
  /\ (rank_ s <> 0 ->
      forall bytes, store s !! storeKey = Some bytes ->
        (length bytes = NCCL_UNIQUE_ID_BYTES ->
         exists ncclID ps s',
           vec_to_list ncclID = bytes
           /\ created ncclID ps s' /\ store s' = store s)
        /\ (length bytes <> NCCL_UNIQUE_ID_BYTES ->
            exists what s',
              getNCCLComm devicesKey devices s = (Throw (c10_Error what), s')
              /\ comms s' = comms s /\ store s' = store s
              /\ devNCCLCommMap_ s' = devNCCLCommMap_ s)).
Proof.
  intros Hkey Hmiss Hr Hz Hsn Hrn n storeKey created.
  assert (forall ncclID s1 ps s',
            getNCCLComm devicesKey devices s = (Ok ps, s') ->
            length ps = length devices ->
            (forall i p, ps !! i = Some p ->
               comms s' !! p = Some (created_comm s ncclID devices i)) ->
            ncclCommCounter_ s' = ncclCommCounter_ s1 ->
            ncclCommCounter_ s1 = wrap_uint64 (ncclCommCounter_ s + 1) ->
            devNCCLCommMap_ s' !! devicesKey = Some ps ->
            created ncclID ps s') as Hcreated.
  { intros ncclID s1 ps s' Hrun Hl Hc Hcnt Hcnt1 Hm. unfold created.
    split; [exact Hrun|]. split; [exact Hl|]. split; [|split; [congruence|exact Hm]].
    intros i p Hp. eexists. split; [exact (Hc i p Hp)|].
    apply created_comm_fields; auto.
    rewrite <- Hl. eapply lookup_lt_Some; eauto. }
  split; [|split].
  - intros Hr0 ncclID rest Hids.
    assert (obtain_unique_id (note_devices devices s) (note_devices devices s)
            = (Ok ncclID,
               set_store (<[storeKey := vec_to_list ncclID]> (store s))
                 (set_ncclCommCounter_
                    (wrap_uint64 (ncclCommCounter_ s + 1))
                    (set_uniqueIds rest (note_devices devices s))))) as Hid.
    { unfold obtain_unique_id. cbn [rank_ note_devices set_usedDeviceIdxs_].
      rewrite Hr0. cbn [Z.eqb].
      unfold ncclGetUniqueId.
      erewrite bind_ok by (erewrite bind_ok by reflexivity;
                           cbn [uniqueIds note_devices set_usedDeviceIdxs_];
                           rewrite Hids; reflexivity).
      rewrite broadcastUniqueNCCLID_rank0 by exact Hr0. reflexivity. }
    destruct (getNCCLComm_miss devicesKey devices s _ ncclID Hkey Hmiss Hid
                eq_refl eq_refl eq_refl)
      as (ps & s' & Hrun & Hl & Hc & _ & Hst & Hcnt & Hm).
    exists ps, s'. split; [|exact Hst].
    eapply Hcreated; eauto; reflexivity.
  - intros Hr0 Habsent. eexists. split; [|split].
    + unfold getNCCLComm. rewrite bool_decide_eq_false_2 by exact Hkey.
      erewrite bind_ok by reflexivity.
      erewrite bind_ok by reflexivity.
      fold (note_devices devices s).
      replace (devNCCLCommMap_ (note_devices devices s) !! devicesKey)
        with (@None (list CommPtr)) by (symmetry; exact Hmiss).
      cbn [rank_ note_devices set_usedDeviceIdxs_].
      destruct (Z.eqb_spec (rank_ s) 0) as [E|_]; [contradiction|].
      erewrite bind_ok by reflexivity.
      apply bind_blocked.
      apply broadcastUniqueNCCLID_waits; assumption.
    + reflexivity.
    + reflexivity.
  - intros Hr0 bytes Hbytes. split.
    + intros Hw.
      destruct (proj1 (bytes_to_ncclUniqueId_width bytes) Hw) as [ncclID Hid].
      assert (obtain_unique_id (note_devices devices s)
                (note_devices devices s)
              = (Ok ncclID,
                 set_ncclCommCounter_ (wrap_uint64 (ncclCommCounter_ s + 1))
                   (note_devices devices s))) as Hid'.
      { unfold obtain_unique_id. cbn [rank_ note_devices set_usedDeviceIdxs_].
        destruct (Z.eqb_spec (rank_ s) 0) as [E|_]; [contradiction|].
        erewrite bind_ok by reflexivity.
        erewrite broadcastUniqueNCCLID_other by eauto. now rewrite Hid. }
      destruct (getNCCLComm_miss devicesKey devices s _ ncclID Hkey Hmiss Hid'
                  eq_refl eq_refl eq_refl)
        as (ps & s' & Hrun & Hl & Hc & _ & Hst & Hcnt & Hm).
      exists ncclID, ps, s'. split; [now apply bytes_to_ncclUniqueId_Some|].
      split; [|exact Hst]. eapply Hcreated; eauto; reflexivity.
    + intros Hw.
      pose proof (proj2 (bytes_to_ncclUniqueId_width bytes) Hw) as Hid.
      eexists _, _. split; [|split; [|split]].
      * unfold getNCCLComm. rewrite bool_decide_eq_false_2 by exact Hkey.
        erewrite bind_ok by reflexivity.
        erewrite bind_ok by reflexivity.
        fold (note_devices devices s).
        replace (devNCCLCommMap_ (note_devices devices s) !! devicesKey)
          with (@None (list CommPtr)) by (symmetry; exact Hmiss).
        cbn [rank_ note_devices set_usedDeviceIdxs_].
        destruct (Z.eqb_spec (rank_ s) 0) as [E|_]; [contradiction|].
        erewrite bind_ok by reflexivity.
        apply bind_throw.
        erewrite broadcastUniqueNCCLID_other by eauto. now rewrite Hid.
      * reflexivity.
      * reflexivity.
      * reflexivity.
Qed.

Lemma getNCCLComm_first_time_witness :
  exists ps s',
    getNCCLComm "0,1" [0; 1] (idle_state 0 2 false [example_id]) = (Ok ps, s')
    /\ length ps = 2%nat
    /\ store s' = <["0"%string := vec_to_list example_id]> ∅.
Proof.
  pose proof (getNCCLComm_first_time "0,1" [0; 1]
                (idle_state 0 2 false [example_id])) as H.
  cbv zeta in H. destruct H as [H0 _].
  - discriminate.
  - reflexivity.
  - cbn; lia.
  - cbn; lia.
  - cbn; lia.
  - cbn; lia.
  - destruct (H0 eq_refl example_id [] eq_refl)
      as (ps & s' & (Hrun & Hl & _) & Hst).
    exists ps, s'. split; [exact Hrun|]. split; [exact Hl | exact Hst].
Defined.

(** ** Aborting communicators *)

Lemma heap_le_refl (h : gmap CommPtr NCCLComm) : heap_le h h.
Proof. intros p. destruct (h !! p); auto. Qed.

Lemma abort_comm_idem (c : NCCLComm) : abort_comm (abort_comm c) = abort_comm c.
Proof. reflexivity. Qed.

Lemma heap_le_trans (h1 h2 h3 : gmap CommPtr NCCLComm) :
  heap_le h1 h2 -> heap_le h2 h3 -> heap_le h1 h3.
Proof.
  intros H12 H23 p. specialize (H12 p). specialize (H23 p).
  destruct (h1 !! p) as [c1|], (h2 !! p) as [c2|], (h3 !! p) as [c3|];
    try contradiction; auto.
  destruct H12 as [->| ->], H23 as [->| ->]; auto.
Qed.

Lemma heap_le_alter (h : gmap CommPtr NCCLComm) (p : CommPtr) :
  heap_le h (alter abort_comm p h).
Proof.
  intros q. destruct (decide (p = q)) as [<-|Hne].
  - rewrite lookup_alter_eq. destruct (h !! p); cbn; auto.
  - rewrite lookup_alter_ne by exact Hne. destruct (h !! q); auto.
Qed.

Lemma heap_le_lookup (h h' : gmap CommPtr NCCLComm) (p : CommPtr) (c : NCCLComm) :
  heap_le h h' -> h !! p = Some c ->
  exists c', h' !! p = Some c'
             /\ comm_id c' = comm_id c
             /\ comm_asyncErr c' = comm_asyncErr c
             /\ (comm_aborted c = true -> comm_aborted c' = true).
Proof.
  intros H Hp. specialize (H p). rewrite Hp in H.
  destruct (h' !! p) as [c'|]; [|contradiction].
  exists c'. destruct H as [->| ->]; cbn; auto.
Qed.

Lemma heap_le_aborted (h h' : gmap CommPtr NCCLComm) (p : CommPtr) :
  heap_le h h' -> aborted_in h p -> aborted_in h' p.
Proof.
  intros H (c & Hc & Ha).
  destruct (heap_le_lookup h h' p c H Hc) as (c' & Hc' & _ & _ & Hab).
  exists c'. auto.
Qed.

Lemma heap_le_errors (h h' : gmap CommPtr NCCLComm) (l : list (option CommPtr)) :
  heap_le h h' ->
  checkForNCCLErrorsInternal h' l = checkForNCCLErrorsInternal h l.
Proof.
  intros H. induction l as [|[p|] l IH]; cbn; auto.
  pose proof (H p) as Hp.
  destruct (h !! p) as [c|], (h' !! p) as [c'|]; try contradiction; auto.
  destruct Hp as [->| ->]; cbn; now rewrite IH.
Qed.

Lemma alter_abort_aborted (h : gmap CommPtr NCCLComm) (p : CommPtr) :
  is_Some (h !! p) -> aborted_in (alter abort_comm p h) p.
Proof.
  intros [c Hc]. exists (abort_comm c). rewrite lookup_alter_eq, Hc. auto.
Qed.

Lemma all_valid_le (h h' : gmap CommPtr NCCLComm) (ps : list CommPtr) :
  heap_le h h' -> all_valid h ps -> all_valid h' ps.
Proof.
  intros H Hv. unfold all_valid. eapply Forall_impl; [exact Hv|].
  intros p [c Hc]. cbn.
  destruct (heap_le_lookup h h' p c H Hc) as (c' & Hc' & _). eauto.
Qed.

Lemma checkForNCCLErrorsInternal_valid (h : gmap CommPtr NCCLComm)
    (ps : list CommPtr) :
  all_valid h ps ->
  exists err, checkForNCCLErrorsInternal h (Some <$> ps) = Ok err.
Proof.
  induction 1 as [|p ps [c Hc] _ IH]; cbn; [eauto|].
  rewrite Hc. destruct (negb _); eauto.
Qed.

Lemma comm_abort_run (p : CommPtr) (s : State) :
  comm_abort p s
  = (Ok tt, set_comms (alter abort_comm p (comms s))
              (logged [ncclCommAbort p] s)).
Proof. reflexivity. Qed.

Lemma comm_getNcclId_run (p : CommPtr) (c : NCCLComm) (s : State) :
  comms s !! p = Some c -> comm_getNcclId p s = (Ok (comm_id c), s).
Proof.
  intros H. unfold comm_getNcclId, bind, get_state. now rewrite H.
Qed.

Lemma aborts_only_refl (s : State) : aborts_only s s.
Proof. repeat split. apply heap_le_refl. Qed.

Lemma aborts_only_trans (s1 s2 s3 : State) :
  aborts_only s1 s2 -> aborts_only s2 s3 -> aborts_only s1 s3.
Proof.
  intros (?&?&?&H12) (?&?&?&H23). repeat split; try congruence.
  eapply heap_le_trans; eauto.
Qed.

(** The loop that collects the ids of a group only reads. *)
Lemma collect_ids_run (ps : list CommPtr) (acc : gset string) (s : State) :
  all_valid (comms s) ps ->
  exists ids,
    fold_each ps (fun p all =>
        id <- comm_getNcclId p ;;; ret ({[buildNcclUniqueIdStr id]} ∪ all))
      acc s = (Ok ids, s).
Proof.
  intros Hv. revert acc. induction Hv as [|p ps [c Hc] _ IH]; intros acc.
  - eexists; reflexivity.
  - cbn [fold_each].
    destruct (IH ({[buildNcclUniqueIdStr (comm_id c)]} ∪ acc)) as [ids Hids].
    exists ids.
    erewrite bind_ok
      by (erewrite bind_ok by (apply comm_getNcclId_run; exact Hc);
          reflexivity).
    exact Hids.
Qed.

(** The loop that aborts the communicators of a group. *)
Lemma abort_group_run (ps : list CommPtr) (acc : gset string) (s : State) :
  all_valid (comms s) ps ->
  exists ids s',
    fold_each ps (fun p aborted =>
        comm_abort p ;;;
        id <- comm_getNcclId p ;;;
        ret ({[buildNcclUniqueIdStr id]} ∪ aborted))
      acc s = (Ok ids, s')
    /\ aborts_only s s'
    /\ store s' = store s /\ abortedComms_ s' = abortedComms_ s
    /\ Forall (aborted_in (comms s')) ps.
Proof.
  revert acc s. induction ps as [|p ps IH]; intros acc s Hv.
  - exists acc, s. repeat split; auto using heap_le_refl.
  - inversion Hv as [|? ? [c Hc] Hv']; subst.
    set (s1 := set_comms (alter abort_comm p (comms s))
                 (logged [ncclCommAbort p] s)).
    assert (heap_le (comms s) (comms s1)) as Hle by apply heap_le_alter.
    destruct (heap_le_lookup _ _ p c Hle Hc) as (c1 & Hc1 & _).
    destruct (IH ({[buildNcclUniqueIdStr (comm_id c1)]} ∪ acc) s1)
      as (ids & s' & Hrun & Hfr & Hst & Hab & Hall).
    { eapply all_valid_le; eauto. }
    exists ids, s'. split; [|split; [|split; [|split]]].
    + cbn [fold_each].
      erewrite bind_ok
        by (erewrite bind_ok by (apply comm_abort_run);
            erewrite bind_ok by (apply comm_getNcclId_run; exact Hc1);
            reflexivity).
      exact Hrun.
    + eapply aborts_only_trans; [|exact Hfr]. repeat split. exact Hle.
    + rewrite Hst. reflexivity.
    + rewrite Hab. reflexivity.
    + constructor; [|exact Hall].
      destruct Hfr as (_ & _ & _ & Hle').
      eapply heap_le_aborted; [exact Hle'|].
      apply alter_abort_aborted. eauto.
Qed.

(** ** One turn of the watchdog *)

Lemma watchdog_scan_entry_run (ps : list CommPtr)
    (acc : gset string * gset string) (s : State) :
  all_valid (comms s) ps ->
  exists acc' s',
    watchdog_scan_entry ps acc s = (Ok acc', s')
    /\ aborts_only s s'
    /\ store s' = store s /\ abortedComms_ s' = abortedComms_ s
    /\ (blockingWait_ s = false -> s' = s)
    /\ (blockingWait_ s = true -> reports_error (comms s) ps ->
        Forall (aborted_in (comms s')) ps).
Proof.
  intros Hv. unfold watchdog_scan_entry.
  destruct (collect_ids_run ps acc.1 s Hv) as [all Hall].
  destruct (checkForNCCLErrorsInternal_valid _ _ Hv) as [err Herr].
  assert (checkForNCCLErrors (Some <$> ps) s = (Ok err, s)) as Hcheck.
  { unfold checkForNCCLErrors, bind, get_state, lift. now rewrite Herr. }
  erewrite bind_ok by reflexivity.
  rewrite (bind_ok _ _ _ _ _ Hall).
  rewrite (bind_ok _ _ _ _ _ Hcheck).
  destruct err as [e|].
  - destruct (blockingWait_ s) eqn:Hb.
    + destruct (abort_group_run ps acc.2 s Hv)
        as (ids & s' & Hrun & Hfr & Hst & Hab & Hdone).
      exists (all, ids), s'. rewrite (bind_ok _ _ _ _ _ Hrun).
      repeat split; auto; try apply Hfr. discriminate.
    + exists (all, acc.2), s.
      repeat split; auto using heap_le_refl. discriminate.
  - exists (all, acc.2), s.
    repeat split; auto using heap_le_refl.
    intros _ [e He]. rewrite Herr in He. discriminate.
Qed.

Lemma watchdog_scan_run (entries : list (string * list CommPtr)) :
  forall (acc : gset string * gset string) (s : State),
    Forall (fun entry => all_valid (comms s) entry.2) entries ->
    exists acc' s',
      fold_each entries
        (fun entry acc => watchdog_scan_entry entry.2 acc) acc s
      = (Ok acc', s')
      /\ aborts_only s s'
      /\ store s' = store s /\ abortedComms_ s' = abortedComms_ s
      /\ (blockingWait_ s = false -> s' = s)
      /\ (blockingWait_ s = true ->
          Forall (fun entry =>
                    reports_error (comms s) entry.2 ->
                    Forall (aborted_in (comms s')) entry.2) entries).
Proof.
  induction entries as [|entry entries IH]; intros acc s Hv.
  - exists acc, s. repeat split; auto using heap_le_refl.
  - inversion Hv as [|? ? Hv1 Hv2]; subst.
    destruct (watchdog_scan_entry_run entry.2 acc s Hv1)
      as (acc1 & s1 & Hrun1 & Hfr1 & Hst1 & Hab1 & Hnb1 & Hb1).
    pose proof Hfr1 as (_ & _ & Hbw1 & Hle1).
    destruct (IH acc1 s1) as (acc' & s' & Hrun & Hfr & Hst & Hab & Hnb & Hb).
    { eapply Forall_impl; [exact Hv2|]. intros e He. cbn in *.
      eapply all_valid_le; eauto. }
    pose proof Hfr as (_ & _ & _ & Hle).
    exists acc', s'. cbn [fold_each]. rewrite (bind_ok _ _ _ _ _ Hrun1).
    split; [exact Hrun|]. split; [eapply aborts_only_trans; eauto|].
    split; [congruence|]. split; [congruence|]. split.
    + intros Hf. rewrite Hnb; [now apply Hnb1|].
      rewrite (Hnb1 Hf). exact Hf.
    + intros Ht. constructor.
      * intros Herr. specialize (Hb1 Ht Herr).
        eapply Forall_impl; [exact Hb1|]. intros p Hp.
        eapply heap_le_aborted; eauto.
      * assert (blockingWait_ s1 = true) as Ht1 by congruence.
        eapply Forall_impl; [exact (Hb Ht1)|]. intros e He [x Hx]. apply He.
        exists x. rewrite <- Hx. apply heap_le_errors. exact Hle1.
Qed.

Lemma abort_all_run (ps : list CommPtr) (s : State) :
  exists s', for_each ps comm_abort s = (Ok tt, s')
             /\ aborts_only s s'.
Proof.
  revert s. induction ps as [|p ps IH]; intros s.
  - exists s. split; [reflexivity | apply aborts_only_refl].
  - destruct (IH (set_comms (alter abort_comm p (comms s))
                    (logged [ncclCommAbort p] s))) as (s' & Hrun & Hfr).
    exists s'. cbn [for_each].
    rewrite (bind_ok _ _ _ _ _ (comm_abort_run p s)).
    split; [exact Hrun|].
    eapply aborts_only_trans; [|exact Hfr].
    repeat split. apply heap_le_alter.
Qed.

Lemma watchdog_follow_abort_run (commId : string) (s : State) :
  exists s', watchdog_follow_abort commId s = (Ok tt, s')
             /\ aborts_only s s'.
Proof.
  unfold watchdog_follow_abort, try_catch.
  unfold store_wait at 1.
  destruct (store s !! getNcclAbortedCommStoreKey commId) as [v|] eqn:Hst.
  - destruct (ncclIdToCommMap_ s !! commId) as [ps|] eqn:Hps.
    + destruct (abort_all_run ps s) as (s1 & Hrun & Hfr).
      eexists. split.
      * erewrite bind_ok
          by (erewrite bind_ok by reflexivity; rewrite Hst; reflexivity).
        erewrite bind_ok by reflexivity. rewrite Hps.
        rewrite (bind_ok _ _ _ _ _ Hrun). reflexivity.
      * eapply aborts_only_trans; [exact Hfr|]. repeat split.
        apply heap_le_refl.
    + exists s. split; [|apply aborts_only_refl].
      erewrite bind_ok
        by (erewrite bind_ok by reflexivity; rewrite Hst; reflexivity).
      erewrite bind_ok by reflexivity. rewrite Hps. reflexivity.
  - exists s. split; [|apply aborts_only_refl].
    erewrite bind_throw
      by (erewrite bind_ok by reflexivity; rewrite Hst; reflexivity).
    reflexivity.
Qed.

Lemma watchdog_publish_run (ids : list string) (s : State) :
  exists s',
    for_each ids (fun abortedCommId =>
      modify (fun s =>
        set_abortedComms_ ({[abortedCommId]} ∪ abortedComms_ s) s) ;;;
      store_set the_store (getNcclAbortedCommStoreKey abortedCommId) []) s
    = (Ok tt, s')
    /\ aborts_only s s'
    /\ (forall k, store s !! k = Some [] -> store s' !! k = Some [])
    /\ (forall id, id ∈ ids ->
          store s' !! getNcclAbortedCommStoreKey id = Some []).
Proof.
  revert s. induction ids as [|id ids IH]; intros s.
  - exists s. split; [reflexivity|]. split; [apply aborts_only_refl|].
    split; [auto|]. intros id Hid. now apply elem_of_nil in Hid.
  - cbn [for_each].
    erewrite bind_ok by (erewrite bind_ok by reflexivity; reflexivity).
    match goal with |- context [for_each ids _ ?s1] =>
      destruct (IH s1) as (s' & Hrun & Hfr & Hkeep & Hpub) end.
    cbn [store set_store set_abortedComms_] in Hkeep.
    exists s'. split; [exact Hrun|]. split; [|split].
    + eapply aborts_only_trans; [|exact Hfr]. repeat split.
      apply heap_le_refl.
    + intros k Hk. apply Hkeep.
      destruct (decide (getNcclAbortedCommStoreKey id = k)) as [<-|Hne].
      * apply lookup_insert_eq.
      * now rewrite lookup_insert_ne.
    + intros id' Hid'. apply elem_of_cons in Hid' as [->|Hid'].
      * apply Hkeep, lookup_insert_eq.
      * now apply Hpub.
Qed.

Lemma watchdog_follow_run (ids : list string) (s : State) :
  exists s',
    for_each ids (fun commId =>
      s' <- get_state ;;;
      if bool_decide (commId ∈ abortedComms_ s') then ret tt
      else watchdog_follow_abort commId) s
    = (Ok tt, s')
    /\ aborts_only s s'.
Proof.
  revert s. induction ids as [|id ids IH]; intros s.
  - exists s. split; [reflexivity | apply aborts_only_refl].
  - cbn [for_each].
    assert (exists s1,
              (s' <- get_state ;;;
               if bool_decide (id ∈ abortedComms_ s') then ret tt
               else watchdog_follow_abort id) s = (Ok tt, s1)
              /\ aborts_only s s1) as (s1 & Hstep & Hfr1).
    { erewrite bind_ok by reflexivity. case_bool_decide.
      - exists s. split; [reflexivity | apply aborts_only_refl].
      - apply watchdog_follow_abort_run. }
    destruct (IH s1) as (s' & Hrun & Hfr).
    exists s'. rewrite (bind_ok _ _ _ _ _ Hstep).
    split; [exact Hrun|]. eapply aborts_only_trans; eauto.
Qed.

(** With blocking wait off a turn of the watchdog changes nothing, whatever
    it finds in the cache. *)
Lemma bind_unchanged {A B} (m : M A) (k : A -> M B) (s : State) :
  (m s).2 = s -> (forall a, m s = (Ok a, s) -> (k a s).2 = s) ->
  (bind m k s).2 = s.
Proof.
  unfold bind. destruct (m s) as [[a| | |] s1]; cbn; intros ->; auto.
Qed.

Lemma fold_each_unchanged {A W} (l : list A) (body : A -> W -> M W) (s : State) :
  (forall a w, (body a w s).2 = s) ->
  forall w, (fold_each l body w s).2 = s.
Proof.
  intros Hbody. induction l as [|a l IH]; intros w; cbn [fold_each].
  - reflexivity.
  - apply bind_unchanged; auto.
Qed.

Lemma read_only_comm_getNcclId (p : CommPtr) : read_only (comm_getNcclId p).
Proof.
  intros s. unfold comm_getNcclId, bind, get_state.
  destruct (comms s !! p); reflexivity.
Qed.

Lemma read_only_checkForNCCLErrors (l : list (option CommPtr)) :
  read_only (checkForNCCLErrors l).
Proof.
  apply read_only_bind; [apply read_only_get_state|].
  intros; apply read_only_lift.
Qed.

Lemma watchdog_scan_entry_nonblocking (ps : list CommPtr)
    (acc : gset string * gset string) (s : State) :
  blockingWait_ s = false -> (watchdog_scan_entry ps acc s).2 = s.
Proof.
  intros Hb. unfold watchdog_scan_entry.
  apply bind_unchanged; [reflexivity|]. intros s0 [= <-].
  apply bind_unchanged.
  { apply read_only_fold_each. intros p all.
    apply read_only_bind; [apply read_only_comm_getNcclId|].
    intros; apply read_only_ret. }
  intros all _. apply bind_unchanged; [apply read_only_checkForNCCLErrors|].
  intros err _. rewrite Hb. destruct err; reflexivity.
Qed.

Lemma watchdog_nonblocking_unchanged (s : State) :
  blockingWait_ s = false -> (ncclCommWatchdog_iteration s).2 = s.
Proof.
  intros Hb. unfold ncclCommWatchdog_iteration.
  apply bind_unchanged; [reflexivity|]. intros s0 [= <-].
  apply bind_unchanged.
  { apply fold_each_unchanged. intros entry acc.
    now apply watchdog_scan_entry_nonblocking. }
  intros ids _. rewrite Hb. reflexivity.
Qed.

(** C2.  In a turn of the watchdog: when blocking wait is off the state
    after the turn is the state before it (no communicator aborted, nothing
    written to the store, no id added to the locally-aborted set), whether
    or not a group reports an error; when it is on and the pointers of the
    cache are live, the turn returns, every communicator of a cached group
    that reports an asynchronous error is aborted, and the communicator
    cache is as it was. *)
Theorem watchdog_aborts_only_when_blocking (s : State) :
  (blockingWait_ s = false -> (ncclCommWatchdog_iteration s).2 = s)
  /\ ((forall key ps, devNCCLCommMap_ s !! key = Some ps ->
                     all_valid (comms s) ps) ->
      exists s',
        ncclCommWatchdog_iteration s = (Ok tt, s')
        /\ devNCCLCommMap_ s' = devNCCLCommMap_ s
        /\ (blockingWait_ s = true ->
            forall key ps,
              devNCCLCommMap_ s !! key = Some ps ->
              reports_error (comms s) ps ->
              forall p, p ∈ ps -> aborted_in (comms s') p)).
Proof.
  split; [apply watchdog_nonblocking_unchanged|].
  intros Hvalid.
  destruct (watchdog_scan_run (map_to_list (devNCCLCommMap_ s)) (∅, ∅) s)
    as (ids & s1 & Hscan & Hfr1 & Hst1 & Hab1 & Hnb1 & Hb1).
  { apply Forall_forall. intros [key ps] Hin. cbn.
    apply (Hvalid key). now apply elem_of_map_to_list. }
  unfold ncclCommWatchdog_iteration.
  erewrite bind_ok by reflexivity.
  rewrite (bind_ok _ _ _ _ _ Hscan).
  destruct (blockingWait_ s) eqn:Hb.
  - destruct (watchdog_publish_run (elements ids.2) s1)
      as (s2 & Hpub & Hfr2 & _).
    destruct (watchdog_follow_run (elements ids.1) s2) as (s3 & Hfol & Hfr3).
    exists s3. rewrite (bind_ok _ _ _ _ _ Hpub).
    pose proof (aborts_only_trans _ _ _ Hfr1
                  (aborts_only_trans _ _ _ Hfr2 Hfr3)) as (Hm & _ & _ & Hle).
    pose proof (aborts_only_trans _ _ _ Hfr2 Hfr3) as (_ & _ & _ & Hle23).
    split; [exact Hfol|]. split; [exact Hm|].
    intros _ key ps Hkey Herr p Hp.
    specialize (Hb1 eq_refl). rewrite Forall_forall in Hb1.
    assert ((key, ps) ∈ map_to_list (devNCCLCommMap_ s)) as Hin
      by (now apply elem_of_map_to_list).
    pose proof (Hb1 (key, ps) Hin Herr) as Hdone.
    rewrite Forall_forall in Hdone.
    eapply heap_le_aborted; [exact Hle23|]. now apply Hdone.
  - exists s1. split; [reflexivity|].
    destruct Hfr1 as (Hm & _). split; [exact Hm | discriminate].
Qed.

(** A group whose communicator reports an error, in a process group with
    blocking wait on: after the turn the communicator is aborted and the
    cache is unchanged. *)
Lemma watchdog_aborts_only_when_blocking_witness :
  exists s',
    ncclCommWatchdog_iteration erroring_state = (Ok tt, s')
    /\ aborted_in (comms s') 0%nat
    /\ devNCCLCommMap_ s' = devNCCLCommMap_ erroring_state.
Proof.
  destruct (proj2 (watchdog_aborts_only_when_blocking erroring_state))
    as (s' & Hrun & Hm & Hb).
  - intros key ps H. cbn in H.
    apply lookup_singleton_Some in H as [_ <-].
    constructor; [|constructor]. eexists. reflexivity.
  - exists s'. split; [exact Hrun|]. split; [|exact Hm].
    apply (Hb eq_refl "0"%string [0%nat]).
    + reflexivity.
    + eexists. reflexivity.
    + apply list_elem_of_here.
Defined.

(** ** The timeout branch of synchronize *)

Lemma abort_and_publish_run (p : CommPtr) (c : NCCLComm) (s : State) :
  comms s !! p = Some c ->
  abort_and_publish the_store (Some p) s
  = (Ok tt,
     set_store (<[getNcclAbortedCommStoreKey (buildNcclUniqueIdStr (comm_id c))
                  := []]> (store s))
       (set_comms (alter abort_comm p (comms s))
          (logged [ncclCommAbort p] s))).
Proof.
  intros Hc. unfold abort_and_publish.
  rewrite (bind_ok _ _ _ _ _ (comm_abort_run p s)).
  erewrite bind_ok
    by (apply (comm_getNcclId_run p (abort_comm c));
        cbn [comms set_comms]; rewrite lookup_alter_eq, Hc; reflexivity).
  reflexivity.
Qed.

(** Without a store, the first communicator is aborted and the write of
    its marker dereferences the null pointer. *)
Lemma abort_and_publish_null (p : CommPtr) (c : NCCLComm) (s : State) :
  comms s !! p = Some c ->
  abort_and_publish null_store (Some p) s
  = (Undefined "null shared_ptr<Store>",
     set_comms (alter abort_comm p (comms s)) (logged [ncclCommAbort p] s)).
Proof.
  intros Hc. unfold abort_and_publish.
  rewrite (bind_ok _ _ _ _ _ (comm_abort_run p s)).
  erewrite bind_ok
    by (apply (comm_getNcclId_run p (abort_comm c));
        cbn [comms set_comms]; rewrite lookup_alter_eq, Hc; reflexivity).
  reflexivity.
Qed.

(** With a store, every communicator of the work is aborted and the marker
    of each is in the store afterwards, with an empty value. *)
Lemma abort_and_publish_all (ps : list CommPtr) :
  forall s : State,
    all_valid (comms s) ps ->
    exists s',
      for_each (Some <$> ps) (abort_and_publish the_store) s = (Ok tt, s')
      /\ aborts_only s s'
      /\ Forall (aborted_in (comms s')) ps
      /\ (forall k, store s !! k = Some [] -> store s' !! k = Some [])
      /\ (forall p c, p ∈ ps -> comms s !! p = Some c ->
            store s' !! getNcclAbortedCommStoreKey
                          (buildNcclUniqueIdStr (comm_id c)) = Some []).
Proof.
  induction ps as [|p ps IH]; intros s Hv.
  - exists s. split; [reflexivity|]. split; [apply aborts_only_refl|].
    split; [constructor|]. split; [auto|].
    intros p c Hp. now apply elem_of_nil in Hp.
  - inversion Hv as [|? ? [c Hc] Hv']; subst.
    pose proof (abort_and_publish_run p c s Hc) as Hstep.
    set (s1 := set_store _ _) in Hstep.
    assert (heap_le (comms s) (comms s1)) as Hle by apply heap_le_alter.
    destruct (IH s1) as (s' & Hrun & Hfr & Hall & Hkeep & Hpub).
    { eapply all_valid_le; eauto. }
    pose proof Hfr as (_ & _ & _ & Hle').
    exists s'. rewrite fmap_cons. cbn [for_each].
    rewrite (bind_ok _ _ _ _ _ Hstep).
    split; [exact Hrun|]. split; [|split; [|split]].
    + eapply aborts_only_trans; [|exact Hfr]. repeat split. exact Hle.
    + constructor; [|exact Hall].
      eapply heap_le_aborted; [exact Hle'|].
      apply alter_abort_aborted. eauto.
    + intros k Hk. apply Hkeep. unfold s1. cbn [store set_store].
      destruct (decide (getNcclAbortedCommStoreKey
                          (buildNcclUniqueIdStr (comm_id c)) = k)) as [<-|Hne].
      * apply lookup_insert_eq.
      * now rewrite lookup_insert_ne.
    + intros q cq Hq Hcq. apply elem_of_cons in Hq as [->|Hq].
      * rewrite Hc in Hcq. injection Hcq as <-.
        apply Hkeep. unfold s1. cbn [store set_store]. apply lookup_insert_eq.
      * destruct (heap_le_lookup _ _ q cq Hle Hcq) as (cq' & Hcq' & Hid & _).
        rewrite <- Hid. now apply (Hpub q cq').
Qed.

Lemma abort_on_timeout_publishes (w : WorkNCCL) (ps : list CommPtr) (s : State) :
  w_store_ w = the_store -> ncclComms_ w = Some <$> ps ->
  all_valid (comms s) ps ->
  exists s',
    abort_on_timeout w s = (Throw (runtime_error "Operation timed out!"), s')
    /\ Forall (aborted_in (comms s')) ps
    /\ (forall p c, p ∈ ps -> comms s !! p = Some c ->
          store s' !! abort_marker_key_unpadded (comm_id c) = Some []).
Proof.
  intros Hst Hcs Hv. unfold abort_on_timeout. rewrite Hst, Hcs.
  destruct (abort_and_publish_all ps s Hv) as (s' & Hrun & _ & Hall & _ & Hpub).
  exists s'. rewrite (bind_ok _ _ _ _ _ Hrun).
  split; [reflexivity|]. split; [exact Hall|].
  intros p c Hp Hc. rewrite <- abort_marker_key_eq. eauto.
Qed.

Lemma abort_on_timeout_null_store (w : WorkNCCL) (p : CommPtr)
    (rest : list (option CommPtr)) (c : NCCLComm) (s : State) :
  w_store_ w = null_store -> ncclComms_ w = Some p :: rest ->
  comms s !! p = Some c ->
  exists s',
    abort_on_timeout w s = (Undefined "null shared_ptr<Store>", s')
    /\ store s' = store s
    /\ aborted_in (comms s') p.
Proof.
  intros Hst Hcs Hc. unfold abort_on_timeout. rewrite Hst, Hcs.
  cbn [for_each]. eexists. split.
  - unfold bind at 1. unfold bind at 1.
    rewrite (abort_and_publish_null p c s Hc). reflexivity.
  - split; [reflexivity|]. cbn [comms set_comms].
    apply alter_abort_aborted. eauto.
Qed.

(** C8.  The key of the abort marker is not the per-byte serialization
    of the unique id.  [buildNcclUniqueIdStr] prints each byte as a number,
    without padding, so a byte below 16 gives one digit where its
    hexadecimal representation has two: the key of an id is
    "NCCLABORTEDCOMM:" followed by the two lower-case digits of each byte
    exactly when no byte of the id is below 16.  The id that starts with
    the bytes 01 23 and goes on with zeros does not get that key; it gets
    the key of the id that starts with 12 03, a different id, whose
    per-byte serialization is different. *)
Theorem abort_marker_key_not_per_byte :
  (forall ncclID : ncclUniqueId,
     getNcclAbortedCommStoreKey (buildNcclUniqueIdStr ncclID)
     = abort_marker_key_spec ncclID
     <-> Forall (fun b => (16 <= Byte.to_N b)%N) (vec_to_list ncclID))
  /\ getNcclAbortedCommStoreKey (buildNcclUniqueIdStr id_01_23)
     <> abort_marker_key_spec id_01_23
  /\ id_01_23 <> id_12_03
  /\ getNcclAbortedCommStoreKey (buildNcclUniqueIdStr id_01_23)
     = getNcclAbortedCommStoreKey (buildNcclUniqueIdStr id_12_03)
  /\ abort_marker_key_spec id_01_23 <> abort_marker_key_spec id_12_03.
Proof.
  assert (forall ncclID : ncclUniqueId,
            getNcclAbortedCommStoreKey (buildNcclUniqueIdStr ncclID)
            = abort_marker_key_spec ncclID
            <-> Forall (fun b => (16 <= Byte.to_N b)%N) (vec_to_list ncclID))
    as Hiff.
  { intros ncclID. rewrite abort_marker_key_eq.
    unfold abort_marker_key_unpadded, abort_marker_key_spec.
    rewrite <- concat_hex_padded_iff. split.
    - apply (inj (String.app _)).
    - intros ->. reflexivity. }
  split; [exact Hiff|]. split.
  - intros Heq. apply Hiff in Heq.
    apply Forall_cons in Heq as [Hlow _]. vm_compute in Hlow.
    now apply Hlow.
  - split; [discriminate|]. split.
    + vm_compute; reflexivity.
    + intros Heq. vm_compute in Heq. discriminate Heq.
Qed.

(** ** Which works hold the store *)

Lemma bind_inv_ok {A B} (m : M A) (k : A -> M B) (s s' : State) (b : B) :
  bind m k s = (Ok b, s') ->
  exists a s1, m s = (Ok a, s1) /\ k a s1 = (Ok b, s').
Proof.
  unfold bind. destruct (m s) as [[a| | |] s1]; try discriminate. eauto.
Qed.

Ltac peel H :=
  let a := fresh "a" in
  let s1 := fresh "s" in
  let Hm := fresh "Hm" in
  apply bind_inv_ok in H as (a & s1 & Hm & H); cbn beta in H.

Lemma fold_each_preserves {A W} (P : W -> Prop) (body : A -> W -> M W) :
  (forall a w s w' s', body a w s = (Ok w', s') -> P w -> P w') ->
  forall (l : list A) (w : W) (s : State) (w' : W) (s' : State),
    fold_each l body w s = (Ok w', s') -> P w -> P w'.
Proof.
  intros Hbody. induction l as [|a l IH]; intros w s w' s' Hrun Hw.
  - cbn in Hrun. injection Hrun as <- _. exact Hw.
  - cbn [fold_each] in Hrun. peel Hrun. eauto.
Qed.

Lemma batchedp2p_finish_step_keeps streams ps i work s w' s' :
  batchedp2p_finish_step streams ps i work s = (Ok w', s') ->
  w_store_ w' = w_store_ work /\ exception_ w' = exception_ work.
Proof.
  unfold batchedp2p_finish_step. intros H.
  do 6 peel H. injection H as <- _. auto.
Qed.

Lemma collective_finish_step_sets streams ps i work s w' s' :
  collective_finish_step streams ps i work s = (Ok w', s') ->
  w_store_ w' = the_store /\ exception_ w' = exception_ work.
Proof.
  unfold collective_finish_step. intros H.
  do 6 peel H. injection H as <- _. auto.
Qed.

(** Every work [batchedp2p] returns has the null pointer for its store:
    the loop that fills in the work does not assign [store_]. *)
Lemma batchedp2p_work_without_store send_ptrs send_lengths recv_ptrs
    recv_lengths datatype inputs outputs s w s' :
  batchedp2p send_ptrs send_lengths recv_ptrs recv_lengths datatype
    inputs outputs s = (Ok w, s') ->
  w_store_ w = null_store /\ exception_ w = None.
Proof.
  unfold batchedp2p. intros H.
  do 4 peel H.
  apply bind_inv_ok in H as (work & s5 & Hinit & H). cbn beta in H.
  unfold initWork in Hinit. peel Hinit. injection Hinit as <- _.
  do 6 peel H.
  apply (fold_each_preserves
           (fun w => w_store_ w = null_store /\ exception_ w = None)
           _ (fun i w0 s0 w1 s1' Hstep Hw =>
                match batchedp2p_finish_step_keeps _ _ _ _ _ _ _ Hstep with
                | conj E1 E2 =>
                    conj (eq_trans E1 (proj1 Hw)) (eq_trans E2 (proj2 Hw))
                end)
           _ _ _ _ _ H).
  split; reflexivity.
Qed.

Lemma alltoall_work_without_store outputTensors inputTensors s w s' :
  alltoall outputTensors inputTensors s = (Ok w, s') ->
  w_store_ w = null_store /\ exception_ w = None.
Proof.
  unfold alltoall. intros H. peel H.
  destruct (negb _ || negb _); [discriminate H|].
  do 6 peel H.
  eapply batchedp2p_work_without_store; eauto.
Qed.

(** Every work [collective] returns for a non-empty list of inputs holds
    the store of the process group. *)
Lemma collective_work_with_store inputs outputs fn pre post s w s' :
  inputs <> [] ->
  collective inputs outputs fn pre post s = (Ok w, s') ->
  w_store_ w = the_store /\ exception_ w = None.
Proof.
  unfold collective. intros Hne H.
  do 4 peel H.
  apply bind_inv_ok in H as (work & s5 & Hinit & H). cbn beta in H.
  unfold initWork in Hinit. peel Hinit. injection Hinit as <- _.
  do 6 peel H.
  destruct inputs as [|t inputs]; [contradiction|].
  cbn [length seq fold_each] in H. peel H.
  match goal with
  | Hstep : collective_finish_step _ _ _ _ _ = _ |- _ =>
      apply collective_finish_step_sets in Hstep as [Hst Hex]
  end.
  apply (fold_each_preserves
           (fun w => w_store_ w = the_store /\ exception_ w = None)
           _ (fun i w0 s0 w1 s1' Hstep Hw =>
                match collective_finish_step_sets _ _ _ _ _ _ _ Hstep with
                | conj E1 E2 => conj E1 (eq_trans E2 (proj2 Hw))
                end)
           _ _ _ _ _ H).
  split; [exact Hst | exact Hex].
Qed.

Lemma allreduce_work_with_store tensors op s w s' :
  allreduce tensors op s = (Ok w, s') ->
  w_store_ w = the_store /\ exception_ w = None.
Proof.
  unfold allreduce. intros H. peel H.
  eapply collective_work_with_store; [|exact H].
  rewrite check_gpu_tensors_m_run in Hm. injection Hm as Hm _.
  intros ->. discriminate Hm.
Qed.

(** ** synchronize past the timeout *)

Lemma set_comms_id (s : State) : set_comms (comms s) s = s.
Proof. destruct s; reflexivity. Qed.

Lemma set_exception_id (w : WorkNCCL) :
  exception_ w = None -> set_exception_ None w = w.
Proof. destruct w; cbn; intros ->; reflexivity. Qed.

(** The loop of [synchronize] over the devices only logs calls. *)
Lemma synchronize_events_run (w : WorkNCCL) (s : State) :
  exists calls,
    for_range (length (devices_ w)) (fun i =>
      d <- at_index (devices_ w) i ;;;
      emit (cudaStreamWaitEvent (CurrentStream d) (WorkEvent i)) ;;;
      if negb (bool_decide (barrierTensors_ w = [])) then
        emit (cudaSetDevice d) ;;; emit (cudaDeviceSynchronize d)
      else ret tt) s
    = (Ok tt, logged calls s).
Proof.
  unfold for_range.
  assert (forall m k s, (k + m <= length (devices_ w))%nat ->
            exists calls,
              for_each (seq k m) (fun i =>
                d <- at_index (devices_ w) i ;;;
                emit (cudaStreamWaitEvent (CurrentStream d) (WorkEvent i)) ;;;
                if negb (bool_decide (barrierTensors_ w = [])) then
                  emit (cudaSetDevice d) ;;; emit (cudaDeviceSynchronize d)
                else ret tt) s
              = (Ok tt, logged calls s)) as H.
  { clear s. induction m as [|m IH]; intros k s Hk.
    - exists []. cbn. now rewrite logged_nil.
    - destruct (lookup_lt_is_Some_2 (devices_ w) k ltac:(lia)) as [d Hd].
      cbn [seq for_each].
      destruct (negb (bool_decide (barrierTensors_ w = []))).
      + erewrite bind_ok
          by (rewrite (bind_ok _ _ _ _ _ (at_index_run _ _ _ _ Hd));
              rewrite (bind_ok _ _ _ _ _ (emit_run _ _));
              rewrite (bind_ok _ _ _ _ _ (emit_run _ _));
              apply emit_run).
        destruct (IH (S k) (logged [cudaDeviceSynchronize d]
                              (logged [cudaSetDevice d]
                                 (logged [cudaStreamWaitEvent (CurrentStream d)
                                            (WorkEvent k)] s))) ltac:(lia))
          as [calls Hcalls].
        rewrite Hcalls, !logged_app. eauto.
      + erewrite bind_ok
          by (rewrite (bind_ok _ _ _ _ _ (at_index_run _ _ _ _ Hd));
              rewrite (bind_ok _ _ _ _ _ (emit_run _ _)); reflexivity).
        destruct (IH (S k) (logged [cudaStreamWaitEvent (CurrentStream d)
                                      (WorkEvent k)] s) ltac:(lia))
          as [calls Hcalls].
        rewrite Hcalls, !logged_app. eauto. }
  apply H. lia.
Qed.

(** A blocking wait whose first look finds the work unfinished, without
    error, and past its timeout runs the timeout branch. *)
Lemma synchronize_past_timeout (w : WorkNCCL) (tk : Tick) (rest : list Tick)
    (s : State) :
  w_blockingWait_ w = true -> exception_ w = None ->
  tick_errors tk = [] ->
  checkForNCCLErrorsInternal (comms s) (ncclComms_ w) = Ok None ->
  (forall s', finishedGPUExecutionInternal (tick_queries tk) (devices_ w) s'
              = (Ok false, s')) ->
  w_opTimeout_ w < tick_now tk - workStartTime_ w ->
  exists calls,
    synchronize (tk :: rest) w s
    = bind (abort_on_timeout w) (fun _ => ret w)
        (set_steady_clock (tick_now tk) (logged calls s)).
Proof.
  intros Hb Hex Herrs Hcheck Hfin Hto.
  destruct (synchronize_events_run w s) as [calls Hcalls].
  exists calls. unfold synchronize.
  rewrite (bind_ok _ _ _ _ _ Hcalls), Hb.
  cbn [synchronize_wait].
  assert (observe tk (logged calls s)
          = (Ok tt, set_steady_clock (tick_now tk) (logged calls s))) as Hobs.
  { unfold observe, modify. rewrite Herrs. cbn [fold_left].
    now rewrite set_comms_id. }
  rewrite (bind_ok _ _ _ _ _ Hobs).
  assert (isCompleted (tick_queries tk) w
            (set_steady_clock (tick_now tk) (logged calls s))
          = (Ok (false, w), set_steady_clock (tick_now tk) (logged calls s)))
    as Hdone.
  { unfold isCompleted, checkAndSetException. rewrite Hex.
    unfold checkForNCCLErrors.
    erewrite bind_ok
      by (erewrite bind_ok
            by (erewrite bind_ok by reflexivity;
                cbn [comms set_steady_clock logged set_effects];
                rewrite Hcheck; reflexivity);
          reflexivity).
    rewrite (set_exception_id w Hex), Hex.
    rewrite (bind_ok _ _ _ _ _ (Hfin _)). reflexivity. }
  rewrite (bind_ok _ _ _ _ _ Hdone). cbn [fst snd].
  apply Z.ltb_lt in Hto. rewrite Hto. reflexivity.
Qed.

(** C1.  A work returned by [alltoall] cannot publish the abort marker:
    when its blocking wait runs past the timeout, [synchronize] aborts the
    first communicator of the work and then dereferences the null store
    pointer of the work; nothing is written to the store and no timeout
    error is thrown. *)
Theorem alltoall_work_timeout_without_store
    (s s1 : State) (outputTensors inputTensors : list Tensor) (w : WorkNCCL)
    (tk : Tick) (rest : list Tick) (p : CommPtr) (cs : list (option CommPtr))
    (c : NCCLComm) :
  alltoall outputTensors inputTensors s = (Ok w, s1) ->
  w_blockingWait_ w = true ->
  ncclComms_ w = Some p :: cs -> comms s1 !! p = Some c ->
  tick_errors tk = [] ->
  checkForNCCLErrorsInternal (comms s1) (ncclComms_ w) = Ok None ->
  (forall s', finishedGPUExecutionInternal (tick_queries tk) (devices_ w) s'
              = (Ok false, s')) ->
  w_opTimeout_ w < tick_now tk - workStartTime_ w ->
  exists s2,
    synchronize (tk :: rest) w s1 = (Undefined "null shared_ptr<Store>", s2)
    /\ store s2 = store s1
    /\ aborted_in (comms s2) p.
Proof.
  intros Hrun Hb Hcs Hc Herrs Hcheck Hfin Hto.
  destruct (alltoall_work_without_store _ _ _ _ _ Hrun) as [Hst Hex].
  destruct (synchronize_past_timeout w tk rest s1 Hb Hex Herrs Hcheck Hfin Hto)
    as [calls Hsync].
  destruct (abort_on_timeout_null_store w p cs c
              (set_steady_clock (tick_now tk) (logged calls s1)) Hst Hcs Hc)
    as (s2 & Habort & Hstore & Hab).
  exists s2. rewrite Hsync. unfold bind. rewrite Habort.
  repeat split; auto.
Qed.

(** The same wait on a work returned by [allreduce] aborts every
    communicator of the work, leaves the marker of each in the store and
    throws the timeout error. *)
Lemma allreduce_work_timeout_publishes
    (s s1 : State) (tensors : list Tensor) (op : ReduceOp) (w : WorkNCCL)
    (tk : Tick) (rest : list Tick) (ps : list CommPtr) :
  allreduce tensors op s = (Ok w, s1) ->
  w_blockingWait_ w = true ->
  ncclComms_ w = Some <$> ps -> all_valid (comms s1) ps ->
  tick_errors tk = [] ->
  checkForNCCLErrorsInternal (comms s1) (ncclComms_ w) = Ok None ->
  (forall s', finishedGPUExecutionInternal (tick_queries tk) (devices_ w) s'
              = (Ok false, s')) ->
  w_opTimeout_ w < tick_now tk - workStartTime_ w ->
  exists s2,
    synchronize (tk :: rest) w s1
    = (Throw (runtime_error "Operation timed out!"), s2)
    /\ Forall (aborted_in (comms s2)) ps
    /\ (forall p c, p ∈ ps -> comms s1 !! p = Some c ->
          store s2 !! abort_marker_key_unpadded (comm_id c) = Some []).
Proof.
  intros Hrun Hb Hcs Hv Herrs Hcheck Hfin Hto.
  destruct (allreduce_work_with_store _ _ _ _ _ Hrun) as [Hst Hex].
  destruct (synchronize_past_timeout w tk rest s1 Hb Hex Herrs Hcheck Hfin Hto)
    as [calls Hsync].
  destruct (abort_on_timeout_publishes w ps
              (set_steady_clock (tick_now tk) (logged calls s1)) Hst Hcs Hv)
    as (s2 & Habort & Hall & Hpub).
  exists s2. rewrite Hsync. unfold bind. rewrite Habort.
  repeat split; auto.
Qed.

Lemma alltoall_work_timeout_without_store_witness :
  exists w s1 s2,
    alltoall [dense_float 0 2; dense_float 0 3]
      [dense_float 0 0; dense_float 0 1] blocking_state = (Ok w, s1)
    /\ synchronize [late_tick] w s1 = (Undefined "null shared_ptr<Store>", s2)
    /\ store s2 = store s1.
Proof.
  pose (w0 := {| devices_ := [0]; cudaEvents_ := [Some (PoolStream 0 0)];
                 ncclComms_ := [Some 0%nat]; w_blockingWait_ := true;
                 w_opTimeout_ := 500; workStartTime_ := 0;
                 w_store_ := null_store; exception_ := None;
                 barrierTensors_ := [] |}).
  assert ((alltoall [dense_float 0 2; dense_float 0 3]
             [dense_float 0 0; dense_float 0 1] blocking_state).1 = Ok w0)
    as H1 by (vm_compute; reflexivity).
  assert (comms (alltoall [dense_float 0 2; dense_float 0 3]
                   [dense_float 0 0; dense_float 0 1] blocking_state).2
            !! 0%nat
          = Some (created_comm blocking_state example_id [0] 0)) as H2
    by (vm_compute; reflexivity).
  assert (checkForNCCLErrorsInternal
            (comms (alltoall [dense_float 0 2; dense_float 0 3]
                      [dense_float 0 0; dense_float 0 1] blocking_state).2)
            [Some 0%nat] = Ok None) as H3 by (vm_compute; reflexivity).
  destruct (alltoall [dense_float 0 2; dense_float 0 3]
              [dense_float 0 0; dense_float 0 1] blocking_state)
    as [o s0] eqn:Hr.
  cbn [fst snd] in *. subst o.
  destruct (alltoall_work_timeout_without_store blocking_state s0
              [dense_float 0 2; dense_float 0 3]
              [dense_float 0 0; dense_float 0 1] w0 late_tick []
              0%nat [] _ Hr eq_refl eq_refl H2 eq_refl H3
              (fun s' => eq_refl) eq_refl)
    as (s2 & Hsync & Hst & _).
  exists w0, s0, s2. split; [reflexivity | split; assumption].
Defined.

Lemma alltoall_size_mismatch_witness :
  alltoall [dense_float 0 1] [dense_float 0 0] (idle_state 0 2 false [])
  = (Throw (runtime_error
       "Number of input or output tensors are not equal to group size"),
     idle_state 0 2 false []).
Proof.
  apply alltoall_size_mismatch.
  - cbn; lia.
  - left. cbn; lia.
Defined.

(** ** Further properties *)


Lemma append_nil_l (a : string) : "" +:+ a = a.
Proof. reflexivity. Qed.

Lemma string_all_app (P : ascii -> bool) (a b : string) :
  string_all P (a +:+ b) = string_all P a && string_all P b.
Proof.
  induction a as [|c a IH]; [reflexivity|].
  rewrite append_cons. cbn [string_all]. rewrite IH. now rewrite andb_assoc.
Qed.

Lemma string_all_impl (P Q : ascii -> bool) (s : string) :
  (forall c, P c = true -> Q c = true) ->
  string_all P s = true -> string_all Q s = true.
Proof.
  intros HPQ. induction s as [|c s IH]; [reflexivity|].
  cbn [string_all]. rewrite !andb_true_iff. intros [H1 H2]. auto.
Qed.

Lemma digits_of_app (base : Z) (fuel : nat) :
  forall (u : Z) (acc : string),
    digits_of base fuel u acc = digits_of base fuel u "" +:+ acc.
Proof.
  induction fuel as [|fuel IH]; intros u acc; [reflexivity|].
  cbn [digits_of]. destruct (u =? 0); [reflexivity|].
  rewrite (IH _ (String _ acc)), (IH _ (String _ "")).
  now rewrite string_app_assoc.
Qed.

Lemma decimal_digit_char (r : Z) :
  0 <= r < 10 ->
  isdigit (digit_char r) = true /\ digit_value (digit_char r) = r.
Proof.
  intros H.
  assert (r = 0 \/ r = 1 \/ r = 2 \/ r = 3 \/ r = 4 \/ r = 5 \/ r = 6
          \/ r = 7 \/ r = 8 \/ r = 9) as Hr by lia.
  repeat (destruct Hr as [-> | Hr]; [split; reflexivity|]).
  subst r. split; reflexivity.
Qed.

Lemma digits_of_decimal (fuel : nat) :
  forall u : Z, 0 <= u -> string_all isdigit (digits_of 10 fuel u "") = true.
Proof.
  induction fuel as [|fuel IH]; intros u Hu; [reflexivity|].
  cbn [digits_of]. destruct (u =? 0); [reflexivity|].
  rewrite digits_of_app, string_all_app, IH by (apply Z.div_pos; lia).
  cbn [string_all andb].
  destruct (decimal_digit_char (u mod 10)) as [-> _]; [|reflexivity].
  apply Z.mod_pos_bound. lia.
Qed.

Lemma digits_of_nonempty (base : Z) (fuel : nat) (u : Z) :
  u <> 0 -> digits_of base (S fuel) u "" <> ""%string.
Proof.
  intros Hu. cbn [digits_of].
  destruct (Z.eqb_spec u 0) as [|_]; [contradiction|].
  rewrite digits_of_app.
  destruct (digits_of base fuel (u / base) ""); discriminate.
Qed.

Lemma parse_digits_app (a b : string) :
  forall acc : Z,
    string_all isdigit a = true ->
    parse_digits (a +:+ b) acc = parse_digits b (parse_digits a acc).
Proof.
  induction a as [|c a IH]; intros acc; [reflexivity|].
  rewrite append_cons. cbn [string_all parse_digits].
  rewrite andb_true_iff. intros [-> Ha]. now apply IH.
Qed.

Lemma parse_digits_digits_of (fuel : nat) :
  forall u : Z,
    0 <= u < 10 ^ Z.of_nat fuel ->
    parse_digits (digits_of 10 fuel u "") 0 = u.
Proof.
  induction fuel as [|fuel IH]; intros u Hu.
  - cbn in *. lia.
  - cbn [digits_of]. destruct (Z.eqb_spec u 0) as [->|Hnz]; [reflexivity|].
    rewrite digits_of_app, parse_digits_app
      by (apply digits_of_decimal, Z.div_pos; lia).
    rewrite IH.
    + cbn [parse_digits].
      destruct (decimal_digit_char (u mod 10)) as [-> ->].
      { apply Z.mod_pos_bound. lia. }
      pose proof (Z.div_mod u 10). lia.
    + rewrite Nat2Z.inj_succ, Z.pow_succ_r in Hu by lia.
      split; [apply Z.div_pos; lia|].
      apply Z.div_lt_upper_bound; lia.
Qed.

Lemma std_to_string_nonempty (v : Z) : std_to_string v <> ""%string.
Proof.
  unfold std_to_string.
  destruct (Z.eqb_spec v 0); [discriminate|].
  destruct (v <? 0); [discriminate|].
  now apply digits_of_nonempty.
Qed.

(** Reading back what [std::to_string] printed. *)
Lemma read_decimal_std_to_string (v : Z) :
  - 10 ^ 20 < v < 10 ^ 20 -> read_decimal (std_to_string v) = v.
Proof.
  intros Hv. unfold std_to_string.
  destruct (Z.eqb_spec v 0) as [->|Hnz]; [reflexivity|].
  destruct (Z.ltb_spec v 0) as [Hneg|Hpos].
  - cbn [read_decimal]. change (Ascii.eqb "-" "-") with true. cbn match.
    rewrite (parse_digits_digits_of 20); lia.
  - pose proof (digits_of_decimal 20 v ltac:(lia)) as Hd.
    pose proof (digits_of_nonempty 10 19 v Hnz) as Hne.
    pose proof (parse_digits_digits_of 20 v ltac:(lia)) as Hp.
    destruct (digits_of 10 20 v "") as [|c r]; [contradiction|].
    cbn [read_decimal]. cbn [string_all] in Hd.
    apply andb_true_iff in Hd as [Hc _].
    destruct (Ascii.eqb_spec c "-") as [->|_]; [discriminate Hc|].
    exact Hp.
Qed.

Lemma std_to_string_inj (v1 v2 : Z) :
  - 10 ^ 20 < v1 < 10 ^ 20 -> - 10 ^ 20 < v2 < 10 ^ 20 ->
  std_to_string v1 = std_to_string v2 -> v1 = v2.
Proof.
  intros H1 H2 H.
  rewrite <- (read_decimal_std_to_string v1), <- (read_decimal_std_to_string v2)
    by assumption.
  now rewrite H.
Qed.

Lemma std_to_string_no_comma (v : Z) :
  string_all not_comma (std_to_string v) = true.
Proof.
  assert (forall c, isdigit c = true -> not_comma c = true) as Hdc.
  { intros c Hc. unfold not_comma.
    destruct (Ascii.eqb_spec c ",") as [->|]; [discriminate Hc|reflexivity]. }
  unfold std_to_string.
  destruct (Z.eqb_spec v 0) as [->|Hnz]; [reflexivity|].
  destruct (Z.ltb_spec v 0) as [Hneg|Hpos].
  - cbn [string_all]. apply andb_true_iff. split; [reflexivity|].
    apply (string_all_impl isdigit); [exact Hdc|].
    apply digits_of_decimal. lia.
  - apply (string_all_impl isdigit); [exact Hdc|].
    apply digits_of_decimal. lia.
Qed.

(** The key is the first index followed by the others, each after a comma. *)
Lemma getKeyFromDevices_fold (devices : list Z) :
  forall acc : string,
    acc <> ""%string ->
    fold_left
      (fun deviceList index =>
         if bool_decide (deviceList = ""%string) then std_to_string index
         else deviceList +:+ "," +:+ std_to_string index)
      devices acc
    = acc +:+ key_tail devices.
Proof.
  induction devices as [|d devices IH]; intros acc Hacc.
  - cbn. now rewrite string_app_nil_r.
  - cbn [fold_left]. rewrite bool_decide_eq_false_2 by assumption.
    rewrite IH.
    + unfold key_tail. rewrite fmap_cons. cbn [concat_strings].
      now rewrite !string_app_assoc.
    + destruct acc; [contradiction|discriminate].
Qed.

Lemma getKeyFromDevices_cons (d : Z) (devices : list Z) :
  getKeyFromDevices (d :: devices) = std_to_string d +:+ key_tail devices.
Proof.
  unfold getKeyFromDevices. cbn [fold_left].
  rewrite bool_decide_eq_true_2 by reflexivity.
  apply getKeyFromDevices_fold, std_to_string_nonempty.
Qed.

Lemma key_tail_cons (d : Z) (devices : list Z) :
  key_tail (d :: devices) = String "," (std_to_string d +:+ key_tail devices).
Proof.
  unfold key_tail. rewrite fmap_cons. cbn [concat_strings].
  now rewrite string_app_assoc.
Qed.

(** Two texts without commas, each followed by nothing or by a comma, are
    equal when the whole texts are. *)
Lemma comma_free_prefix (a : string) :
  forall b ra rb : string,
    string_all not_comma a = true -> string_all not_comma b = true ->
    (ra = ""%string \/ exists r, ra = String "," r) ->
    (rb = ""%string \/ exists r, rb = String "," r) ->
    a +:+ ra = b +:+ rb -> a = b /\ ra = rb.
Proof.
  induction a as [|c a IH]; intros b ra rb Ha Hb Hra Hrb H.
  - destruct b as [|c' b]; [now split|].
    rewrite append_nil_l, append_cons in H. cbn [string_all] in Hb.
    apply andb_true_iff in Hb as [Hc' _].
    destruct Hra as [->|[r ->]]; [discriminate H|].
    injection H as <- _. discriminate Hc'.
  - destruct b as [|c' b].
    + rewrite append_nil_l, append_cons in H. cbn [string_all] in Ha.
      apply andb_true_iff in Ha as [Hc _].
      destruct Hrb as [->|[r ->]]; [discriminate H|].
      injection H as -> _. discriminate Hc.
    + rewrite !append_cons in H. injection H as -> H.
      cbn [string_all] in Ha, Hb.
      apply andb_true_iff in Ha as [_ Ha]. apply andb_true_iff in Hb as [_ Hb].
      destruct (IH b ra rb Ha Hb Hra Hrb H) as [-> ->]. now split.
Qed.

Lemma key_tail_led (devices : list Z) :
  key_tail devices = ""%string \/ exists r, key_tail devices = String "," r.
Proof.
  destruct devices as [|d devices]; [now left|].
  right. rewrite key_tail_cons. eauto.
Qed.

Lemma key_tail_inj (ds1 : list Z) :
  forall ds2 : list Z,
    Forall (fun d => - 2 ^ 63 <= d < 2 ^ 63) ds1 ->
    Forall (fun d => - 2 ^ 63 <= d < 2 ^ 63) ds2 ->
    key_tail ds1 = key_tail ds2 -> ds1 = ds2.
Proof.
  induction ds1 as [|d1 ds1 IH]; intros ds2 H1 H2 H.
  - destruct ds2 as [|d2 ds2]; [reflexivity|].
    rewrite key_tail_cons in H. discriminate H.
  - destruct ds2 as [|d2 ds2].
    + rewrite key_tail_cons in H. discriminate H.
    + rewrite !key_tail_cons in H. injection H as H.
      apply comma_free_prefix in H
          as [Hd Ht]; auto using std_to_string_no_comma, key_tail_led.
      inversion H1; inversion H2; subst.
      apply std_to_string_inj in Hd; [|lia..].
      f_equal; auto.
Qed.

(** X1. The cache key of a list of devices is empty exactly for the empty
    list, so the sanity check of [getNCCLComm] fires for no other list, and
    two lists of device indices with the same key are the same list: no two
    device lists share an entry of the communicator cache. *)
Theorem getKeyFromDevices_unambiguous (ds1 ds2 : list Z) :
  Forall (fun d => - 2 ^ 63 <= d < 2 ^ 63) ds1 ->
  Forall (fun d => - 2 ^ 63 <= d < 2 ^ 63) ds2 ->
  (getKeyFromDevices ds1 = ""%string <-> ds1 = [])
  /\ (getKeyFromDevices ds1 = getKeyFromDevices ds2 -> ds1 = ds2).
Proof.
  intros H1 H2. split.
  - split; [|now intros ->].
    destruct ds1 as [|d ds1]; [reflexivity|].
    rewrite getKeyFromDevices_cons. intros H.
    pose proof (std_to_string_nonempty d) as Hne.
    destruct (std_to_string d); [contradiction|discriminate H].
  - intros H.
    destruct ds1 as [|d1 ds1], ds2 as [|d2 ds2]; [reflexivity|..].
    + rewrite getKeyFromDevices_cons in H.
      pose proof (std_to_string_nonempty d2) as Hne.
      destruct (std_to_string d2); [contradiction|discriminate H].
    + rewrite getKeyFromDevices_cons in H.
      pose proof (std_to_string_nonempty d1) as Hne.
      destruct (std_to_string d1); [contradiction|discriminate H].
    + rewrite !getKeyFromDevices_cons in H.
      apply comma_free_prefix in H
          as [Hd Ht]; auto using std_to_string_no_comma, key_tail_led.
      inversion H1; inversion H2; subst.
      apply std_to_string_inj in Hd; [|lia..].
      apply key_tail_inj in Ht; auto. now subst.
Qed.

Lemma getKeyFromDevices_unambiguous_witness :
  getKeyFromDevices [1; 0] <> getKeyFromDevices [10].
Proof.
  intros H.
  apply (getKeyFromDevices_unambiguous [1; 0] [10]) in H;
    [discriminate H | repeat constructor; lia..].
Defined.

Lemma keeps_ret {X A} (f : State -> X) (a : A) : keeps f (ret a).
Proof. intros s; reflexivity. Qed.

Lemma keeps_throw {X A} (f : State -> X) (e : Exn) : keeps f (@throw A e).
Proof. intros s; reflexivity. Qed.

Lemma keeps_undefined {X A} (f : State -> X) (w : string) :
  keeps f (@undefined A w).
Proof. intros s; reflexivity. Qed.

Lemma keeps_blocked {X A} (f : State -> X) : keeps f (@blocked A).
Proof. intros s; reflexivity. Qed.

Lemma keeps_get_state {X} (f : State -> X) : keeps f get_state.
Proof. intros s; reflexivity. Qed.

Lemma keeps_lift {X A} (f : State -> X) (o : Outcome A) : keeps f (lift o).
Proof. intros s; reflexivity. Qed.

Lemma keeps_at_index {X A} (f : State -> X) (l : list A) (i : nat) :
  keeps f (at_index l i).
Proof. unfold at_index. destruct (l !! i); intros s; reflexivity. Qed.

Lemma keeps_modify {X} (f : State -> X) (g : State -> State) :
  (forall s, f (g s) = f s) -> keeps f (modify g).
Proof. intros H s. apply H. Qed.

Lemma keeps_bind {X A B} (f : State -> X) (m : M A) (k : A -> M B) :
  keeps f m -> (forall a, keeps f (k a)) -> keeps f (bind m k).
Proof.
  intros Hm Hk s. unfold bind. specialize (Hm s).
  destruct (m s) as [[a| | |] s']; cbn in *; try assumption.
  now rewrite Hk.
Qed.

Lemma keeps_for_each {X A} (f : State -> X) (l : list A) (body : A -> M unit) :
  (forall a, keeps f (body a)) -> keeps f (for_each l body).
Proof.
  intros H. induction l as [|a l IH]; cbn [for_each].
  - apply keeps_ret.
  - apply keeps_bind; auto.
Qed.

Lemma keeps_fold_each {X A W} (f : State -> X) (l : list A)
    (body : A -> W -> M W) :
  (forall a w, keeps f (body a w)) -> forall w, keeps f (fold_each l body w).
Proof.
  intros H. induction l as [|a l IH]; intros w; cbn [fold_each].
  - apply keeps_ret.
  - apply keeps_bind; auto.
Qed.

Lemma keeps_scoped {X A} (f : State -> X) (body : M A) (cleanup : M unit) :
  keeps f body -> keeps f cleanup -> keeps f (scoped body cleanup).
Proof.
  intros Hb Hc s. unfold scoped. specialize (Hb s).
  destruct (body s) as [[a| | |] s']; cbn in *; try assumption.
  - specialize (Hc s'). destruct (cleanup s') as [[[]| | |] s'']; cbn in *;
      congruence.
  - specialize (Hc s'). destruct (cleanup s') as [[[]| | |] s'']; cbn in *;
      congruence.
Qed.

Ltac keeps_step :=
  first
    [ apply keeps_ret | apply keeps_throw | apply keeps_undefined
    | apply keeps_blocked | apply keeps_get_state | apply keeps_lift
    | apply keeps_at_index
    | apply keeps_modify; intros ?; reflexivity
    | apply keeps_bind; [|intros ?]
    | apply keeps_for_each; intros ?
    | apply keeps_fold_each; intros ? ?
    | apply keeps_scoped
    | match goal with
      | |- keeps _ (if ?b then _ else _) => destruct b
      | |- keeps _ (match ?x with _ => _ end) => destruct x
      end ].

Ltac solve_keeps := repeat keeps_step.

Lemma keeps_run {X A} (f : State -> X) (m : M A) (s s' : State) (o : Outcome A) :
  keeps f m -> m s = (o, s') -> f s' = f s.
Proof. intros H Hrun. specialize (H s). now rewrite Hrun in H. Qed.

(** How the unique id is obtained on rank 0 and on the other ranks. *)
Lemma obtain_unique_id_rank0 (s : State) (ncclID : ncclUniqueId)
    (rest : list ncclUniqueId) :
  rank_ s = 0 -> uniqueIds s = ncclID :: rest ->
  obtain_unique_id s s
  = (Ok ncclID,
     set_store (<[std_to_string (ncclCommCounter_ s) := vec_to_list ncclID]>
                  (store s))
       (set_ncclCommCounter_ (wrap_uint64 (ncclCommCounter_ s + 1))
          (set_uniqueIds rest s))).
Proof.
  intros Hr Hids. unfold obtain_unique_id. rewrite Hr. cbn [Z.eqb].
  unfold ncclGetUniqueId.
  erewrite bind_ok
    by (erewrite bind_ok by reflexivity; rewrite Hids; reflexivity).
  now rewrite broadcastUniqueNCCLID_rank0.
Qed.

Lemma obtain_unique_id_other (s : State) (ncclID : ncclUniqueId) :
  rank_ s <> 0 ->
  store s !! std_to_string (ncclCommCounter_ s) = Some (vec_to_list ncclID) ->
  obtain_unique_id s s
  = (Ok ncclID, set_ncclCommCounter_ (wrap_uint64 (ncclCommCounter_ s + 1)) s).
Proof.
  intros Hr Hst. unfold obtain_unique_id.
  destruct (Z.eqb_spec (rank_ s) 0) as [E|_]; [contradiction|].
  erewrite bind_ok by reflexivity.
  erewrite broadcastUniqueNCCLID_other by eauto.
  destruct (proj1 (bytes_to_ncclUniqueId_width (vec_to_list ncclID))
              (length_vec_to_list ncclID)) as [id Hid].
  rewrite Hid.
  apply bytes_to_ncclUniqueId_Some in Hid.
  apply vec_to_list_inj2 in Hid. now subst.
Qed.

(** X2. The rendezvous gives every rank the same unique id: when rank 0 has
    created the communicators of a device list and another rank, whose
    sequence number is the same, then does so against the store as rank 0
    left it, both calls return, each with one communicator per device, and
    the communicators of both ranks carry the id rank 0 obtained. *)
Theorem getNCCLComm_ranks_agree (devicesKey : string) (devices : list Z)
    (s0 s1 : State) (ncclID : ncclUniqueId) (rest : list ncclUniqueId) :
  devicesKey <> ""%string ->
  devNCCLCommMap_ s0 !! devicesKey = None ->
  devNCCLCommMap_ s1 !! devicesKey = None ->
  rank_ s0 = 0 -> rank_ s1 <> 0 ->
  uniqueIds s0 = ncclID :: rest ->
  ncclCommCounter_ s1 = ncclCommCounter_ s0 ->
  store s1 = store (getNCCLComm devicesKey devices s0).2 ->
  exists ps0 s0' ps1 s1',
    getNCCLComm devicesKey devices s0 = (Ok ps0, s0')
    /\ getNCCLComm devicesKey devices s1 = (Ok ps1, s1')
    /\ length ps0 = length devices /\ length ps1 = length devices
    /\ (forall i p, ps0 !! i = Some p ->
          comms s0' !! p = Some (created_comm s0 ncclID devices i))
    /\ (forall i p, ps1 !! i = Some p ->
          comms s1' !! p = Some (created_comm s1 ncclID devices i))
    /\ ncclCommCounter_ s1' = ncclCommCounter_ s0'.
Proof.
  intros Hkey Hmiss0 Hmiss1 Hr0 Hr1 Hids Hcnt Hstore.
  destruct (getNCCLComm_miss devicesKey devices s0 _ ncclID Hkey Hmiss0
              (obtain_unique_id_rank0 (note_devices devices s0) ncclID rest
                 Hr0 Hids) eq_refl eq_refl eq_refl)
    as (ps0 & s0' & Hrun0 & Hl0 & Hc0 & _ & Hst0 & Hcnt0 & _).
  rewrite Hrun0 in Hstore. cbn [snd] in Hstore.
  assert (store (note_devices devices s1)
            !! std_to_string (ncclCommCounter_ (note_devices devices s1))
          = Some (vec_to_list ncclID)) as Hread.
  { cbn [store note_devices set_usedDeviceIdxs_ ncclCommCounter_].
    rewrite Hstore, Hst0, Hcnt.
    cbn [store set_store ncclCommCounter_ set_ncclCommCounter_ set_uniqueIds
           note_devices set_usedDeviceIdxs_].
    apply lookup_insert_eq. }
  destruct (getNCCLComm_miss devicesKey devices s1 _ ncclID Hkey Hmiss1
              (obtain_unique_id_other (note_devices devices s1) ncclID
                 Hr1 Hread) eq_refl eq_refl eq_refl)
    as (ps1 & s1' & Hrun1 & Hl1 & Hc1 & _ & _ & Hcnt1 & _).
  exists ps0, s0', ps1, s1'.
  repeat (split; [assumption|]).
  rewrite Hcnt1, Hcnt0. cbn. now rewrite Hcnt.
Qed.

Lemma getNCCLComm_ranks_agree_witness :
  exists ps0 s0' ps1 s1',
    getNCCLComm "0" [0] (idle_state 0 2 false [example_id]) = (Ok ps0, s0')
    /\ getNCCLComm "0" [0]
         (peer_state 1 (<["0"%string := vec_to_list example_id]> ∅))
       = (Ok ps1, s1')
    /\ ncclCommCounter_ s1' = ncclCommCounter_ s0'.
Proof.
  destruct (getNCCLComm_ranks_agree "0" [0]
              (idle_state 0 2 false [example_id])
              (peer_state 1 (<["0"%string := vec_to_list example_id]> ∅))
              example_id [])
    as (ps0 & s0' & ps1 & s1' & H0 & H1 & _ & _ & _ & _ & Hc);
    [ discriminate | reflexivity | reflexivity | reflexivity | discriminate
    | reflexivity | reflexivity | vm_compute; reflexivity | ].
  exists ps0, s0', ps1, s1'. auto.
Defined.

(** X3. Successive rendezvous use different keys of the store: on rank 0,
    two broadcasts in a row leave both ids in the store, the first under the
    decimal text of the counter and the second under that of its successor,
    as long as the 64-bit counter does not wrap around. *)
Theorem broadcastUniqueNCCLID_keys_distinct (id1 id2 : ncclUniqueId)
    (s : State) :
  rank_ s = 0 -> 0 <= ncclCommCounter_ s < 2 ^ 64 - 1 ->
  exists s1 s2,
    broadcastUniqueNCCLID id1 s = (Ok id1, s1)
    /\ broadcastUniqueNCCLID id2 s1 = (Ok id2, s2)
    /\ ncclCommCounter_ s2 = wrap_uint64 (ncclCommCounter_ s + 2)
    /\ store s2 !! std_to_string (ncclCommCounter_ s) = Some (vec_to_list id1)
    /\ store s2 !! std_to_string (ncclCommCounter_ s + 1)
       = Some (vec_to_list id2).
Proof.
  intros Hr Hc.
  eexists _, _. split; [apply broadcastUniqueNCCLID_rank0, Hr|].
  split; [apply broadcastUniqueNCCLID_rank0, Hr|].
  cbn [ncclCommCounter_ store set_store set_ncclCommCounter_].
  rewrite (wrap_uint64_small (ncclCommCounter_ s + 1)) by lia.
  split; [f_equal; lia|]. split.
  - rewrite lookup_insert_ne; [apply lookup_insert_eq|].
    assert (2 ^ 64 < 10 ^ 20) as Hbig by reflexivity.
    intros H. apply std_to_string_inj in H; lia.
  - apply lookup_insert_eq.
Qed.

Lemma broadcastUniqueNCCLID_keys_distinct_witness :
  exists s2,
    (broadcastUniqueNCCLID id_12_03
       (broadcastUniqueNCCLID id_01_23 (idle_state 0 2 false [])).2).2 = s2
    /\ store s2 !! "0"%string = Some (vec_to_list id_01_23)
    /\ store s2 !! "1"%string = Some (vec_to_list id_12_03).
Proof.
  destruct (broadcastUniqueNCCLID_keys_distinct id_01_23 id_12_03
              (idle_state 0 2 false []))
    as (s1 & s2 & H1 & H2 & _ & Ha & Hb); [reflexivity | cbn; lia |].
  exists s2. rewrite H1. cbn [snd]. rewrite H2. cbn [snd].
  split; [reflexivity|]. split; [exact Ha | exact Hb].
Defined.

Lemma emplace_lookup {V} (k : string) (v : V) (m : gmap string V) :
  exists v', emplace k v m !! k = Some v'.
Proof.
  unfold emplace. destruct (m !! k) eqn:E; [eauto|].
  rewrite lookup_insert_eq. eauto.
Qed.

Lemma note_devices_twice (devices : list Z) (s : State) :
  list_to_set devices ⊆ usedDeviceIdxs_ s -> note_devices devices s = s.
Proof.
  intros H. unfold note_devices.
  replace (list_to_set devices ∪ usedDeviceIdxs_ s) with (usedDeviceIdxs_ s).
  - destruct s; reflexivity.
  - apply leibniz_equiv. symmetry. now apply subseteq_union_1.
Qed.

(** The creation of a group, from the rendezvous on, does not touch the set
    of used devices. *)
Lemma keeps_used_create (devicesKey : string) (devices : list Z) (s : State) :
  keeps usedDeviceIdxs_
    (ncclID0 <- (if rank_ s =? 0 then ncclGetUniqueId
                 else ret (vreplicate NCCL_UNIQUE_ID_BYTES Byte.x00)) ;;;
     ncclID <- broadcastUniqueNCCLID ncclID0 ;;;
     emit ncclGroupStart ;;;
     created <- fold_each (seq 0 (length devices))
                  (create_comm_step ncclID devices) ([], []) ;;;
     emit ncclGroupEnd ;;;
     modify (fun s =>
       set_ncclStreams_ (emplace devicesKey created.2 (ncclStreams_ s)) s) ;;;
     modify (fun s =>
       set_ncclEvents_
         (emplace devicesKey (length devices) (ncclEvents_ s)) s) ;;;
     modify (fun s =>
       set_ncclIdToCommMap_
         (emplace (buildNcclUniqueIdStr ncclID) created.1
            (ncclIdToCommMap_ s)) s) ;;;
     modify (fun s =>
       set_devNCCLCommMap_
         (emplace devicesKey created.1 (devNCCLCommMap_ s)) s) ;;;
     s' <- get_state ;;;
     ret (default [] (devNCCLCommMap_ s' !! devicesKey))).
Proof.
  unfold ncclGetUniqueId, broadcastUniqueNCCLID, store_set, store_get, emit,
    create_comm_step, NCCLComm_create, getStreamFromPool, emit.
  solve_keeps.
Qed.

(** What a call of [getNCCLComm] that returned leaves behind. *)
Lemma getNCCLComm_ok_inv (devicesKey : string) (devices : list Z)
    (s s' : State) (ps : list CommPtr) :
  getNCCLComm devicesKey devices s = (Ok ps, s') ->
  devicesKey <> ""%string
  /\ devNCCLCommMap_ s' !! devicesKey = Some ps
  /\ list_to_set devices ⊆ usedDeviceIdxs_ s'.
Proof.
  intros Hrun. unfold getNCCLComm in Hrun.
  destruct (decide (devicesKey = ""%string)) as [E|Hkey].
  { rewrite bool_decide_eq_true_2 in Hrun by exact E. discriminate Hrun. }
  rewrite bool_decide_eq_false_2 in Hrun by exact Hkey.
  split; [exact Hkey|].
  apply bind_inv_ok in Hrun as ([] & s1 & Hnote & Hrun).
  injection Hnote as <-. fold (note_devices devices s) in Hrun.
  apply bind_inv_ok in Hrun as (s2 & s3 & Hget & Hrun).
  injection Hget as <- <-.
  destruct (devNCCLCommMap_ (note_devices devices s) !! devicesKey)
    as [cached|] eqn:Hlook.
  - injection Hrun as <- <-. split; [exact Hlook|].
    cbn. apply union_subseteq_l.
  - split.
    + do 9 peel Hrun.
      apply bind_inv_ok in Hrun as (s9 & s10 & Hget & Hrun).
      injection Hget as <- <-. injection Hrun as <- <-.
      unfold emit, modify in *.
      repeat match goal with
             | H : (Ok tt, _) = (Ok _, _) |- _ => injection H as _ <-
             end.
      cbn [devNCCLCommMap_ set_devNCCLCommMap_].
      match goal with
      | |- emplace ?k ?v ?m !! _ = _ =>
          destruct (emplace_lookup k v m) as [v' Hv']
      end.
      rewrite Hv'. reflexivity.
    + rewrite (keeps_run usedDeviceIdxs_ _ _ _ _
                 (keeps_used_create devicesKey devices
                    (note_devices devices s)) Hrun).
      cbn. apply union_subseteq_l.
Qed.

Lemma getNCCLComm_hit (devicesKey : string) (devices : list Z) (s : State)
    (ps : list CommPtr) :
  devicesKey <> ""%string ->
  devNCCLCommMap_ s !! devicesKey = Some ps ->
  getNCCLComm devicesKey devices s = (Ok ps, note_devices devices s).
Proof.
  intros Hkey Hps. unfold getNCCLComm.
  rewrite bool_decide_eq_false_2 by exact Hkey.
  erewrite bind_ok by reflexivity.
  erewrite bind_ok by reflexivity.
  fold (note_devices devices s).
  replace (devNCCLCommMap_ (note_devices devices s) !! devicesKey)
    with (Some ps) by (symmetry; exact Hps).
  reflexivity.
Qed.

(** X4. A hit of the communicator cache returns the cached group and
    changes nothing but the set of used devices: no rendezvous, no call to
    the vendor library.  And every call that returned can be repeated: the
    second call returns the same communicators and leaves the state as the
    first call left it. *)
Theorem getNCCLComm_cached (devicesKey : string) (devices : list Z)
    (s : State) :
  (forall ps, devicesKey <> ""%string ->
     devNCCLCommMap_ s !! devicesKey = Some ps ->
     getNCCLComm devicesKey devices s = (Ok ps, note_devices devices s))
  /\ (forall ps s',
        getNCCLComm devicesKey devices s = (Ok ps, s') ->
        getNCCLComm devicesKey devices s' = (Ok ps, s')).
Proof.
  split; [intros ps; apply getNCCLComm_hit|].
  intros ps s' Hrun.
  apply getNCCLComm_ok_inv in Hrun as (Hkey & Hps & Hused).
  rewrite (getNCCLComm_hit _ _ s' ps Hkey Hps). now rewrite note_devices_twice.
Qed.

Lemma string_all_forallb (P : ascii -> bool) (s : string) :
  string_all P s = forallb P (list_ascii_of_string s).
Proof. induction s as [|c s IH]; cbn; [reflexivity|now rewrite IH]. Qed.


Lemma concat_hex_shape (bytes : list Byte.byte) :
  string_all is_lower_hex (concat_strings (byte_hex_lower <$> bytes)) = true
  /\ (length bytes
      <= String.length (concat_strings (byte_hex_lower <$> bytes))
      <= 2 * length bytes)%nat.
Proof.
  induction bytes as [|b bytes [IH1 IH2]]; [cbn; split; [reflexivity|lia]|].
  rewrite fmap_cons. cbn [concat_strings length].
  rewrite string_all_app, string_length_app, IH1.
  destruct (byte_hex_lower_shape b) as [Hc Hl].
  rewrite string_all_forallb, Hc. split; [reflexivity|lia].
Qed.

(** X5. The text of a unique id, the key of [ncclIdToCommMap_] and the
    variable part of the abort markers, consists of decimal digits and
    letters from a to f only, and has between 128 and 256 characters: one
    or two for each byte. *)
Theorem buildNcclUniqueIdStr_shape (ncclID : ncclUniqueId) :
  string_all is_lower_hex (buildNcclUniqueIdStr ncclID) = true
  /\ (128 <= String.length (buildNcclUniqueIdStr ncclID) <= 256)%nat.
Proof.
  unfold buildNcclUniqueIdStr. rewrite buildNcclUniqueIdStr_loop_spec.
  rewrite append_nil_l.
  pose proof (concat_hex_shape (vec_to_list ncclID)) as [H1 H2].
  rewrite length_vec_to_list in H2. unfold NCCL_UNIQUE_ID_BYTES in H2.
  split; [exact H1|exact H2].
Qed.

(** X6. The text does not determine the unique id: the bytes are printed
    without padding, so the ids that begin with the bytes 01 23 and 12 03
    and go on alike have the same text, whatever the other 126 bytes. *)
Theorem buildNcclUniqueIdStr_collision (rest : vec Byte.byte 126) :
  let id1 : ncclUniqueId := Byte.x01 ::: Byte.x23 ::: rest in
  let id2 : ncclUniqueId := Byte.x12 ::: Byte.x03 ::: rest in
  id1 <> id2 /\ buildNcclUniqueIdStr id1 = buildNcclUniqueIdStr id2.
Proof.
  intros id1 id2. split.
  - intros H. apply (f_equal vec_to_list) in H. discriminate H.
  - unfold buildNcclUniqueIdStr, id1, id2.
    rewrite !buildNcclUniqueIdStr_loop_spec.
    cbn [vec_to_list]. rewrite !fmap_cons. cbn [concat_strings].
    reflexivity.
Qed.

(** X7. [checkSplitSizes] on a tensor with a dimension 0, for a positive
    group size and non-negative splits whose sum fits an [int]: without
    splits the call returns iff the group size divides dimension 0; with
    splits it returns iff there is one split per rank and the splits add
    up to dimension 0.  Every other call throws a [runtime_error]. *)
Theorem checkSplitSizes_in_range (splits : list Z) (t : Tensor)
    (group_size dim0 : Z) (dims : list Z) :
  0 < group_size < 2 ^ 31 ->
  sizes t = dim0 :: dims ->
  Forall (fun x => 0 <= x) splits ->
  fold_right Z.add 0 splits <= INT_MAX ->
  (checkSplitSizes splits t group_size = Ok tt
   <-> if decide (splits = []) then (group_size | dim0)
       else Z.of_nat (length splits) = group_size
            /\ fold_right Z.add 0 splits = dim0)
  /\ (checkSplitSizes splits t group_size = Ok tt
      \/ exists what,
           checkSplitSizes splits t group_size = Throw (runtime_error what)).
Proof.
  intros Hg Hsz Hpos Hsum.
  destruct (decide (splits = [])) as [->|Hne].
  - unfold checkSplitSizes, tensor_size0. rewrite Hsz. cbn [length obind].
    rewrite bool_decide_eq_true_2 by reflexivity.
    rewrite int64_rem_pos by lia. cbn [obind].
    rewrite <- Z.rem_divide by lia.
    destruct (Z.eqb_spec (Z.rem dim0 group_size) 0) as [E|E]; cbn [negb].
    + split; [tauto|now left].
    + split; [|right; eauto]. split; [discriminate|contradiction].
  - split.
    + apply checkSplitSizes_small; auto; [lia|].
      rewrite Hsz. reflexivity.
    + unfold checkSplitSizes, tensor_size0. rewrite Hsz. cbn [obind].
      rewrite bool_decide_eq_false_2
        by (destruct splits; [contradiction | discriminate]).
      repeat match goal with
             | |- context [if ?b then _ else _] => destruct b
             end; eauto.
Qed.

Lemma checkSplitSizes_in_range_witness :
  checkSplitSizes [1; 3] (cuda_float 0 0 0) 2 = Ok tt
  /\ exists what,
       checkSplitSizes [] (cuda_float 0 0 0) 3 = Throw (runtime_error what).
Proof.
  split.
  - apply (checkSplitSizes_in_range [1; 3] (cuda_float 0 0 0) 2 4 []);
      [lia | reflexivity | repeat constructor; lia | cbn; unfold INT_MAX; lia
      | cbn; split; reflexivity].
  - destruct (checkSplitSizes_in_range [] (cuda_float 0 0 0) 3 4 [])
      as [Hiff [Hok|Hthrow]];
      [lia | reflexivity | constructor | cbn; unfold INT_MAX; lia | | exact Hthrow].
    apply Hiff in Hok. cbn in Hok. destruct Hok as [k Hk]. lia.
Defined.

Lemma flatten_loop_result (n ws rank : nat) (tensor_lists : list (list Tensor)) :
  forall (other : list Tensor) (b : bool) (alloc : nat)
         (flattened : list Tensor) (alloc' : nat),
    length tensor_lists = length other ->
    flatten_loop n ws rank b alloc tensor_lists other = Ok (flattened, alloc') ->
    get_device <$> flattened = get_device <$> other
    /\ (alloc <= alloc')%nat
    /\ (b = false ->
        storage <$> flattened = seq alloc (length other)
        /\ Forall (fun flat => storage_offset flat = 0) flattened).
Proof.
  induction tensor_lists as [|l lists IH];
    intros other b alloc flattened alloc' Hlen Hrun.
  - destruct other; [|discriminate Hlen]. cbn in Hrun.
    injection Hrun as <- <-. cbn. auto.
  - destruct other as [|o other]; [discriminate Hlen|].
    cbn [flatten_loop] in Hrun.
    destruct (negb (Z.of_nat (length l) =? _)); [discriminate Hrun|].
    destruct l as [|first l']; [discriminate Hrun|].
    destruct (Z.eqb_spec (get_device first) (get_device o)) as [Hdev|];
      [|discriminate Hrun].
    cbn [negb] in Hrun.
    destruct (negb (forallb _ _)); [discriminate Hrun|].
    set (b' := if b then no_copy_block (first :: l') first o rank else false)
      in Hrun.
    assert (exists flat a1,
              (if b' then Ok (set_view first o ws, alloc)
               else obind (newLikeFlat (first :: l') o ws alloc)
                      (fun flat => Ok (flat, S alloc))) = Ok (flat, a1)
              /\ get_device flat = get_device o
              /\ (alloc <= a1)%nat
              /\ (b' = false ->
                  storage flat = alloc /\ storage_offset flat = 0
                  /\ a1 = S alloc)) as (flat & a1 & Hflat & Hd & Ha & Hfresh).
    { destruct b'.
      - eexists _, _. split; [reflexivity|]. cbn. split; [reflexivity|].
        split; [lia|discriminate].
      - unfold newLikeFlat in *.
        destruct (negb (forallb _ l')); [discriminate Hrun|].
        eexists _, _. split; [reflexivity|]. cbn.
        split; [exact Hdev|]. split; [lia|auto]. }
    rewrite Hflat in Hrun. cbn [obind] in Hrun.
    destruct (flatten_loop n ws rank b' a1 lists other)
      as [[flats a2]| | |] eqn:Hrest; try discriminate Hrun.
    cbn [obind] in Hrun. injection Hrun as <- <-.
    apply IH in Hrest as (Hdevs & Hle & Hcopy); [|now injection Hlen].
    rewrite !fmap_cons, Hd, Hdevs. split; [reflexivity|]. split; [lia|].
    intros ->. subst b'. destruct (Hfresh eq_refl) as (Hs & Ho & ->).
    destruct (Hcopy eq_refl) as [Hss Hoo].
    cbn [length seq]. rewrite Hs, Hss. split; [reflexivity|].
    constructor; assumption.
Qed.

(** X8. What [flatten_for_scatter_gather] returns, when it returns: one
    staging tensor for each tensor of [other], on the same device as that
    tensor.  With [no_copy] off, the staging tensors are the next
    allocations, in order, each at offset 0 of a storage of its own. *)
Theorem flatten_for_scatter_gather_result (tensor_lists : list (list Tensor))
    (other : list Tensor) (world_size rank : nat) (no_copy : bool)
    (alloc alloc' : nat) (flattened : list Tensor) :
  flatten_for_scatter_gather tensor_lists other world_size rank no_copy alloc
  = Ok (flattened, alloc') ->
  length flattened = length other
  /\ get_device <$> flattened = get_device <$> other
  /\ (no_copy = false ->
      storage <$> flattened = seq alloc (length other)
      /\ Forall (fun flat => storage_offset flat = 0) flattened).
Proof.
  unfold flatten_for_scatter_gather. intros Hrun.
  destruct (decide (length tensor_lists = length other)) as [Hlen|Hlen].
  - rewrite bool_decide_eq_true_2 in Hrun by exact Hlen. cbn [negb] in Hrun.
    apply flatten_loop_result in Hrun as (Hd & _ & Hcopy); [|exact Hlen].
    split; [|split; assumption].
    apply (f_equal length) in Hd. now rewrite !length_fmap in Hd.
  - rewrite bool_decide_eq_false_2 in Hrun by exact Hlen. discriminate Hrun.
Qed.

Lemma flatten_for_scatter_gather_result_witness :
  exists flattened alloc',
    flatten_for_scatter_gather two_device_lists two_device_other 1 0 false 20
    = Ok (flattened, alloc')
    /\ storage <$> flattened = [20; 21]%nat.
Proof.
  eexists _, _. split; [vm_compute; reflexivity|].
  eapply (flatten_for_scatter_gather_result two_device_lists two_device_other
            1 0 false 20);
    [vm_compute; reflexivity|reflexivity].
Defined.

Lemma synchronize_events_calls (w : WorkNCCL) (s : State) :
  for_range (length (devices_ w)) (fun i =>
    d <- at_index (devices_ w) i ;;;
    emit (cudaStreamWaitEvent (CurrentStream d) (WorkEvent i)) ;;;
    if negb (bool_decide (barrierTensors_ w = [])) then
      emit (cudaSetDevice d) ;;; emit (cudaDeviceSynchronize d)
    else ret tt) s
  = (Ok tt, logged (synchronize_calls w) s).
Proof.
  unfold for_range, synchronize_calls.
  set (barrier := negb (bool_decide (barrierTensors_ w = []))).
  assert (forall ds k s,
            (forall j d, ds !! j = Some d ->
                         devices_ w !! (k + j)%nat = Some d) ->
            for_each (seq k (length ds)) (fun i =>
              d <- at_index (devices_ w) i ;;;
              emit (cudaStreamWaitEvent (CurrentStream d) (WorkEvent i)) ;;;
              if barrier then
                emit (cudaSetDevice d) ;;; emit (cudaDeviceSynchronize d)
              else ret tt) s
            = (Ok tt, logged (synchronize_calls_from barrier k ds) s)) as H.
  { clear s. induction ds as [|d ds IH]; intros k s Hds.
    - cbn. now rewrite logged_nil.
    - pose proof (Hds 0%nat d eq_refl) as Hd. rewrite Nat.add_0_r in Hd.
      cbn [length seq for_each synchronize_calls_from].
      assert (forall j d', ds !! j = Some d' ->
                devices_ w !! (S k + j)%nat = Some d') as Hds'.
      { intros j d' Hj. specialize (Hds (S j) d' Hj).
        now rewrite Nat.add_succ_r in Hds. }
      destruct barrier.
      + erewrite bind_ok
          by (rewrite (bind_ok _ _ _ _ _ (at_index_run _ _ _ _ Hd));
              rewrite (bind_ok _ _ _ _ _ (emit_run _ _));
              rewrite (bind_ok _ _ _ _ _ (emit_run _ _));
              apply emit_run).
        rewrite IH by exact Hds'. rewrite !logged_app. reflexivity.
      + erewrite bind_ok
          by (rewrite (bind_ok _ _ _ _ _ (at_index_run _ _ _ _ Hd));
              rewrite (bind_ok _ _ _ _ _ (emit_run _ _)); reflexivity).
        rewrite IH by exact Hds'. rewrite !logged_app. reflexivity. }
  apply H. intros j d Hj. exact Hj.
Qed.

(** X9. Without blocking wait, [synchronize] and [wait] return at once,
    whatever the devices and the clock show: the current stream of each
    device is made to wait for the event of the work (and the device is
    synchronized for a barrier), nothing else happens, and [wait] returns
    true. *)
Theorem synchronize_nonblocking (ticks : list Tick) (w : WorkNCCL) (s : State) :
  w_blockingWait_ w = false ->
  synchronize ticks w s = (Ok w, logged (synchronize_calls w) s)
  /\ wait ticks w s = (Ok true, logged (synchronize_calls w) s).
Proof.
  intros Hb.
  assert (synchronize ticks w s = (Ok w, logged (synchronize_calls w) s)) as H.
  { unfold synchronize.
    rewrite (bind_ok _ _ _ _ _ (synchronize_events_calls w s)), Hb.
    reflexivity. }
  split; [exact H|]. unfold wait. now rewrite (bind_ok _ _ _ _ _ H).
Qed.

Lemma synchronize_nonblocking_witness :
  wait [] (sample_work false None) (sample_group 0)
  = (Ok true,
     logged [cudaStreamWaitEvent (CurrentStream 0) (WorkEvent 0)]
       (sample_group 0)).
Proof.
  apply (synchronize_nonblocking [] (sample_work false None) (sample_group 0)).
  reflexivity.
Defined.

Lemma observe_run (tk : Tick) (s : State) : observe tk s = (Ok tt, (observe tk s).2).
Proof. reflexivity. Qed.

Lemma observe_quiet (tk : Tick) (s : State) :
  tick_errors tk = [] ->
  (observe tk s).2 = set_steady_clock (tick_now tk) s.
Proof.
  intros H. unfold observe, modify. rewrite H. cbn [fold_left snd].
  now rewrite set_comms_id.
Qed.

Lemma observe_logged (tk : Tick) (calls : list Effect) (s : State) :
  comms (observe tk (logged calls s)).2 = comms (observe tk s).2.
Proof. reflexivity. Qed.

Lemma checkAndSetException_run (w : WorkNCCL) (s : State) (err : option Exn) :
  exception_ w = None ->
  checkForNCCLErrorsInternal (comms s) (ncclComms_ w) = Ok err ->
  checkAndSetException w s = (Ok (set_exception_ err w), s).
Proof.
  intros Hex Hcheck. unfold checkAndSetException, checkForNCCLErrors.
  rewrite Hex.
  erewrite bind_ok
    by (erewrite bind_ok by reflexivity; rewrite Hcheck; reflexivity).
  reflexivity.
Qed.

Lemma checkAndSetException_set (w : WorkNCCL) (s : State) (e : Exn) :
  exception_ w = Some e -> checkAndSetException w s = (Ok w, s).
Proof. intros Hex. unfold checkAndSetException. now rewrite Hex. Qed.

Lemma finished_all_success (devices : list Z) (more : list cudaError_t)
    (s : State) :
  finishedGPUExecutionInternal
    (replicate (length devices) cudaSuccess ++ more) devices s = (Ok true, s).
Proof.
  induction devices as [|d devices IH]; [destruct more; reflexivity|].
  cbn. exact IH.
Qed.

Lemma read_only_finished (queries : list cudaError_t) (devices : list Z) :
  read_only (finishedGPUExecutionInternal queries devices).
Proof.
  revert queries. induction devices as [|d devices IH]; intros queries s.
  - destruct queries; reflexivity.
  - destruct queries as [|[] queries]; cbn; try reflexivity. apply IH.
Qed.

(** X10. A blocking wait on a finished work returns, also after the
    deadline: when the first look finds no error on the communicators of
    the work and every event complete, [synchronize] returns without
    aborting anything; completion is tested before the timeout. *)
Theorem synchronize_finished (tk : Tick) (rest : list Tick)
    (more : list cudaError_t) (w : WorkNCCL) (s : State) :
  w_blockingWait_ w = true -> exception_ w = None ->
  checkForNCCLErrorsInternal (comms (observe tk s).2) (ncclComms_ w) = Ok None ->
  tick_queries tk = replicate (length (devices_ w)) cudaSuccess ++ more ->
  synchronize (tk :: rest) w s
  = (Ok w, (observe tk (logged (synchronize_calls w) s)).2).
Proof.
  intros Hb Hex Hcheck Hq. unfold synchronize.
  rewrite (bind_ok _ _ _ _ _ (synchronize_events_calls w s)), Hb.
  cbn [synchronize_wait].
  rewrite (bind_ok _ _ _ _ _ (observe_run _ _)).
  set (s1 := (observe tk (logged (synchronize_calls w) s)).2).
  assert (checkAndSetException w s1 = (Ok w, s1)) as Hset.
  { rewrite (checkAndSetException_run w s1 None Hex Hcheck).
    now rewrite set_exception_id. }
  assert (isCompleted (tick_queries tk) w s1 = (Ok (true, w), s1)) as Hdone.
  { unfold isCompleted. rewrite (bind_ok _ _ _ _ _ Hset), Hex, Hq.
    now rewrite (bind_ok _ _ _ _ _ (finished_all_success _ _ _)). }
  rewrite (bind_ok _ _ _ _ _ Hdone). cbn [fst snd].
  unfold checkAndThrowException.
  rewrite (bind_ok _ _ _ _ _ Hset), Hex. reflexivity.
Qed.

Lemma synchronize_finished_witness :
  exists s',
    synchronize [tick_at 9000 cudaSuccess] (sample_work true None)
      (sample_group 0) = (Ok (sample_work true None), s')
    /\ w_opTimeout_ (sample_work true None)
       < 9000 - workStartTime_ (sample_work true None)
    /\ store s' = store (sample_group 0) /\ comms s' = comms (sample_group 0).
Proof.
  eexists. split; [|split; [reflexivity|]].
  - apply (synchronize_finished (tick_at 9000 cudaSuccess) [] []
             (sample_work true None) (sample_group 0));
      [reflexivity | reflexivity | vm_compute; reflexivity | reflexivity].
  - split; reflexivity.
Defined.

(** X11. A blocking wait on a work one of whose communicators reports an
    asynchronous error throws that error at the first look, also after the
    deadline: no communicator is aborted and nothing is written to the
    store. *)
Theorem synchronize_reports_error (tk : Tick) (rest : list Tick)
    (w : WorkNCCL) (s : State) (e : Exn) :
  w_blockingWait_ w = true -> exception_ w = None ->
  checkForNCCLErrorsInternal (comms (observe tk s).2) (ncclComms_ w)
  = Ok (Some e) ->
  synchronize (tk :: rest) w s
  = (Throw e, (observe tk (logged (synchronize_calls w) s)).2)
  /\ store (observe tk (logged (synchronize_calls w) s)).2 = store s
  /\ effects (observe tk (logged (synchronize_calls w) s)).2
     = effects s ++ synchronize_calls w.
Proof.
  intros Hb Hex Hcheck. split; [|split; reflexivity]. unfold synchronize.
  rewrite (bind_ok _ _ _ _ _ (synchronize_events_calls w s)), Hb.
  cbn [synchronize_wait].
  rewrite (bind_ok _ _ _ _ _ (observe_run _ _)).
  set (s1 := (observe tk (logged (synchronize_calls w) s)).2).
  pose proof (checkAndSetException_run w s1 (Some e) Hex Hcheck) as Hset.
  assert (isCompleted (tick_queries tk) w s1
          = (Ok (true, set_exception_ (Some e) w), s1)) as Hdone.
  { unfold isCompleted. rewrite (bind_ok _ _ _ _ _ Hset). reflexivity. }
  rewrite (bind_ok _ _ _ _ _ Hdone). cbn [fst snd].
  unfold checkAndThrowException.
  rewrite (bind_ok _ _ _ _ _
             (checkAndSetException_set (set_exception_ (Some e) w) s1 e
                eq_refl)).
  reflexivity.
Qed.

Lemma synchronize_reports_error_witness :
  exists what s',
    synchronize [tick_at 9000 cudaErrorNotReady] (sample_work true None)
      (sample_group 5) = (Throw (runtime_error what), s')
    /\ comms s' = comms (sample_group 5).
Proof.
  eexists _, _. split.
  - apply (synchronize_reports_error (tick_at 9000 cudaErrorNotReady) []
             (sample_work true None) (sample_group 5));
      [reflexivity | reflexivity | vm_compute; reflexivity].
  - reflexivity.
Defined.

(** X12. Until the deadline a blocking wait only polls: as long as each
    look finds no error, the work unfinished and the timeout not exceeded,
    [synchronize] sleeps 10 ms and looks again; it has not returned when
    the observations end, and it has aborted no communicator and written
    nothing to the store. *)
Theorem synchronize_polls (ticks : list Tick) (w : WorkNCCL) (s : State) :
  w_blockingWait_ w = true -> exception_ w = None ->
  checkForNCCLErrorsInternal (comms s) (ncclComms_ w) = Ok None ->
  Forall (fun tk =>
            tick_errors tk = []
            /\ (forall s', finishedGPUExecutionInternal (tick_queries tk)
                             (devices_ w) s' = (Ok false, s'))
            /\ tick_now tk - workStartTime_ w <= w_opTimeout_ w) ticks ->
  exists s',
    synchronize ticks w s = (Blocked, s')
    /\ effects s'
       = effects s ++ synchronize_calls w
         ++ replicate (length ticks) (sleep_for kSynchronizeBusyWaitMillis)
    /\ comms s' = comms s /\ store s' = store s.
Proof.
  intros Hb Hex Hcheck Hticks. unfold synchronize.
  rewrite (bind_ok _ _ _ _ _ (synchronize_events_calls w s)), Hb.
  assert (forall s0, comms s0 = comms s ->
            exists s',
              synchronize_wait ticks w s0 = (Blocked, s')
              /\ effects s'
                 = effects s0
                   ++ replicate (length ticks)
                        (sleep_for kSynchronizeBusyWaitMillis)
              /\ comms s' = comms s0 /\ store s' = store s0) as Hloop.
  { induction Hticks as [|tk ticks (Herrs & Hfin & Hto) _ IH]; intros s0 Hc.
    - exists s0. cbn. rewrite app_nil_r. auto.
    - cbn [synchronize_wait].
      rewrite (bind_ok _ _ _ _ _ (observe_run _ _)).
      rewrite (observe_quiet _ _ Herrs).
      set (s1 := set_steady_clock (tick_now tk) s0).
      assert (checkAndSetException w s1 = (Ok w, s1)) as Hset.
      { rewrite (checkAndSetException_run w s1 None Hex)
          by (cbn; now rewrite Hc).
        now rewrite set_exception_id. }
      assert (isCompleted (tick_queries tk) w s1 = (Ok (false, w), s1))
        as Hdone.
      { unfold isCompleted. rewrite (bind_ok _ _ _ _ _ Hset), Hex.
        now rewrite (bind_ok _ _ _ _ _ (Hfin _)). }
      rewrite (bind_ok _ _ _ _ _ Hdone). cbn [fst snd].
      destruct (Z.ltb_spec (w_opTimeout_ w) (tick_now tk - workStartTime_ w))
        as [Hlate|_]; [lia|].
      unfold checkAndThrowException.
      erewrite bind_ok by (rewrite (bind_ok _ _ _ _ _ Hset), Hex; reflexivity).
      rewrite (bind_ok _ _ _ _ _ (emit_run _ _)).
      destruct (IH (logged [sleep_for kSynchronizeBusyWaitMillis] s1))
        as (s' & Hrun & Heff & Hcomms & Hstore); [exact Hc|].
      exists s'. split; [exact Hrun|].
      rewrite Heff, Hcomms, Hstore. cbn [length replicate].
      cbn [effects logged set_effects set_steady_clock comms store s1].
      rewrite <- app_assoc. auto. }
  destruct (Hloop (logged (synchronize_calls w) s) eq_refl)
    as (s' & Hrun & Heff & Hcomms & Hstore).
  exists s'. split; [exact Hrun|].
  rewrite Heff, Hcomms, Hstore. cbn. rewrite <- app_assoc. auto.
Qed.

Lemma synchronize_polls_witness :
  exists s',
    synchronize [tick_at 10 cudaErrorNotReady; tick_at 20 cudaErrorNotReady]
      (sample_work true None) (sample_group 0) = (Blocked, s')
    /\ effects s'
       = [cudaStreamWaitEvent (CurrentStream 0) (WorkEvent 0);
          sleep_for 10; sleep_for 10].
Proof.
  destruct (synchronize_polls
              [tick_at 10 cudaErrorNotReady; tick_at 20 cudaErrorNotReady]
              (sample_work true None) (sample_group 0))
    as (s' & Hrun & Heff & _);
    [ reflexivity | reflexivity | vm_compute; reflexivity
    | repeat constructor; cbn; lia | ].
  exists s'. split; [exact Hrun | exact Heff].
Defined.

(** X13. How [isSuccess] and [isCompleted] agree.  A work that holds an
    exception is completed and not successful, whatever the devices
    answer.  A work one of whose communicators reports an error is not
    successful, and [isCompleted] returns true and records the error in
    the work.  And whenever [isSuccess] returns true, [isCompleted]
    returns true and records no exception.  Neither changes the state of
    the process group. *)
Theorem isSuccess_isCompleted (queries : list cudaError_t) (w : WorkNCCL)
    (s : State) :
  (forall e, exception_ w = Some e ->
     isSuccess queries w s = (Ok false, s)
     /\ isCompleted queries w s = (Ok (true, w), s))
  /\ (forall e, exception_ w = None ->
        checkForNCCLErrorsInternal (comms s) (ncclComms_ w) = Ok (Some e) ->
        isSuccess queries w s = (Ok false, s)
        /\ isCompleted queries w s
           = (Ok (true, set_exception_ (Some e) w), s))
  /\ (forall s', isSuccess queries w s = (Ok true, s') ->
        s' = s /\ isCompleted queries w s = (Ok (true, w), s)).
Proof.
  split; [|split].
  - intros e Hex. unfold isSuccess, isCompleted.
    rewrite (bind_ok _ _ _ _ _ (checkAndSetException_set w s e Hex)), Hex.
    split; reflexivity.
  - intros e Hex Hcheck. unfold isSuccess, isCompleted.
    rewrite (bind_ok _ _ _ _ _ (checkAndSetException_run w s _ Hex Hcheck)).
    rewrite Hex. unfold checkForNCCLErrors.
    erewrite bind_ok
      by (erewrite bind_ok by reflexivity; rewrite Hcheck; reflexivity).
    split; reflexivity.
  - intros s' Hrun. unfold isSuccess in Hrun.
    destruct (exception_ w) as [e|] eqn:Hex; [discriminate Hrun|].
    apply bind_inv_ok in Hrun as (err & s1 & Herr & Hrun).
    unfold checkForNCCLErrors in Herr.
    apply bind_inv_ok in Herr as (s2 & s3 & Hget & Herr).
    injection Hget as <- <-. unfold lift in Herr.
    injection Herr as Hcheck <-.
    destruct err as [e|]; [discriminate Hrun|].
    pose proof (read_only_finished queries (devices_ w) s) as Hro.
    rewrite Hrun in Hro. cbn [snd] in Hro. subst s'.
    split; [reflexivity|]. unfold isCompleted.
    rewrite (bind_ok _ _ _ _ _ (checkAndSetException_run w s _ Hex Hcheck)).
    rewrite set_exception_id by exact Hex. rewrite Hex.
    now rewrite (bind_ok _ _ _ _ _ Hrun).
Qed.

Lemma check_none_valid (h : gmap CommPtr NCCLComm) (ps : list CommPtr) :
  checkForNCCLErrorsInternal h (Some <$> ps) = Ok None -> all_valid h ps.
Proof.
  induction ps as [|p ps IH]; intros H; [constructor|].
  rewrite fmap_cons in H. cbn [checkForNCCLErrorsInternal] in H.
  destruct (h !! p) as [c|] eqn:Hp; [|discriminate H].
  destruct (negb _); [discriminate H|].
  constructor; [rewrite Hp; eauto | apply IH, H].
Qed.

(** The ids of a group are added to the set of all ids. *)
Lemma collect_ids_spec (ps : list CommPtr) :
  forall (acc : gset string) (s : State),
    all_valid (comms s) ps ->
    exists ids,
      fold_each ps (fun p all =>
          id <- comm_getNcclId p ;;; ret ({[buildNcclUniqueIdStr id]} ∪ all))
        acc s = (Ok ids, s)
      /\ acc ⊆ ids
      /\ forall p c, p ∈ ps -> comms s !! p = Some c ->
           buildNcclUniqueIdStr (comm_id c) ∈ ids.
Proof.
  induction ps as [|p ps IH]; intros acc s Hv.
  - exists acc. cbn. split; [reflexivity|]. split; [reflexivity|].
    intros p c Hp. inversion Hp.
  - inversion Hv as [|? ? [c Hc] Hv']; subst.
    destruct (IH ({[buildNcclUniqueIdStr (comm_id c)]} ∪ acc) s Hv')
      as (ids & Hrun & Hacc & Hall).
    exists ids. split; [|split].
    + cbn [fold_each].
      erewrite bind_ok
        by (rewrite (bind_ok _ _ _ _ _ (comm_getNcclId_run _ _ _ Hc));
            reflexivity).
      exact Hrun.
    + etransitivity; [|exact Hacc]. apply union_subseteq_r.
    + intros q c' Hq Hc'. apply elem_of_cons in Hq as [->|Hq].
      * rewrite Hc in Hc'. injection Hc' as <-.
        apply Hacc. apply elem_of_union_l. now apply elem_of_singleton.
      * eauto.
Qed.

Lemma watchdog_scan_entry_quiet (ps : list CommPtr)
    (acc : gset string * gset string) (s : State) :
  checkForNCCLErrorsInternal (comms s) (Some <$> ps) = Ok None ->
  exists ids,
    watchdog_scan_entry ps acc s = (Ok (ids, acc.2), s)
    /\ acc.1 ⊆ ids
    /\ forall p c, p ∈ ps -> comms s !! p = Some c ->
         buildNcclUniqueIdStr (comm_id c) ∈ ids.
Proof.
  intros Hcheck.
  destruct (collect_ids_spec ps acc.1 s (check_none_valid _ _ Hcheck))
    as (ids & Hrun & Hacc & Hall).
  exists ids. split; [|split; assumption].
  unfold watchdog_scan_entry.
  erewrite bind_ok by reflexivity.
  rewrite (bind_ok _ _ _ _ _ Hrun).
  unfold checkForNCCLErrors.
  erewrite bind_ok
    by (erewrite bind_ok by reflexivity; rewrite Hcheck; reflexivity).
  reflexivity.
Qed.

Lemma watchdog_scan_quiet (entries : list (string * list CommPtr)) :
  forall (acc : gset string * gset string) (s : State),
    Forall (fun entry =>
              checkForNCCLErrorsInternal (comms s) (Some <$> entry.2) = Ok None)
      entries ->
    exists ids,
      fold_each entries (fun entry acc => watchdog_scan_entry entry.2 acc)
        acc s = (Ok (ids, acc.2), s)
      /\ acc.1 ⊆ ids
      /\ forall entry p c, entry ∈ entries -> p ∈ entry.2 ->
           comms s !! p = Some c -> buildNcclUniqueIdStr (comm_id c) ∈ ids.
Proof.
  induction entries as [|entry entries IH]; intros acc s Hq.
  - exists acc.1. cbn. destruct acc. split; [reflexivity|].
    split; [reflexivity|]. intros e p c He. inversion He.
  - inversion Hq as [|? ? Hentry Hq']; subst.
    destruct (watchdog_scan_entry_quiet entry.2 acc s Hentry)
      as (ids1 & Hrun1 & Hacc1 & Hall1).
    destruct (IH (ids1, acc.2) s Hq') as (ids & Hrun & Hacc & Hall).
    cbn [fst snd] in *.
    exists ids. split; [|split].
    + cbn [fold_each]. rewrite (bind_ok _ _ _ _ _ Hrun1). exact Hrun.
    + etransitivity; eassumption.
    + intros e p c He Hp Hc. apply elem_of_cons in He as [->|He].
      * apply Hacc. eauto.
      * eauto.
Qed.

Lemma cache_quiet_entries (s : State) :
  cache_quiet s ->
  Forall (fun entry =>
            checkForNCCLErrorsInternal (comms s) (Some <$> entry.2) = Ok None)
    (map_to_list (devNCCLCommMap_ s)).
Proof.
  intros Hq. apply Forall_forall. intros [key group] Hin.
  apply elem_of_map_to_list in Hin. eapply Hq, Hin.
Qed.

Lemma store_wait_run (key : string) (timeout : Z) (s : State) :
  store_wait key timeout s
  = (match store s !! key with
     | Some _ => Ok tt
     | None => Throw (runtime_error "Wait timeout")
     end, s).
Proof.
  unfold store_wait, bind, get_state. cbn.
  destruct (store s !! key); reflexivity.
Qed.

(** One id of the last loop: the state changes only when the marker of the
    id is in the store and the id is registered. *)
Lemma watchdog_follow_step_run (commId : string) (s : State) :
  exists s',
    watchdog_follow_step commId s = (Ok tt, s')
    /\ aborts_only s s' /\ store s' = store s
    /\ abortedComms_ s ⊆ abortedComms_ s'
    /\ abortedComms_ s' ⊆ {[commId]} ∪ abortedComms_ s
    /\ (store s !! getNcclAbortedCommStoreKey commId = None -> s' = s).
Proof.
  unfold watchdog_follow_step.
  erewrite bind_ok by reflexivity.
  destruct (decide (commId ∈ abortedComms_ s)) as [Hin|Hout].
  { rewrite bool_decide_eq_true_2 by exact Hin.
    exists s. split; [reflexivity|]. split; [apply aborts_only_refl|].
    split; [reflexivity|]. split; [reflexivity|].
    split; [apply union_subseteq_r|reflexivity]. }
  rewrite bool_decide_eq_false_2 by exact Hout.
  unfold watchdog_follow_abort, try_catch.
  pose proof (store_wait_run (getNcclAbortedCommStoreKey commId)
                kWaitForAbortCommStoreKey s) as Hwait.
  destruct (store s !! getNcclAbortedCommStoreKey commId) as [v|] eqn:Hmark.
  - rewrite (bind_ok _ _ _ _ _ Hwait).
    erewrite bind_ok by reflexivity.
    destruct (ncclIdToCommMap_ s !! commId) as [ps|] eqn:Hreg.
    + destruct (abort_all_run ps s) as (s1 & Hrun & Hab).
      rewrite (bind_ok _ _ _ _ _ Hrun). cbn.
      assert (store s1 = store s /\ abortedComms_ s1 = abortedComms_ s)
        as [Hst Hac].
      { split.
        - apply (keeps_run store _ _ _ _
                   (keeps_for_each store ps comm_abort
                      ltac:(intros ?; unfold comm_abort, emit; solve_keeps))
                   Hrun).
        - apply (keeps_run abortedComms_ _ _ _ _
                   (keeps_for_each abortedComms_ ps comm_abort
                      ltac:(intros ?; unfold comm_abort, emit; solve_keeps))
                   Hrun). }
      eexists. split; [reflexivity|].
      split; [|split; [exact Hst|split; [|split; [|discriminate]]]].
      * destruct Hab as (H1 & H2 & H3 & H4). repeat split; assumption.
      * cbn. rewrite Hac. apply union_subseteq_r.
      * cbn. now rewrite Hac.
    + exists s. cbn. split; [reflexivity|]. split; [apply aborts_only_refl|].
      split; [reflexivity|]. split; [reflexivity|].
      split; [apply union_subseteq_r|reflexivity].
  - rewrite (bind_throw _ _ _ _ _ Hwait). exists s.
    split; [reflexivity|]. split; [apply aborts_only_refl|].
    split; [reflexivity|]. split; [reflexivity|].
    split; [apply union_subseteq_r|reflexivity].
Qed.

(** The id whose marker is in the store: its communicators are aborted. *)
Lemma watchdog_follow_step_marker (commId : string) (s : State)
    (ps : list CommPtr) (v : list Byte.byte) :
  commId ∉ abortedComms_ s ->
  store s !! getNcclAbortedCommStoreKey commId = Some v ->
  ncclIdToCommMap_ s !! commId = Some ps ->
  all_valid (comms s) ps ->
  exists s',
    watchdog_follow_step commId s = (Ok tt, s')
    /\ aborts_only s s' /\ store s' = store s
    /\ abortedComms_ s ⊆ abortedComms_ s'
    /\ commId ∈ abortedComms_ s'
    /\ Forall (aborted_in (comms s')) ps.
Proof.
  intros Hout Hmark Hreg Hv.
  unfold watchdog_follow_step.
  erewrite bind_ok by reflexivity.
  rewrite bool_decide_eq_false_2 by exact Hout.
  unfold watchdog_follow_abort, try_catch.
  pose proof (store_wait_run (getNcclAbortedCommStoreKey commId)
                kWaitForAbortCommStoreKey s) as Hwait.
  rewrite Hmark in Hwait.
  rewrite (bind_ok _ _ _ _ _ Hwait).
  erewrite bind_ok by reflexivity. rewrite Hreg.
  assert (forall qs s0, all_valid (comms s0) qs ->
            exists s1, for_each qs comm_abort s0 = (Ok tt, s1)
                       /\ aborts_only s0 s1
                       /\ store s1 = store s0
                       /\ abortedComms_ s1 = abortedComms_ s0
                       /\ Forall (aborted_in (comms s1)) qs) as Hall.
  { clear. induction qs as [|q qs IH]; intros s0 Hv.
    - exists s0. cbn. split; [reflexivity|]. split; [apply aborts_only_refl|].
      auto.
    - inversion Hv as [|? ? Hq Hv']; subst.
      cbn [for_each]. rewrite (bind_ok _ _ _ _ _ (comm_abort_run q s0)).
      set (s1 := set_comms (alter abort_comm q (comms s0))
                   (logged [ncclCommAbort q] s0)).
      assert (aborts_only s0 s1) as H01.
      { repeat split. apply heap_le_alter. }
      destruct (IH s1) as (s2 & Hrun & H12 & Hst & Hac & Hab).
      { eapply all_valid_le; [apply heap_le_alter|exact Hv']. }
      exists s2. split; [exact Hrun|].
      split; [eapply aborts_only_trans; eassumption|].
      split; [rewrite Hst; reflexivity|]. split; [rewrite Hac; reflexivity|].
      constructor; [|exact Hab].
      destruct H12 as (_ & _ & _ & Hle).
      eapply heap_le_aborted; [exact Hle|].
      now apply alter_abort_aborted. }
  destruct (Hall ps s Hv) as (s1 & Hrun & Hab & Hst & Hac & Hdone).
  rewrite (bind_ok _ _ _ _ _ Hrun). cbn.
  eexists. split; [reflexivity|].
  split; [|split; [exact Hst|split; [|split]]].
  - destruct Hab as (H1 & H2 & H3 & H4). repeat split; assumption.
  - cbn. rewrite Hac. apply union_subseteq_r.
  - cbn. apply elem_of_union_l. now apply elem_of_singleton.
  - exact Hdone.
Qed.

Lemma watchdog_follow_loop (ids : list string) :
  forall s : State,
    exists s',
      for_each ids watchdog_follow_step s = (Ok tt, s')
      /\ aborts_only s s' /\ store s' = store s
      /\ abortedComms_ s ⊆ abortedComms_ s'
      /\ abortedComms_ s' ⊆ list_to_set ids ∪ abortedComms_ s
      /\ ((forall commId,
             store s !! getNcclAbortedCommStoreKey commId = None) -> s' = s).
Proof.
  induction ids as [|commId ids IH]; intros s.
  - exists s. cbn. split; [reflexivity|]. split; [apply aborts_only_refl|].
    split; [reflexivity|]. split; [reflexivity|].
    split; [apply union_subseteq_r|reflexivity].
  - destruct (watchdog_follow_step_run commId s)
      as (s1 & Hrun1 & Hab1 & Hst1 & Hlo1 & Hhi1 & Hq1).
    destruct (IH s1) as (s2 & Hrun2 & Hab2 & Hst2 & Hlo2 & Hhi2 & Hq2).
    exists s2. split; [|split; [|split; [|split; [|split]]]].
    + cbn [for_each]. rewrite (bind_ok _ _ _ _ _ Hrun1). exact Hrun2.
    + eapply aborts_only_trans; eassumption.
    + now rewrite Hst2.
    + etransitivity; eassumption.
    + cbn [list_to_set]. intros x Hx. apply Hhi2 in Hx.
      apply elem_of_union in Hx as [Hx|Hx].
      * apply elem_of_union_l, elem_of_union_r, Hx.
      * apply Hhi1 in Hx. apply elem_of_union in Hx as [Hx|Hx].
        -- apply elem_of_union_l, elem_of_union_l, Hx.
        -- apply elem_of_union_r, Hx.
    + intros Hnone. rewrite (Hq1 (Hnone commId)) in *. now apply Hq2.
Qed.

Lemma watchdog_follow_loop_marker (ids : list string) (commId : string)
    (ps : list CommPtr) (v : list Byte.byte) :
  forall s : State,
    NoDup ids -> commId ∈ ids ->
    commId ∉ abortedComms_ s ->
    store s !! getNcclAbortedCommStoreKey commId = Some v ->
    ncclIdToCommMap_ s !! commId = Some ps ->
    all_valid (comms s) ps ->
    exists s',
      for_each ids watchdog_follow_step s = (Ok tt, s')
      /\ aborts_only s s' /\ store s' = store s
      /\ commId ∈ abortedComms_ s'
      /\ Forall (aborted_in (comms s')) ps.
Proof.
  induction ids as [|id ids IH]; intros s Hnd Hin Hout Hmark Hreg Hv.
  - inversion Hin.
  - apply NoDup_cons in Hnd as [Hfresh Hnd].
    apply elem_of_cons in Hin as [->|Hin].
    + destruct (watchdog_follow_step_marker id s ps v Hout Hmark Hreg Hv)
        as (s1 & Hrun1 & Hab1 & Hst1 & Hlo1 & Hin1 & Hdone1).
      destruct (watchdog_follow_loop ids s1)
        as (s2 & Hrun2 & Hab2 & Hst2 & Hlo2 & _).
      exists s2. split; [|split; [|split; [|split]]].
      * cbn [for_each]. rewrite (bind_ok _ _ _ _ _ Hrun1). exact Hrun2.
      * eapply aborts_only_trans; eassumption.
      * now rewrite Hst2.
      * apply Hlo2, Hin1.
      * destruct Hab2 as (_ & _ & _ & Hle).
        eapply Forall_impl; [exact Hdone1|].
        intros p Hp. eapply heap_le_aborted; eassumption.
    + destruct (watchdog_follow_step_run id s)
        as (s1 & Hrun1 & Hab1 & Hst1 & Hlo1 & Hhi1 & _).
      destruct (IH s1) as (s2 & Hrun2 & Hab2 & Hst2 & Hin2 & Hdone2); auto.
      * intros Hc. apply Hhi1 in Hc. apply elem_of_union in Hc as [Hc|Hc];
          [|contradiction].
        apply elem_of_singleton in Hc. subst. contradiction.
      * now rewrite Hst1.
      * destruct Hab1 as (_ & -> & _). exact Hreg.
      * destruct Hab1 as (_ & _ & _ & Hle). eapply all_valid_le; eassumption.
      * exists s2. split; [|split; [|split; [|split]]]; auto.
        -- cbn [for_each]. rewrite (bind_ok _ _ _ _ _ Hrun1). exact Hrun2.
        -- eapply aborts_only_trans; eassumption.
        -- now rewrite Hst2.
Qed.

(** One turn of the watchdog when no cached group reports an error. *)
Lemma watchdog_quiet_run (s : State) :
  cache_quiet s ->
  exists ids : gset string,
    ncclCommWatchdog_iteration s
    = (if blockingWait_ s then for_each (elements ids) watchdog_follow_step s
       else (Ok tt, s))
    /\ forall key group p c,
         devNCCLCommMap_ s !! key = Some group -> p ∈ group ->
         comms s !! p = Some c -> buildNcclUniqueIdStr (comm_id c) ∈ ids.
Proof.
  intros Hq.
  destruct (watchdog_scan_quiet (map_to_list (devNCCLCommMap_ s)) (∅, ∅) s
              (cache_quiet_entries s Hq)) as (ids & Hscan & _ & Hall).
  exists ids. split.
  - unfold ncclCommWatchdog_iteration.
    erewrite bind_ok by reflexivity.
    rewrite (bind_ok _ _ _ _ _ Hscan). cbn [fst snd].
    destruct (blockingWait_ s); [|reflexivity].
    rewrite elements_empty. cbn [for_each].
    erewrite bind_ok by reflexivity. reflexivity.
  - intros key group p c Hkey Hp Hc.
    apply (Hall (key, group) p c); [|exact Hp|exact Hc].
    now apply elem_of_map_to_list.
Qed.

Lemma watchdog_follows_marker_run (s : State) (key : string)
    (group ps : list CommPtr) (p : CommPtr) (c : NCCLComm)
    (v : list Byte.byte) :
  blockingWait_ s = true -> cache_quiet s ->
  devNCCLCommMap_ s !! key = Some group -> p ∈ group ->
  comms s !! p = Some c ->
  buildNcclUniqueIdStr (comm_id c) ∉ abortedComms_ s ->
  store s !! getNcclAbortedCommStoreKey (buildNcclUniqueIdStr (comm_id c))
  = Some v ->
  ncclIdToCommMap_ s !! buildNcclUniqueIdStr (comm_id c) = Some ps ->
  all_valid (comms s) ps ->
  exists s',
    ncclCommWatchdog_iteration s = (Ok tt, s')
    /\ Forall (aborted_in (comms s')) ps
    /\ buildNcclUniqueIdStr (comm_id c) ∈ abortedComms_ s'
    /\ store s' = store s
    /\ devNCCLCommMap_ s' = devNCCLCommMap_ s.
Proof.
  intros Hb Hq Hkey Hp Hc Hout Hmark Hreg Hv.
  destruct (watchdog_quiet_run s Hq) as (ids & Hrun & Hall).
  rewrite Hb in Hrun.
  destruct (watchdog_follow_loop_marker (elements ids)
              (buildNcclUniqueIdStr (comm_id c)) ps v s)
    as (s' & Hloop & Hab & Hst & Hin & Hdone); auto.
  { apply NoDup_elements. }
  { apply elem_of_elements. eapply Hall; eassumption. }
  exists s'. rewrite Hrun. split; [exact Hloop|].
  destruct Hab as (Hmap & _). auto.
Qed.

(** X14. The watchdog follows an abort published by another rank.  With
    blocking wait on and no error in the cache: when the store holds the
    abort marker of the id of a cached communicator, and the id is not yet
    known as aborted, one turn of the watchdog aborts every communicator
    registered under that id and records the id as aborted; it writes
    nothing to the store and keeps the cache. *)
Theorem watchdog_follows_marker (s : State) (key : string)
    (group ps : list CommPtr) (p : CommPtr) (c : NCCLComm)
    (v : list Byte.byte) :
  blockingWait_ s = true -> cache_quiet s ->
  devNCCLCommMap_ s !! key = Some group -> p ∈ group ->
  comms s !! p = Some c ->
  buildNcclUniqueIdStr (comm_id c) ∉ abortedComms_ s ->
  store s !! getNcclAbortedCommStoreKey (buildNcclUniqueIdStr (comm_id c))
  = Some v ->
  ncclIdToCommMap_ s !! buildNcclUniqueIdStr (comm_id c) = Some ps ->
  all_valid (comms s) ps ->
  exists s',
    ncclCommWatchdog_iteration s = (Ok tt, s')
    /\ Forall (aborted_in (comms s')) ps
    /\ buildNcclUniqueIdStr (comm_id c) ∈ abortedComms_ s'
    /\ store s' = store s
    /\ devNCCLCommMap_ s' = devNCCLCommMap_ s.
Proof. apply watchdog_follows_marker_run. Qed.

(** X15. A turn of the watchdog in which no cached group reports an error
    and the store holds no abort marker changes nothing, with blocking
    wait on or off: no communicator is aborted, nothing is written, and
    the waits that time out on the store are not passed on. *)
Theorem watchdog_quiet_turn (s : State) :
  cache_quiet s ->
  (forall commId, store s !! getNcclAbortedCommStoreKey commId = None) ->
  ncclCommWatchdog_iteration s = (Ok tt, s).
Proof.
  intros Hq Hnone.
  destruct (watchdog_quiet_run s Hq) as (ids & Hrun & _).
  rewrite Hrun. destruct (blockingWait_ s); [|reflexivity].
  destruct (watchdog_follow_loop (elements ids) s)
    as (s' & Hloop & _ & _ & _ & _ & Hsame).
  rewrite Hloop, (Hsame Hnone). reflexivity.
Qed.

Lemma sample_peer_quiet (contents : gmap string (list Byte.byte)) :
  cache_quiet (sample_peer contents).
Proof.
  intros key group H. cbn in H.
  apply lookup_singleton_Some in H as [_ <-]. reflexivity.
Qed.

Lemma sample_group_quiet : cache_quiet (sample_group 0).
Proof.
  intros key group H. cbn in H.
  apply lookup_singleton_Some in H as [_ <-]. reflexivity.
Qed.

Lemma watchdog_follows_marker_witness :
  exists s',
    ncclCommWatchdog_iteration (sample_peer marker_store) = (Ok tt, s')
    /\ Forall (aborted_in (comms s')) [0%nat]
    /\ store s' = marker_store.
Proof.
  destruct (watchdog_follows_marker (sample_peer marker_store) "0"
              [0%nat] [0%nat] 0%nat
              {| comm_nranks := 2; comm_rank := 1; comm_id := example_id;
                 comm_device := 0; comm_asyncErr := 0;
                 comm_aborted := false |} [])
    as (s' & Hrun & Hab & _ & Hst & _);
    [ reflexivity | apply sample_peer_quiet | reflexivity
    | apply list_elem_of_here | reflexivity | apply not_elem_of_empty
    | apply lookup_singleton_eq | apply lookup_singleton_eq
    | repeat constructor; eexists; reflexivity | ].
  exists s'. split; [exact Hrun|]. split; [exact Hab|exact Hst].
Defined.

Lemma watchdog_quiet_turn_witness :
  ncclCommWatchdog_iteration (sample_group 0) = (Ok tt, sample_group 0).
Proof.
  apply watchdog_quiet_turn;
    [apply sample_group_quiet | intros commId; apply lookup_empty].
Defined.

(** X16. A timeout on one rank reaches its peers through the store.  When
    the blocking wait of a work that holds the store runs past its timeout,
    [synchronize] aborts the communicators of the work and throws the
    timeout error; a rank that holds a communicator of the same unique id,
    with blocking wait on and no error of its own, and that sees the store
    as the waiting rank left it, aborts the communicators registered under
    that id at the next turn of its watchdog. *)
Theorem timeout_reaches_peer
    (wA : WorkNCCL) (sA sB : State) (tk : Tick) (rest : list Tick)
    (psA : list CommPtr) (pA : CommPtr) (cA : NCCLComm)
    (key : string) (group psB : list CommPtr) (pB : CommPtr) (cB : NCCLComm) :
  w_blockingWait_ wA = true -> exception_ wA = None ->
  w_store_ wA = the_store ->
  ncclComms_ wA = Some <$> psA -> all_valid (comms sA) psA ->
  pA ∈ psA -> comms sA !! pA = Some cA ->
  tick_errors tk = [] ->
  checkForNCCLErrorsInternal (comms sA) (ncclComms_ wA) = Ok None ->
  (forall s', finishedGPUExecutionInternal (tick_queries tk) (devices_ wA) s'
              = (Ok false, s')) ->
  w_opTimeout_ wA < tick_now tk - workStartTime_ wA ->
  blockingWait_ sB = true -> cache_quiet sB ->
  devNCCLCommMap_ sB !! key = Some group -> pB ∈ group ->
  comms sB !! pB = Some cB ->
  comm_id cB = comm_id cA ->
  buildNcclUniqueIdStr (comm_id cB) ∉ abortedComms_ sB ->
  ncclIdToCommMap_ sB !! buildNcclUniqueIdStr (comm_id cB) = Some psB ->
  all_valid (comms sB) psB ->
  store sB = store (synchronize (tk :: rest) wA sA).2 ->
  exists sA' sB',
    synchronize (tk :: rest) wA sA
    = (Throw (runtime_error "Operation timed out!"), sA')
    /\ ncclCommWatchdog_iteration sB = (Ok tt, sB')
    /\ Forall (aborted_in (comms sA')) psA
    /\ Forall (aborted_in (comms sB')) psB.
Proof.
  intros Hb Hex Hsp Hcs HvA HpA HcA Herrs Hcheck Hfin Hto
         HbB Hq Hkey HpB HcB Hid Hout Hreg HvB Hstore.
  destruct (synchronize_past_timeout wA tk rest sA Hb Hex Herrs Hcheck Hfin Hto)
    as [calls Hsync].
  destruct (abort_on_timeout_publishes wA psA
              (set_steady_clock (tick_now tk) (logged calls sA)) Hsp Hcs HvA)
    as (sA' & Habort & HallA & Hpub).
  assert (synchronize (tk :: rest) wA sA
          = (Throw (runtime_error "Operation timed out!"), sA')) as HrunA.
  { rewrite Hsync. unfold bind. now rewrite Habort. }
  rewrite HrunA in Hstore. cbn [snd] in Hstore.
  specialize (Hpub pA cA HpA HcA). rewrite <- abort_marker_key_eq in Hpub.
  destruct (watchdog_follows_marker_run sB key group psB pB cB [])
    as (sB' & HrunB & HallB & _); auto.
  { rewrite Hstore, Hid. exact Hpub. }
  exists sA', sB'. auto.
Qed.

Lemma sample_timeout_store :
  store (synchronize [tick_at 600 cudaErrorNotReady] (sample_work true None)
           (sample_group 0)).2 = marker_store.
Proof. vm_cast_no_check (eq_refl marker_store). Qed.

Lemma timeout_reaches_peer_witness :
  exists sA' sB',
    synchronize [tick_at 600 cudaErrorNotReady] (sample_work true None)
      (sample_group 0)
    = (Throw (runtime_error "Operation timed out!"), sA')
    /\ ncclCommWatchdog_iteration (sample_peer marker_store) = (Ok tt, sB')
    /\ Forall (aborted_in (comms sB')) [0%nat].
Proof.
  destruct (timeout_reaches_peer (sample_work true None) (sample_group 0)
              (sample_peer marker_store) (tick_at 600 cudaErrorNotReady) []
              [0%nat] 0%nat
              {| comm_nranks := 2; comm_rank := 0; comm_id := example_id;
                 comm_device := 0; comm_asyncErr := 0;
                 comm_aborted := false |}
              "0" [0%nat] [0%nat] 0%nat
              {| comm_nranks := 2; comm_rank := 1; comm_id := example_id;
                 comm_device := 0; comm_asyncErr := 0;
                 comm_aborted := false |})
    as (sA' & sB' & HA & HB & _ & Hab);
    [ reflexivity | reflexivity | reflexivity | reflexivity
    | repeat constructor; eexists; reflexivity
    | apply list_elem_of_here | reflexivity | reflexivity
    | reflexivity | intros s'; reflexivity | reflexivity
    | reflexivity | apply sample_peer_quiet | reflexivity
    | apply list_elem_of_here | reflexivity | reflexivity
    | apply not_elem_of_empty | apply lookup_singleton_eq
    | repeat constructor; eexists; reflexivity
    | symmetry; apply sample_timeout_store | ].
  exists sA', sB'. auto.
Defined.

Lemma at_index_inv {A} (l : list A) (i : nat) (a : A) (s s' : State) :
  at_index l i s = (Ok a, s') -> l !! i = Some a /\ s' = s.
Proof.
  unfold at_index. destruct (l !! i); [|discriminate].
  intros H. injection H as <- <-. auto.
Qed.

Lemma assign_inv {A} (l : list A) (i : nat) (a : A) (l' : list A)
    (s s' : State) :
  assign l i a s = (Ok l', s') ->
  (i < length l)%nat /\ l' = <[i := a]> l /\ s' = s.
Proof.
  unfold assign. destruct (Nat.ltb_spec i (length l)) as [Hlt|Hge];
    [|discriminate].
  intros H. injection H as <- <-. auto.
Qed.

Lemma emit_inv (e : Effect) (u : unit) (s s' : State) :
  emit e s = (Ok u, s') -> s' = logged [e] s.
Proof. intros H. injection H as _ <-. reflexivity. Qed.

Lemma collective_finish_step_inv (streams : list CUDAStream)
    (ps : list CommPtr) (i : nat) (work w' : WorkNCCL) (s s' : State) :
  collective_finish_step streams ps i work s = (Ok w', s') ->
  exists stream p,
    streams !! i = Some stream /\ ps !! i = Some p
    /\ (i < length (cudaEvents_ work))%nat
    /\ (i < length (ncclComms_ work))%nat
    /\ s' = logged [cudaEventRecord (WorkEvent i) stream] s
    /\ w' = {| devices_ := devices_ work;
               cudaEvents_ := <[i := Some stream]> (cudaEvents_ work);
               ncclComms_ := <[i := Some p]> (ncclComms_ work);
               w_blockingWait_ := blockingWait_ s;
               w_opTimeout_ := opTimeout_ s;
               workStartTime_ := workStartTime_ work;
               w_store_ := the_store;
               exception_ := exception_ work;
               barrierTensors_ := barrierTensors_ work |}.
Proof.
  unfold collective_finish_step. intros H.
  apply bind_inv_ok in H as (s0 & s1 & Hget & H). injection Hget as <- <-.
  apply bind_inv_ok in H as (stream & s2 & Hst & H).
  apply at_index_inv in Hst as [Hst ->].
  apply bind_inv_ok in H as (events & s3 & Hev & H).
  apply assign_inv in Hev as (Hlev & -> & ->).
  apply bind_inv_ok in H as (u & s4 & Hem & H).
  apply emit_inv in Hem as ->.
  apply bind_inv_ok in H as (p & s5 & Hp & H).
  apply at_index_inv in Hp as [Hp ->].
  apply bind_inv_ok in H as (cs & s6 & Hcs & H).
  apply assign_inv in Hcs as (Hlcs & -> & ->).
  injection H as <- <-.
  exists stream, p. repeat split; assumption.
Qed.

Lemma insert_next_slot {A} (l : list A) (k n : nat) (a : A) :
  l !! k = Some a -> (k < n)%nat ->
  <[k := Some a]> ((Some <$> take k l) ++ replicate (n - k) None)
  = (Some <$> take (S k) l) ++ replicate (n - S k) None.
Proof.
  intros Hk Hn.
  assert (length (Some <$> take k l) = k) as Hlen.
  { rewrite length_fmap, length_take. apply lookup_lt_Some in Hk. lia. }
  rewrite insert_app_r_alt by lia. rewrite Hlen, Nat.sub_diag.
  replace (n - k)%nat with (S (n - S k)) by lia.
  cbn [replicate]. rewrite (take_S_r l k a Hk), fmap_app.
  rewrite <- app_assoc. reflexivity.
Qed.

(** The last loop of [collective] fills the slots of the work in order. *)
Lemma collective_finish_fold (streams : list CUDAStream) (ps : list CommPtr)
    (n : nat) :
  forall (m k : nat) (work w' : WorkNCCL) (s s' : State),
    fold_each (seq k m) (collective_finish_step streams ps) work s
    = (Ok w', s') ->
    ncclComms_ work = (Some <$> take k ps) ++ replicate (n - k) None ->
    cudaEvents_ work = (Some <$> take k streams) ++ replicate (n - k) None ->
    ncclComms_ w' = (Some <$> take (k + m) ps) ++ replicate (n - (k + m)) None
    /\ cudaEvents_ w'
       = (Some <$> take (k + m) streams) ++ replicate (n - (k + m)) None
    /\ devices_ w' = devices_ work
    /\ workStartTime_ w' = workStartTime_ work
    /\ barrierTensors_ w' = barrierTensors_ work
    /\ exception_ w' = exception_ work
    /\ policy s' = policy s
    /\ (m = 0%nat -> w' = work)
    /\ ((0 < m)%nat ->
        w_blockingWait_ w' = blockingWait_ s
        /\ w_opTimeout_ w' = opTimeout_ s
        /\ w_store_ w' = the_store).
Proof.
  induction m as [|m IH]; intros k work w' s s' Hrun Hcs Hev.
  - cbn in Hrun. injection Hrun as <- <-. rewrite Nat.add_0_r.
    repeat split; auto; lia.
  - cbn [seq fold_each] in Hrun.
    apply bind_inv_ok in Hrun as (w1 & s1 & Hstep & Hrun).
    apply collective_finish_step_inv in Hstep
        as (stream & p & Hst & Hp & Hlev & Hlcs & -> & ->).
    assert (k < n)%nat as Hkn.
    { rewrite Hcs, length_app, length_fmap, length_take, length_replicate
        in Hlcs.
      apply lookup_lt_Some in Hp. lia. }
    apply IH in Hrun as (H1 & H2 & H3 & H4 & H5 & H6 & H7 & H8 & H9).
    + rewrite Nat.add_succ_r. cbn [Nat.add] in H1, H2.
      split; [exact H1|]. split; [exact H2|].
      split; [exact H3|]. split; [exact H4|].
      split; [exact H5|]. split; [exact H6|].
      split; [exact H7|]. split; [discriminate|]. intros _.
      destruct m as [|m].
      * rewrite (H8 eq_refl). cbn. auto.
      * apply H9. lia.
    + cbn [ncclComms_]. rewrite Hcs. now apply insert_next_slot.
    + cbn [cudaEvents_]. rewrite Hev. now apply insert_next_slot.
Qed.

Lemma keeps_getNCCLComm_policy (devicesKey : string) (devices : list Z) :
  keeps (fun s => (blockingWait_ s, opTimeout_ s, steady_clock s))
    (getNCCLComm devicesKey devices).
Proof.
  unfold getNCCLComm, ncclGetUniqueId, broadcastUniqueNCCLID, store_set,
    store_get, emit, create_comm_step, NCCLComm_create, getStreamFromPool,
    emit.
  solve_keeps.
Qed.

Lemma keeps_ncclEvents_at (key : string) :
  keeps (fun s => (policy s, steady_clock s)) (ncclEvents_at key).
Proof. unfold ncclEvents_at. solve_keeps. Qed.

Lemma keeps_ncclStreams_at (key : string) :
  keeps (fun s => (devNCCLCommMap_ s, blockingWait_ s, opTimeout_ s,
                   steady_clock s))
    (ncclStreams_at key).
Proof. unfold ncclStreams_at. solve_keeps. Qed.

Lemma ncclStreams_at_inv (key : string) (streams : list CUDAStream)
    (s s' : State) :
  ncclStreams_at key s = (Ok streams, s') ->
  ncclStreams_ s' !! key = Some streams.
Proof.
  unfold ncclStreams_at, bind, modify, get_state, ret. cbn.
  intros H. injection H as <- <-. cbn.
  destruct (emplace_lookup key [] (ncclStreams_ s)) as [v Hv].
  now rewrite Hv.
Qed.

Lemma keeps_syncStreams (devices : list Z) (key : string) (n : nat)
    (streams : list CUDAStream) :
  keeps (fun s => (policy s, steady_clock s))
    (syncStreams devices key n streams).
Proof. unfold syncStreams, for_range, emit. solve_keeps. Qed.

(** What [collective] leaves in the work it returns. *)
Lemma collective_inv (inputs outputs : list Tensor)
    (fn : Tensor -> Tensor -> CommPtr -> CUDAStream -> M ncclResult_t)
    (pre post : list CUDAStream -> M unit) (s s' : State) (w : WorkNCCL) :
  (forall i o p st, keeps policy (fn i o p st)) ->
  (forall streams, keeps policy (pre streams)) ->
  (forall streams, keeps policy (post streams)) ->
  collective inputs outputs fn pre post s = (Ok w, s') ->
  exists ps streams,
    devNCCLCommMap_ s' !! getKeyFromDevices (getDeviceList inputs) = Some ps
    /\ ncclStreams_ s' !! getKeyFromDevices (getDeviceList inputs)
       = Some streams
    /\ devices_ w = getDeviceList inputs
    /\ ncclComms_ w = Some <$> take (length inputs) ps
    /\ cudaEvents_ w = Some <$> take (length inputs) streams
    /\ workStartTime_ w = steady_clock s
    /\ barrierTensors_ w = [] /\ exception_ w = None
    /\ (inputs <> [] ->
        w_blockingWait_ w = blockingWait_ s
        /\ w_opTimeout_ w = opTimeout_ s
        /\ w_store_ w = the_store).
Proof.
  intros Hfn Hpre Hpost H. unfold collective in H.
  set (key := getKeyFromDevices (getDeviceList inputs)) in *.
  apply bind_inv_ok in H as (ps & s1 & Hcomm & H).
  apply bind_inv_ok in H as (nev & s2 & Hev & H).
  apply bind_inv_ok in H as (streams & s3 & Hstr & H).
  apply bind_inv_ok in H as (u1 & s4 & Hsync & H).
  apply bind_inv_ok in H as (work & s5 & Hinit & H).
  apply bind_inv_ok in H as (u2 & s6 & Hp & H).
  apply bind_inv_ok in H as (u3 & s7 & Hl1 & H).
  apply bind_inv_ok in H as (u4 & s8 & He1 & H).
  apply bind_inv_ok in H as (u5 & s9 & He2 & H).
  apply bind_inv_ok in H as (u6 & s10 & Hsc & H).
  apply bind_inv_ok in H as (u7 & s11 & Hpo & H).
  pose proof (keeps_run _ _ _ _ _ (keeps_getNCCLComm_policy _ _) Hcomm) as K1.
  apply getNCCLComm_ok_inv in Hcomm as (_ & Hps & _).
  pose proof (keeps_run _ _ _ _ _ (keeps_ncclEvents_at _) Hev) as K2.
  pose proof (keeps_run _ _ _ _ _ (keeps_ncclStreams_at _) Hstr) as K3.
  apply ncclStreams_at_inv in Hstr.
  pose proof (keeps_run _ _ _ _ _ (keeps_syncStreams _ _ _ _) Hsync) as K4.
  unfold initWork in Hinit.
  apply bind_inv_ok in Hinit as (s0 & s0' & Hget & Hinit).
  injection Hget as <- <-. injection Hinit as <- <-.
  pose proof (keeps_run _ _ _ _ _ (Hpre _) Hp) as K6.
  assert (policy s7 = policy s6) as K7.
  { eapply keeps_run; [|exact Hl1]. unfold for_range, emit. solve_keeps. }
  assert (policy s8 = policy s7) as K8.
  { eapply keeps_run; [|exact He1]. unfold emit. solve_keeps. }
  assert (policy s9 = policy s8) as K9.
  { eapply keeps_run; [|exact He2]. unfold emit. solve_keeps. }
  assert (policy s10 = policy s9) as K10.
  { eapply keeps_run; [|exact Hsc].
    unfold for_range, C10D_NCCL_CHECK, emit. solve_keeps; apply Hfn. }
  pose proof (keeps_run _ _ _ _ _ (Hpost _) Hpo) as K11.
  apply (collective_finish_fold streams ps (length inputs)) in H
      as (H1 & H2 & H3 & H4 & H5 & H6 & K12 & _ & H9).
  - cbn [Nat.add] in H1, H2. rewrite Nat.sub_diag in H1, H2.
    cbn [replicate] in H1, H2. rewrite app_nil_r in H1, H2.
    cbn [devices_ workStartTime_ barrierTensors_ exception_] in H3, H4, H5, H6.
    unfold policy in *.
    exists ps, streams.
    split; [congruence|]. split; [congruence|].
    split; [exact H3|]. split; [exact H1|]. split; [exact H2|].
    split; [congruence|]. split; [exact H5|]. split; [exact H6|].
    intros Hne.
    destruct H9 as (Hb & Ht & Hs).
    { destruct inputs; [contradiction|cbn; lia]. }
    split; [congruence|]. split; [congruence|exact Hs].
  - cbn [ncclComms_]. unfold getDeviceList. rewrite length_fmap.
    now rewrite take_0, Nat.sub_0_r.
  - cbn [cudaEvents_]. unfold getDeviceList. rewrite length_fmap.
    now rewrite take_0, Nat.sub_0_r.
Qed.

Lemma allreduce_inv (tensors : list Tensor) (op : ReduceOp)
    (s s' : State) (w : WorkNCCL) :
  allreduce tensors op s = (Ok w, s') ->
  exists ps streams,
    devNCCLCommMap_ s' !! getKeyFromDevices (getDeviceList tensors) = Some ps
    /\ ncclStreams_ s' !! getKeyFromDevices (getDeviceList tensors)
       = Some streams
    /\ devices_ w = getDeviceList tensors
    /\ ncclComms_ w = Some <$> take (length tensors) ps
    /\ cudaEvents_ w = Some <$> take (length tensors) streams
    /\ w_blockingWait_ w = blockingWait_ s
    /\ w_opTimeout_ w = opTimeout_ s
    /\ w_store_ w = the_store
    /\ workStartTime_ w = steady_clock s
    /\ barrierTensors_ w = [] /\ exception_ w = None.
Proof.
  unfold allreduce. intros H.
  apply bind_inv_ok in H as (u & s1 & Hcheck & H).
  rewrite check_gpu_tensors_m_run in Hcheck. injection Hcheck as Hcheck <-.
  apply collective_inv in H
      as (ps & streams & H1 & H2 & H3 & H4 & H5 & H6 & H7 & H8 & H9).
  - destruct H9 as (Hb & Ht & Hs).
    { intros ->. discriminate Hcheck. }
    exists ps, streams. repeat (split; [assumption|]). assumption.
  - intros i o p st. unfold emit. solve_keeps.
  - intros streams. solve_keeps.
  - intros streams. solve_keeps.
Qed.

(** X17. The work [allreduce] returns records the operation it stands
    for: the devices of the tensors, the communicators of the cached group
    and the streams kept with it, element by element, the wait policy and
    the timeout of the process group, the store, and the time on the clock
    when the call was made; it holds no exception and no barrier tensors.
    The communicators are the cached ones, not copies: what the watchdog
    does to the cache is seen through the work. *)
Theorem allreduce_work (tensors : list Tensor) (op : ReduceOp)
    (s s' : State) (w : WorkNCCL) :
  allreduce tensors op s = (Ok w, s') ->
  exists ps streams,
    devNCCLCommMap_ s' !! getKeyFromDevices (getDeviceList tensors) = Some ps
    /\ ncclStreams_ s' !! getKeyFromDevices (getDeviceList tensors)
       = Some streams
    /\ devices_ w = getDeviceList tensors
    /\ ncclComms_ w = Some <$> take (length tensors) ps
    /\ cudaEvents_ w = Some <$> take (length tensors) streams
    /\ w_blockingWait_ w = blockingWait_ s
    /\ w_opTimeout_ w = opTimeout_ s
    /\ w_store_ w = the_store
    /\ workStartTime_ w = steady_clock s
    /\ barrierTensors_ w = [] /\ exception_ w = None.
Proof. apply allreduce_inv. Qed.

Lemma allreduce_work_witness :
  exists w,
    (allreduce [dense_float 0 0] SUM (sample_group 0)).1 = Ok w
    /\ ncclComms_ w = [Some 0%nat] /\ w_blockingWait_ w = true
    /\ w_opTimeout_ w = 500.
Proof.
  assert ((allreduce [dense_float 0 0] SUM (sample_group 0)).1
          = Ok (sample_work true None)) as H1 by (vm_compute; reflexivity).
  destruct (allreduce [dense_float 0 0] SUM (sample_group 0)) as [o s0] eqn:Hr.
  cbn [fst] in H1. subst o.
  destruct (allreduce_work [dense_float 0 0] SUM (sample_group 0) s0
              (sample_work true None) Hr)
    as (ps & streams & _ & _ & _ & _ & _ & Hb & Ht & _).
  exists (sample_work true None).
  split; [reflexivity|]. split; [reflexivity|]. split; [exact Hb | exact Ht].
Defined.

Lemma lanes_from_0 (tensors : list Tensor) (ps : list CommPtr)
    (streams : list CUDAStream) :
  lanes_from tensors ps streams 0 (lanes tensors ps streams).
Proof.
  intros j t p st H. unfold lanes in H.
  apply lookup_zip_with_Some in H as ([t1 p1] & st1 & E & H1 & H2).
  injection E as -> -> ->.
  apply lookup_zip_with_Some in H1 as (t2 & p2 & E & H1 & H3).
  injection E as -> ->. auto.
Qed.

Lemma lanes_from_cons (tensors : list Tensor) (ps : list CommPtr)
    (streams : list CUDAStream) (k : nat) (t : Tensor) (p : CommPtr)
    (st : CUDAStream) (l : list Lane) :
  lanes_from tensors ps streams k ((t, p, st) :: l) ->
  tensors !! k = Some t /\ ps !! k = Some p /\ streams !! k = Some st
  /\ lanes_from tensors ps streams (S k) l.
Proof.
  intros H. pose proof (H 0%nat t p st eq_refl) as H0.
  rewrite Nat.add_0_r in H0. destruct H0 as (H1 & H2 & H3).
  repeat (split; [assumption|]).
  intros j t' p' st' Hj. specialize (H (S j) t' p' st' Hj).
  now rewrite Nat.add_succ_r in H.
Qed.

Lemma length_lanes (tensors : list Tensor) (ps : list CommPtr)
    (streams : list CUDAStream) :
  length ps = length tensors -> length streams = length tensors ->
  length (lanes tensors ps streams) = length tensors.
Proof.
  intros H1 H2. unfold lanes. rewrite !length_zip_with. lia.
Qed.

Lemma emplace_present {V} (k : string) (v v' : V) (m : gmap string V) :
  m !! k = Some v' -> emplace k v m = m.
Proof. intros H. unfold emplace. now rewrite H. Qed.

Lemma set_ncclEvents_id (s : State) : set_ncclEvents_ (ncclEvents_ s) s = s.
Proof. destruct s; reflexivity. Qed.

Lemma set_ncclStreams_id (s : State) : set_ncclStreams_ (ncclStreams_ s) s = s.
Proof. destruct s; reflexivity. Qed.

Lemma ncclEvents_at_hit (key : string) (n : nat) (s : State) :
  ncclEvents_ s !! key = Some n -> ncclEvents_at key s = (Ok n, s).
Proof.
  intros H. unfold ncclEvents_at, bind, modify, get_state, ret. cbn.
  rewrite (emplace_present _ _ _ _ H), H, set_ncclEvents_id. reflexivity.
Qed.

Lemma ncclStreams_at_hit (key : string) (streams : list CUDAStream)
    (s : State) :
  ncclStreams_ s !! key = Some streams ->
  ncclStreams_at key s = (Ok streams, s).
Proof.
  intros H. unfold ncclStreams_at, bind, modify, get_state, ret. cbn.
  rewrite (emplace_present _ _ _ _ H), H, set_ncclStreams_id. reflexivity.
Qed.

Ltac run_at H := rewrite (bind_ok _ _ _ _ _ (at_index_run _ _ _ _ H)).
Ltac run_emit := rewrite (bind_ok _ _ _ _ _ (emit_run _ _)).

Lemma syncStreams_run (tensors : list Tensor) (ps : list CommPtr)
    (streams : list CUDAStream) (key : string) (nev : nat) :
  forall (l : list Lane) (k : nat) (s : State),
    lanes_from tensors ps streams k l -> (k + length l <= nev)%nat ->
    for_each (seq k (length l)) (fun i =>
      ncclStream <- at_index streams i ;;;
      (if (i <? nev)%nat then ret tt
       else undefined "vector index out of range") ;;;
      d <- at_index (getDeviceList tensors) i ;;;
      emit (cudaEventRecord (SyncEvent key i) (CurrentStream d)) ;;;
      emit (cudaStreamWaitEvent ncclStream (SyncEvent key i))) s
    = (Ok tt, logged (syncStreams_calls key k l) s).
Proof.
  induction l as [|[[t p] st] l IH]; intros k s Hl Hn.
  - cbn. now rewrite logged_nil.
  - apply lanes_from_cons in Hl as (Ht & Hp & Hst & Hl).
    assert (getDeviceList tensors !! k = Some (get_device t)) as Hd.
    { unfold getDeviceList. now rewrite list_lookup_fmap, Ht. }
    cbn [length seq for_each syncStreams_calls] in *.
    erewrite bind_ok.
    2:{ run_at Hst.
        destruct (Nat.ltb_spec k nev) as [_|Hge]; [|lia].
        erewrite bind_ok by reflexivity.
        run_at Hd. run_emit. apply emit_run. }
    rewrite IH by (auto; lia). rewrite !logged_app. reflexivity.
Qed.

Lemma recordStream_run (tensors : list Tensor) (ps : list CommPtr)
    (streams : list CUDAStream) :
  forall (l : list Lane) (k : nat) (s : State),
    lanes_from tensors ps streams k l ->
    for_each (seq k (length l)) (fun i =>
      d <- at_index (getDeviceList tensors) i ;;;
      emit (cudaSetDevice d) ;;;
      ncclStream <- at_index streams i ;;;
      input <- at_index tensors i ;;;
      emit (recordStream (storage input) ncclStream)) s
    = (Ok tt, logged (recordStream_calls l) s).
Proof.
  induction l as [|[[t p] st] l IH]; intros k s Hl.
  - cbn. now rewrite logged_nil.
  - apply lanes_from_cons in Hl as (Ht & Hp & Hst & Hl).
    assert (getDeviceList tensors !! k = Some (get_device t)) as Hd.
    { unfold getDeviceList. now rewrite list_lookup_fmap, Ht. }
    cbn [length seq for_each] in *.
    erewrite bind_ok.
    2:{ run_at Hd. run_emit. run_at Hst. run_at Ht. apply emit_run. }
    rewrite IH by auto. rewrite !logged_app. reflexivity.
Qed.

(** The loop inside the NCCL group, for the closure of [allreduce]. *)
Lemma allreduce_group_run (tensors : list Tensor) (ps : list CommPtr)
    (streams : list CUDAStream) (datatype : ncclDataType_t)
    (op : ncclRedOp_t) :
  (forall t, t ∈ tensors -> getNcclDataType (scalar_type t) = Ok datatype) ->
  forall (l : list Lane) (k : nat) (s : State),
    lanes_from tensors ps streams k l ->
    for_each (seq k (length l)) (fun i =>
      d <- at_index (getDeviceList tensors) i ;;;
      emit (cudaSetDevice d) ;;;
      ncclStream <- at_index streams i ;;;
      input <- at_index tensors i ;;;
      output <- at_index tensors i ;;;
      p <- at_index ps i ;;;
      r <- (datatype <- lift (getNcclDataType (scalar_type input)) ;;;
            emit (ncclAllReduce (data_ptr input) (data_ptr output)
                    (numel input) datatype op p ncclStream) ;;;
            ret ncclSuccess) ;;;
      C10D_NCCL_CHECK r) s
    = (Ok tt, logged (allreduce_calls datatype op l) s).
Proof.
  intros Htype.
  induction l as [|[[t p] st] l IH]; intros k s Hl.
  - cbn. now rewrite logged_nil.
  - apply lanes_from_cons in Hl as (Ht & Hp & Hst & Hl).
    assert (getDeviceList tensors !! k = Some (get_device t)) as Hd.
    { unfold getDeviceList. now rewrite list_lookup_fmap, Ht. }
    cbn [length seq for_each] in *.
    erewrite bind_ok.
    2:{ run_at Hd. run_emit. run_at Hst. run_at Ht. run_at Ht. run_at Hp.
        erewrite bind_ok.
        2:{ unfold lift.
            rewrite (Htype t (list_elem_of_lookup_2 _ _ _ Ht)).
            erewrite bind_ok by reflexivity.
            run_emit. reflexivity. }
        reflexivity. }
    rewrite IH by auto. rewrite !logged_app. reflexivity.
Qed.

Lemma scoped_ok {A} (body : M A) (cleanup : M unit) (s s1 s2 : State) (a : A) :
  body s = (Ok a, s1) -> cleanup s1 = (Ok tt, s2) ->
  scoped body cleanup s = (Ok a, s2).
Proof. intros Hb Hc. unfold scoped. now rewrite Hb, Hc. Qed.

Lemma scoped_throw {A} (body : M A) (cleanup : M unit) (s s1 s2 : State)
    (e : Exn) :
  body s = (Throw e, s1) -> cleanup s1 = (Ok tt, s2) ->
  scoped body cleanup s = (Throw e, s2).
Proof. intros Hb Hc. unfold scoped. now rewrite Hb, Hc. Qed.

Lemma group_end_run (s : State) :
  (emit ncclGroupEnd ;;; emit freeMutex_unlock) s
  = (Ok tt, logged [ncclGroupEnd; freeMutex_unlock] s).
Proof. run_emit. rewrite emit_run, logged_app. reflexivity. Qed.

Lemma collective_finish_run (tensors : list Tensor) (ps : list CommPtr)
    (streams : list CUDAStream) :
  forall (l : list Lane) (k : nat) (work : WorkNCCL) (s : State),
    lanes_from tensors ps streams k l ->
    (k + length l <= length (cudaEvents_ work))%nat ->
    (k + length l <= length (ncclComms_ work))%nat ->
    exists w',
      fold_each (seq k (length l)) (collective_finish_step streams ps) work s
      = (Ok w', logged (workEvent_calls k l) s).
Proof.
  induction l as [|[[t p] st] l IH]; intros k work s Hl Hev Hcs.
  - exists work. cbn. now rewrite logged_nil.
  - apply lanes_from_cons in Hl as (Ht & Hp & Hst & Hl).
    cbn [length seq fold_each workEvent_calls] in *.
    assert (exists w1,
              collective_finish_step streams ps k work s
              = (Ok w1, logged [cudaEventRecord (WorkEvent k) st] s)
              /\ length (cudaEvents_ w1) = length (cudaEvents_ work)
              /\ length (ncclComms_ w1) = length (ncclComms_ work))
      as (w1 & Hstep & Hl1 & Hl2).
    { eexists. split.
      - unfold collective_finish_step.
        erewrite bind_ok by reflexivity.
        run_at Hst.
        unfold assign.
        destruct (Nat.ltb_spec k (length (cudaEvents_ work))) as [_|]; [|lia].
        erewrite bind_ok by reflexivity.
        run_emit. run_at Hp.
        destruct (Nat.ltb_spec k (length (ncclComms_ work))) as [_|]; [|lia].
        erewrite bind_ok by reflexivity.
        reflexivity.
      - cbn. now rewrite !length_insert. }
    destruct (IH (S k) w1 (logged [cudaEventRecord (WorkEvent k) st] s))
      as (w' & Hrun); [auto|lia|lia|].
    exists w'. rewrite (bind_ok _ _ _ _ _ Hstep), Hrun, logged_app.
    reflexivity.
Qed.

Lemma getKeyFromDevices_nonempty (devices : list Z) :
  devices <> [] -> getKeyFromDevices devices <> ""%string.
Proof.
  destruct devices as [|d devices]; [contradiction|]. intros _.
  rewrite getKeyFromDevices_cons.
  pose proof (std_to_string_nonempty d) as Hne.
  destruct (std_to_string d); [contradiction|discriminate].
Qed.

Lemma work_eq (w : WorkNCCL) devices events cs b t start sp e bt :
  devices_ w = devices -> cudaEvents_ w = events -> ncclComms_ w = cs ->
  w_blockingWait_ w = b -> w_opTimeout_ w = t -> workStartTime_ w = start ->
  w_store_ w = sp -> exception_ w = e -> barrierTensors_ w = bt ->
  w = mkWork devices events cs b t start sp e bt.
Proof. destruct w; cbn; intros; subst; reflexivity. Qed.

(** The first steps of [collective] on a hit of the cache, up to the loop
    that notes the inputs with the allocator. *)
Lemma collective_prologue (tensors : list Tensor) (s : State)
    (ps : list CommPtr) (streams : list CUDAStream) (nev : nat) :
  tensors <> [] ->
  devNCCLCommMap_ s !! getKeyFromDevices (getDeviceList tensors) = Some ps ->
  ncclStreams_ s !! getKeyFromDevices (getDeviceList tensors) = Some streams ->
  ncclEvents_ s !! getKeyFromDevices (getDeviceList tensors) = Some nev ->
  length ps = length tensors -> length streams = length tensors ->
  (length tensors <= nev)%nat ->
  let key := getKeyFromDevices (getDeviceList tensors) in
  let l := lanes tensors ps streams in
  let s1 := note_devices (getDeviceList tensors) s in
  getNCCLComm key (getDeviceList tensors) s = (Ok ps, s1)
  /\ ncclEvents_at key s1 = (Ok nev, s1)
  /\ ncclStreams_at key s1 = (Ok streams, s1)
  /\ syncStreams (getDeviceList tensors) key nev streams s1
     = (Ok tt, logged (syncStreams_calls key 0 l) s1)
  /\ (forall s0,
        for_range (length tensors) (fun i =>
          d <- at_index (getDeviceList tensors) i ;;;
          emit (cudaSetDevice d) ;;;
          ncclStream <- at_index streams i ;;;
          input <- at_index tensors i ;;;
          emit (recordStream (storage input) ncclStream)) s0
        = (Ok tt, logged (recordStream_calls l) s0)).
Proof.
  intros Hne Hps Hstreams Hnev Hlp Hls Hn key l s1.
  assert (length l = length tensors) as Hll by now apply length_lanes.
  pose proof (lanes_from_0 tensors ps streams) as Hl. fold l in Hl.
  split; [|split; [|split; [|split]]].
  - apply getNCCLComm_hit; [|exact Hps].
    apply getKeyFromDevices_nonempty. unfold getDeviceList.
    destruct tensors; [contradiction|discriminate].
  - now apply ncclEvents_at_hit.
  - now apply ncclStreams_at_hit.
  - unfold syncStreams, for_range, getDeviceList. rewrite length_fmap, <- Hll.
    apply (syncStreams_run tensors ps streams); [exact Hl|lia].
  - intros s0. unfold for_range. rewrite <- Hll.
    now apply (recordStream_run tensors ps streams).
Qed.

(** X18. [allreduce] on tensors whose group of communicators is cached,
    with its streams and events: the call returns, and it issues, in this
    order, the wait of each NCCL stream for the current stream of its
    device, the note to the allocator that each tensor is in use on its
    NCCL stream, the lock of the allocator's free mutex and the start of
    an NCCL group, one in-place all-reduce for each tensor on the
    communicator and the stream of its device, the end of the group and
    the release of the mutex, and last the record of each completion
    event.  The operator of the all-reduce is the entry of the table
    [ncclOp] for the operation asked for: the sum, also for the three
    bitwise operations, which the table does not have.  Nothing else
    changes but the set of used devices. *)
Theorem allreduce_cached (tensors : list Tensor) (op : ReduceOp) (s : State)
    (ps : list CommPtr) (streams : list CUDAStream) (nev : nat)
    (datatype : ncclDataType_t) :
  check_gpu_tensors_multi (numGPUs s) tensors false = Ok tt ->
  (forall t, t ∈ tensors -> getNcclDataType (scalar_type t) = Ok datatype) ->
  devNCCLCommMap_ s !! getKeyFromDevices (getDeviceList tensors) = Some ps ->
  ncclStreams_ s !! getKeyFromDevices (getDeviceList tensors) = Some streams ->
  ncclEvents_ s !! getKeyFromDevices (getDeviceList tensors) = Some nev ->
  length ps = length tensors -> length streams = length tensors ->
  (length tensors <= nev)%nat ->
  allreduce tensors op s
  = (Ok {| devices_ := getDeviceList tensors;
           cudaEvents_ := Some <$> streams;
           ncclComms_ := Some <$> ps;
           w_blockingWait_ := blockingWait_ s;
           w_opTimeout_ := opTimeout_ s;
           workStartTime_ := steady_clock s;
           w_store_ := the_store;
           exception_ := None;
           barrierTensors_ := [] |},
     logged (allreduce_trace (getKeyFromDevices (getDeviceList tensors))
               datatype (ncclOp op) (lanes tensors ps streams))
       (note_devices (getDeviceList tensors) s)).
Proof.
  intros Hcheck Htype Hps Hstreams Hnev Hlp Hls Hn.
  assert (tensors <> []) as Hne by (intros ->; discriminate Hcheck).
  destruct (collective_prologue tensors s ps streams nev Hne Hps Hstreams Hnev
              Hlp Hls Hn) as (Hcomm & Hev & Hstr & Hsync & Hrec).
  set (key := getKeyFromDevices (getDeviceList tensors)) in *.
  set (l := lanes tensors ps streams) in *.
  set (s1 := note_devices (getDeviceList tensors) s) in *.
  assert (length l = length tensors) as Hll by now apply length_lanes.
  pose proof (lanes_from_0 tensors ps streams) as Hl. fold l in Hl.
  unfold allreduce.
  erewrite bind_ok by (rewrite check_gpu_tensors_m_run, Hcheck; reflexivity).
  unfold collective. fold key.
  rewrite (bind_ok _ _ _ _ _ Hcomm), (bind_ok _ _ _ _ _ Hev),
    (bind_ok _ _ _ _ _ Hstr), (bind_ok _ _ _ _ _ Hsync).
  erewrite bind_ok by reflexivity.
  erewrite bind_ok by reflexivity.
  rewrite (bind_ok _ _ _ _ _ (Hrec _)).
  run_emit. run_emit.
  erewrite bind_ok.
  2:{ eapply scoped_ok; [|apply group_end_run].
      unfold for_range. rewrite <- Hll.
      apply (allreduce_group_run tensors ps streams datatype (ncclOp op)
               Htype l 0);
        exact Hl. }
  erewrite bind_ok by reflexivity.
  rewrite <- Hll.
  match goal with
  | |- fold_each _ _ ?work ?s0 = _ =>
      destruct (collective_finish_run tensors ps streams l 0 work s0 Hl)
        as (w' & Hrun);
        [ cbn; unfold getDeviceList; rewrite length_replicate, length_fmap; lia
        | cbn; unfold getDeviceList; rewrite length_replicate, length_fmap; lia
        | ]
  end.
  rewrite Hrun.
  apply (collective_finish_fold streams ps (length tensors)) in Hrun
      as (H1 & H2 & H3 & H4 & H5 & H6 & _ & _ & H9).
  - destruct H9 as (Hb & Ht & Hs).
    { rewrite Hll. destruct tensors; [contradiction|cbn; lia]. }
    cbn [Nat.add] in H1, H2. rewrite Hll, Nat.sub_diag in H1, H2.
    cbn [replicate] in H1, H2. rewrite app_nil_r in H1, H2.
    rewrite take_ge in H1 by lia. rewrite take_ge in H2 by lia.
    f_equal.
    + f_equal. apply work_eq; assumption.
    + rewrite !logged_app. unfold allreduce_trace. reflexivity.
  - cbn [ncclComms_]. unfold getDeviceList. rewrite length_fmap.
    now rewrite take_0, Nat.sub_0_r.
  - cbn [cudaEvents_]. unfold getDeviceList. rewrite length_fmap.
    now rewrite take_0, Nat.sub_0_r.
Qed.

Lemma allreduce_cached_witness :
  (allreduce [dense_float 0 0] BAND (sample_group 0)).1
  = Ok (sample_work true None)
  /\ effects (allreduce [dense_float 0 0] BAND (sample_group 0)).2
     = [cudaEventRecord (SyncEvent "0" 0) (CurrentStream 0);
        cudaStreamWaitEvent (PoolStream 0 0) (SyncEvent "0" 0);
        cudaSetDevice 0; recordStream 0 (PoolStream 0 0);
        freeMutex_lock; ncclGroupStart;
        cudaSetDevice 0;
        ncclAllReduce (mkDevPtr 0 0) (mkDevPtr 0 0) 4 ncclFloat ncclSum
          0%nat (PoolStream 0 0);
        ncclGroupEnd; freeMutex_unlock;
        cudaEventRecord (WorkEvent 0) (PoolStream 0 0)].
Proof.
  rewrite (allreduce_cached [dense_float 0 0] BAND (sample_group 0) [0%nat]
             [PoolStream 0 0] 1 ncclFloat);
    [ split; reflexivity | reflexivity
    | intros t Ht; apply list_elem_of_singleton in Ht; subst; reflexivity
    | reflexivity | reflexivity | reflexivity | reflexivity | reflexivity
    | cbn; lia ].
Defined.

(** X19. [allreduce] on valid tensors of an element type outside the table
    of NCCL types fails late.  With the group of communicators cached, the
    error of [getNcclDataType] is thrown from inside the NCCL group: by
    then the NCCL streams have been synchronized with the current streams
    and the tensors noted with the allocator; the group is ended and the
    free mutex of the allocator released on the way out; no all-reduce is
    issued and no completion event recorded. *)
Theorem allreduce_unsupported_type (t0 : Tensor) (rest : list Tensor)
    (op : ReduceOp) (s : State) (ps : list CommPtr)
    (streams : list CUDAStream) (nev : nat) (e : Exn) :
  let tensors := t0 :: rest in
  let key := getKeyFromDevices (getDeviceList tensors) in
  let l := lanes tensors ps streams in
  check_gpu_tensors_multi (numGPUs s) tensors false = Ok tt ->
  getNcclDataType (scalar_type t0) = Throw e ->
  devNCCLCommMap_ s !! key = Some ps ->
  ncclStreams_ s !! key = Some streams ->
  ncclEvents_ s !! key = Some nev ->
  length ps = length tensors -> length streams = length tensors ->
  (length tensors <= nev)%nat ->
  allreduce tensors op s
  = (Throw e,
     logged (syncStreams_calls key 0 l ++ recordStream_calls l
             ++ [freeMutex_lock; ncclGroupStart;
                 cudaSetDevice (get_device t0);
                 ncclGroupEnd; freeMutex_unlock])
       (note_devices (getDeviceList tensors) s)).
Proof.
  intros tensors key l Hcheck Htype Hps Hstreams Hnev Hlp Hls Hn.
  assert (tensors <> []) as Hne by discriminate.
  destruct (collective_prologue tensors s ps streams nev Hne Hps Hstreams Hnev
              Hlp Hls Hn) as (Hcomm & Hev & Hstr & Hsync & Hrec).
  fold key l in Hcomm, Hev, Hstr, Hsync, Hrec.
  destruct (lookup_lt_is_Some_2 ps 0) as [p0 Hp0]; [rewrite Hlp; cbn; lia|].
  destruct (lookup_lt_is_Some_2 streams 0) as [st0 Hst0];
    [rewrite Hls; cbn; lia|].
  unfold allreduce.
  erewrite bind_ok by (rewrite check_gpu_tensors_m_run, Hcheck; reflexivity).
  unfold collective. fold key.
  rewrite (bind_ok _ _ _ _ _ Hcomm), (bind_ok _ _ _ _ _ Hev),
    (bind_ok _ _ _ _ _ Hstr), (bind_ok _ _ _ _ _ Hsync).
  erewrite bind_ok by reflexivity.
  erewrite bind_ok by reflexivity.
  rewrite (bind_ok _ _ _ _ _ (Hrec _)).
  run_emit. run_emit.
  erewrite bind_throw.
  2:{ eapply scoped_throw; [|apply group_end_run].
      unfold for_range. cbn [length seq for_each].
      apply bind_throw.
      erewrite bind_ok by reflexivity.
      run_emit. run_at Hst0.
      erewrite bind_ok by reflexivity.
      erewrite bind_ok by reflexivity.
      run_at Hp0.
      apply bind_throw. apply bind_throw. unfold lift. now rewrite Htype. }
  rewrite !logged_app. reflexivity.
Qed.

Lemma allreduce_unsupported_type_witness :
  exists what,
    (allreduce [dense_bool 0 0] SUM (sample_group 0)).1
    = Throw (runtime_error what)
    /\ effects (allreduce [dense_bool 0 0] SUM (sample_group 0)).2
       = [cudaEventRecord (SyncEvent "0" 0) (CurrentStream 0);
          cudaStreamWaitEvent (PoolStream 0 0) (SyncEvent "0" 0);
          cudaSetDevice 0; recordStream 0 (PoolStream 0 0);
          freeMutex_lock; ncclGroupStart; cudaSetDevice 0;
          ncclGroupEnd; freeMutex_unlock].
Proof.
  eexists.
  rewrite (allreduce_unsupported_type (dense_bool 0 0) [] SUM (sample_group 0)
             [0%nat] [PoolStream 0 0] 1
             (runtime_error "Unsupported data type for NCCL process group"));
    [ split; reflexivity | reflexivity | reflexivity
    | reflexivity | reflexivity | reflexivity | reflexivity | reflexivity
    | cbn; lia ].
Defined.

Lemma barrier_alloc_run (devices : list Z) :
  forall (acc : list Tensor) (s : State),
    fold_each devices barrier_alloc_step acc s
    = (Ok (acc ++ placeholder_tensors (next_storage s) devices),
       set_next_storage (next_storage s + length devices)
         (logged (cudaSetDevice <$> devices) s)).
Proof.
  induction devices as [|d devices IH]; intros acc s.
  - cbn. rewrite app_nil_r, Nat.add_0_r, logged_nil.
    destruct s; reflexivity.
  - cbn [fold_each]. unfold barrier_alloc_step at 1.
    erewrite bind_ok
      by (run_emit; erewrite bind_ok by reflexivity;
          erewrite bind_ok by reflexivity; reflexivity).
    rewrite IH. f_equal.
    + cbn [next_storage set_next_storage logged set_effects
             placeholder_tensors].
      rewrite <- app_assoc. reflexivity.
    + destruct s. unfold set_next_storage, logged, set_effects. cbn.
      rewrite <- app_assoc. cbn [app]. f_equal. lia.
Qed.

Lemma getDeviceList_placeholder (stor : nat) (devices : list Z) :
  getDeviceList (placeholder_tensors stor devices) = devices.
Proof.
  revert stor. induction devices as [|d devices IH]; intros stor;
    [reflexivity|].
  cbn. f_equal. apply IH.
Qed.

Lemma barrier_devices_run (s s' : State) (devices : list Z) :
  barrier_devices s = (Ok devices, s') ->
  s' = s
  /\ (usedDeviceIdxs_ s = ∅ ->
      devices = [wrap_int16 (Z.rem (rank_ s) (Z.of_nat (numGPUs s)))]
      /\ numGPUs s <> 0%nat)
  /\ (usedDeviceIdxs_ s <> ∅ ->
      devices = wrap_int16 <$> merge_sort Z.le (elements (usedDeviceIdxs_ s))).
Proof.
  unfold barrier_devices. intros H.
  apply bind_inv_ok in H as (s0 & s1 & Hget & H). injection Hget as <- <-.
  destruct (decide (usedDeviceIdxs_ s = ∅)) as [E|E].
  - rewrite bool_decide_eq_true_2 in H by exact E.
    destruct (decide (numGPUs s = 0%nat)) as [E0|E0].
    + rewrite bool_decide_eq_true_2 in H by exact E0. discriminate H.
    + rewrite bool_decide_eq_false_2 in H by exact E0.
      injection H as <- <-. split; [reflexivity|].
      split; [auto|contradiction].
  - rewrite bool_decide_eq_false_2 in H by exact E.
    injection H as <- <-. split; [reflexivity|].
    split; [contradiction|auto].
Qed.

Lemma wrap_int16_small (z : Z) : - 2 ^ 15 <= z < 2 ^ 15 -> wrap_int16 z = z.
Proof. unfold wrap_int16. intros H. rewrite Z.mod_small; lia. Qed.

(** X20. What [barrier] returns, when it returns.  Before any collective
    has run, the barrier works on the single device [rank mod numGPUs];
    afterwards on every device used so far, once each, in ascending order
    (for indices that fit the 16 bits of a device index).  The work is
    that of an all-reduce over one fresh one-byte tensor on each of these
    devices, and it holds these tensors; so waiting for it, without
    blocking wait, makes the current stream of each device wait for the
    event of the work and then synchronizes the device. *)
Theorem barrier_work (s s' : State) (w : WorkNCCL) :
  barrier s = (Ok w, s') ->
  exists devices,
    barrier_devices s = (Ok devices, s)
    /\ (usedDeviceIdxs_ s = ∅ ->
        devices = [wrap_int16 (Z.rem (rank_ s) (Z.of_nat (numGPUs s)))])
    /\ ((forall d, d ∈ usedDeviceIdxs_ s -> - 2 ^ 15 <= d < 2 ^ 15) ->
        usedDeviceIdxs_ s <> ∅ ->
        Sorted Z.le devices /\ NoDup devices
        /\ forall d, d ∈ devices <-> d ∈ usedDeviceIdxs_ s)
    /\ devices_ w = devices
    /\ barrierTensors_ w = placeholder_tensors (next_storage s) devices
    /\ devices <> []
    /\ (blockingWait_ s = false ->
        forall ticks,
          wait ticks w s'
          = (Ok true, logged (synchronize_calls_from true 0 devices) s')).
Proof.
  unfold barrier. intros H.
  apply bind_inv_ok in H as (devices & s1 & Hdev & H).
  pose proof (barrier_devices_run _ _ _ Hdev) as (-> & Hfirst & Hlater).
  apply bind_inv_ok in H as (ts & s2 & Hts & H).
  rewrite barrier_alloc_run, app_nil_l in Hts. injection Hts as <- <-.
  apply bind_inv_ok in H as (w0 & s3 & Hrun & H). injection H as <- <-.
  assert (devices <> []) as Hne.
  { intros ->. cbn in Hrun. discriminate Hrun. }
  apply allreduce_inv in Hrun
      as (ps & streams & _ & _ & Hd & _ & _ & Hb & _ & _ & _ & Hbt & _).
  rewrite getDeviceList_placeholder in Hd.
  exists devices. split; [exact Hdev|]. split; [intros E; apply Hfirst, E|].
  split; [|split; [exact Hd|split; [reflexivity|split; [exact Hne|]]]].
  - intros Hsmall Hused. rewrite (Hlater Hused).
    assert (wrap_int16 <$> merge_sort Z.le (elements (usedDeviceIdxs_ s))
            = merge_sort Z.le (elements (usedDeviceIdxs_ s))) as ->.
    { rewrite <- (list_fmap_id (merge_sort Z.le _)) at 2.
      apply list_fmap_ext. intros i d Hd'.
      apply wrap_int16_small, Hsmall.
      apply list_elem_of_lookup_2 in Hd'.
      rewrite merge_sort_Permutation in Hd'.
      now apply elem_of_elements in Hd'. }
    split; [|split].
    + apply Sorted_merge_sort. intros x y. lia.
    + rewrite merge_sort_Permutation. apply NoDup_elements.
    + intros d. rewrite merge_sort_Permutation. apply elem_of_elements.
  - intros Hnb ticks.
    set (w := set_barrierTensors_
                (placeholder_tensors (next_storage s) devices) w0).
    assert (synchronize ticks w s3
            = (Ok w, logged (synchronize_calls_from true 0 devices) s3)) as Hs.
    { unfold synchronize.
      rewrite (bind_ok _ _ _ _ _ (synchronize_events_calls w s3)).
      unfold w at 1. cbn [w_blockingWait_ set_barrierTensors_].
      rewrite Hb. cbn [blockingWait_ set_next_storage logged set_effects].
      rewrite Hnb. unfold synchronize_calls, w.
      cbn [barrierTensors_ devices_ set_barrierTensors_]. rewrite Hd.
      rewrite bool_decide_eq_false_2; [reflexivity|].
      destruct devices; [contradiction|discriminate]. }
    unfold wait. now rewrite (bind_ok _ _ _ _ _ Hs).
Qed.

Lemma barrier_work_witness :
  exists w,
    (barrier (sample_group 0)).1 = Ok w
    /\ devices_ w = [0] /\ barrierTensors_ w = [empty_byte_tensor 0 0].
Proof.
  set (w0 := set_barrierTensors_ [empty_byte_tensor 0 0]
               (sample_work true None)).
  assert ((barrier (sample_group 0)).1 = Ok w0) as H1
    by (vm_compute; reflexivity).
  destruct (barrier (sample_group 0)) as [o s0] eqn:Hr.
  cbn [fst] in H1. subst o.
  destruct (barrier_work (sample_group 0) s0 w0 Hr)
    as (devices & _ & _ & _ & Hd & Hbt & _).
  exists w0. split; [reflexivity|]. split; [reflexivity|].
  rewrite Hbt, <- Hd. reflexivity.
Defined.

(** The loop of [alltoall] that fills the per-peer vectors. *)
Lemma alltoall_fill_run (inputTensors outputTensors : list Tensor) :
  forall (m k : nat) (acc : list Z * list Z * list DevPtr * list DevPtr)
         (s : State),
    (k + m <= length inputTensors)%nat ->
    (k + m <= length outputTensors)%nat ->
    fold_each (seq k m) (alltoall_fill_step inputTensors outputTensors) acc s
    = (Ok (acc.1.1.1
           ++ ((fun t => wrap_int32 (numel t)) <$> take m (drop k inputTensors)),
           acc.1.1.2
           ++ ((fun t => wrap_int32 (numel t)) <$> take m (drop k outputTensors)),
           acc.1.2 ++ (data_ptr <$> take m (drop k inputTensors)),
           acc.2 ++ (data_ptr <$> take m (drop k outputTensors))), s).
Proof.
  induction m as [|m IH]; intros k [[[a b] c] d] s Hi Ho.
  - cbn. now rewrite !app_nil_r.
  - destruct (lookup_lt_is_Some_2 inputTensors k) as [ti Hti]; [lia|].
    destruct (lookup_lt_is_Some_2 outputTensors k) as [to Hto]; [lia|].
    cbn [seq fold_each]. unfold alltoall_fill_step at 1.
    erewrite bind_ok by (run_at Hti; run_at Hto; reflexivity).
    rewrite IH by lia. cbn [fst snd].
    rewrite (drop_S _ _ _ Hti), (drop_S _ _ _ Hto).
    cbn [take fmap list_fmap]. rewrite <- !app_assoc. reflexivity.
Qed.

(** X21. [alltoall] with one valid input and one valid output tensor per
    rank, of a supported element type, comes down to [batchedp2p] with
    this plan: peer [i] is sent input tensor [i] and its answer is received
    into output tensor [i], each from its first element and for its number
    of elements (kept in an [int]); and only the first input and the first
    output are passed as the tensors of the operation, so the device, the
    communicator and the stream are those of the first input. *)
Theorem alltoall_plan (outputTensors inputTensors : list Tensor) (s : State)
    (input0 output0 : Tensor) (datatype : ncclDataType_t) :
  0 <= size_ s < 2 ^ 64 ->
  Z.of_nat (length inputTensors) = size_ s ->
  Z.of_nat (length outputTensors) = size_ s ->
  check_gpu_tensors_multi (numGPUs s) inputTensors true = Ok tt ->
  check_gpu_tensors_multi (numGPUs s) outputTensors true = Ok tt ->
  inputTensors !! 0%nat = Some input0 ->
  outputTensors !! 0%nat = Some output0 ->
  getNcclDataType (scalar_type input0) = Ok datatype ->
  alltoall outputTensors inputTensors s
  = batchedp2p (data_ptr <$> inputTensors)
      ((fun t => wrap_int32 (numel t)) <$> inputTensors)
      (data_ptr <$> outputTensors)
      ((fun t => wrap_int32 (numel t)) <$> outputTensors)
      datatype [input0] [output0] s.
Proof.
  intros Hsz Hli Hlo Hci Hco Hi0 Ho0 Htype.
  unfold alltoall.
  erewrite bind_ok by reflexivity.
  rewrite wrap_uint64_small by exact Hsz.
  rewrite Hli, Hlo, Z.eqb_refl. cbn [negb orb].
  erewrite bind_ok by (rewrite check_gpu_tensors_m_run, Hci; reflexivity).
  erewrite bind_ok by (rewrite check_gpu_tensors_m_run, Hco; reflexivity).
  rewrite <- Hli, Nat2Z.id.
  erewrite bind_ok by (apply alltoall_fill_run; lia).
  cbn [fst snd app]. rewrite !drop_0.
  rewrite take_ge by lia.
  replace (take (length inputTensors) outputTensors) with outputTensors
    by (symmetry; apply take_ge; lia).
  run_at Hi0. run_at Ho0.
  erewrite bind_ok by (unfold lift; rewrite Htype; reflexivity).
  reflexivity.
Qed.

Lemma alltoall_plan_witness :
  alltoall [dense_float 0 2; dense_float 0 3]
    [dense_float 0 0; dense_float 0 1] blocking_state
  = batchedp2p [mkDevPtr 0 0; mkDevPtr 1 0] [4; 4]
      [mkDevPtr 2 0; mkDevPtr 3 0] [4; 4] ncclFloat
      [dense_float 0 0] [dense_float 0 2] blocking_state.
Proof.
  apply (alltoall_plan [dense_float 0 2; dense_float 0 3]
           [dense_float 0 0; dense_float 0 1] blocking_state
           (dense_float 0 0) (dense_float 0 2) ncclFloat);
    [ cbn; lia | reflexivity | reflexivity | reflexivity | reflexivity
    | reflexivity | reflexivity | reflexivity ].
Defined.

Lemma exchanges_from_0 (send_ptrs : list DevPtr) (send_lengths : list Z)
    (recv_ptrs : list DevPtr) (recv_lengths : list Z) :
  exchanges_from send_ptrs send_lengths recv_ptrs recv_lengths 0
    (exchanges send_ptrs send_lengths recv_ptrs recv_lengths).
Proof.
  intros j sp sl rp rl H. unfold exchanges in H.
  apply lookup_zip_with_Some in H as ([sp1 sl1] & [rp1 rl1] & E & H1 & H2).
  injection E as -> -> -> ->.
  apply lookup_zip_with_Some in H1 as (x1 & y1 & E1 & H1 & H3).
  apply lookup_zip_with_Some in H2 as (x2 & y2 & E2 & H2 & H4).
  injection E1 as -> ->. injection E2 as -> ->. auto.
Qed.

Lemma exchanges_from_cons send_ptrs send_lengths recv_ptrs recv_lengths
    (k : nat) sp sl rp rl (l : list Exchange) :
  exchanges_from send_ptrs send_lengths recv_ptrs recv_lengths k
    (((sp, sl), (rp, rl)) :: l) ->
  send_ptrs !! k = Some sp /\ send_lengths !! k = Some sl
  /\ recv_ptrs !! k = Some rp /\ recv_lengths !! k = Some rl
  /\ exchanges_from send_ptrs send_lengths recv_ptrs recv_lengths (S k) l.
Proof.
  intros H. pose proof (H 0%nat sp sl rp rl eq_refl) as H0.
  rewrite Nat.add_0_r in H0. destruct H0 as (H1 & H2 & H3 & H4).
  repeat (split; [assumption|]).
  intros j sp' sl' rp' rl' Hj. specialize (H (S j) sp' sl' rp' rl' Hj).
  now rewrite Nat.add_succ_r in H.
Qed.

Lemma length_exchanges send_ptrs send_lengths recv_ptrs recv_lengths (n : nat) :
  length send_ptrs = n -> length send_lengths = n ->
  length recv_ptrs = n -> length recv_lengths = n ->
  length (exchanges send_ptrs send_lengths recv_ptrs recv_lengths) = n.
Proof.
  intros H1 H2 H3 H4. unfold exchanges. rewrite !length_zip_with. lia.
Qed.

(** The loop over the peers, for one device. *)
Lemma p2p_group_run (input : Tensor) (p0 : CommPtr) (st0 : CUDAStream)
    (ps : list CommPtr) (streams : list CUDAStream)
    send_ptrs send_lengths recv_ptrs recv_lengths
    (datatype : ncclDataType_t) :
  ps !! 0%nat = Some p0 -> streams !! 0%nat = Some st0 ->
  forall (l : list Exchange) (k : nat) (s : State),
    exchanges_from send_ptrs send_lengths recv_ptrs recv_lengths k l ->
    for_each (seq k (length l)) (fun i =>
      for_range (length [input]) (fun j =>
        d <- at_index (getDeviceList [input]) j ;;; emit (cudaSetDevice d)) ;;;
      ncclStream <- at_index streams 0 ;;;
      comm0 <- at_index ps 0 ;;;
      send_ptr <- at_index send_ptrs i ;;;
      send_length <- at_index send_lengths i ;;;
      emit (ncclSend send_ptr send_length datatype (Z.of_nat i) comm0
              ncclStream) ;;;
      recv_ptr <- at_index recv_ptrs i ;;;
      recv_length <- at_index recv_lengths i ;;;
      emit (ncclRecv recv_ptr recv_length datatype (Z.of_nat i) comm0
              ncclStream)) s
    = (Ok tt, logged (p2p_calls (get_device input) datatype p0 st0 k l) s).
Proof.
  intros Hp0 Hst0.
  induction l as [|[[sp sl] [rp rl]] l IH]; intros k s Hl.
  - cbn. now rewrite logged_nil.
  - apply exchanges_from_cons in Hl as (Hsp & Hsl & Hrp & Hrl & Hl).
    cbn [length seq for_each p2p_calls] in *.
    erewrite bind_ok.
    2:{ erewrite bind_ok.
        2:{ unfold for_range. cbn [length seq for_each getDeviceList fmap
                                     list_fmap].
            erewrite bind_ok
              by (erewrite bind_ok by reflexivity; apply emit_run).
            reflexivity. }
        run_at Hst0. run_at Hp0. run_at Hsp. run_at Hsl. run_emit.
        run_at Hrp. run_at Hrl. apply emit_run. }
    rewrite IH by auto. rewrite !logged_app. reflexivity.
Qed.

(** X22. [batchedp2p] for one input and one output tensor, with the
    communicator of the device of the input cached: the call returns, and
    it issues, in this order, the wait of the NCCL stream for the current
    stream, the note to the allocator for the input, the lock of the free
    mutex and the start of an NCCL group, for each peer in turn a send and
    a receive of the planned ranges on the one communicator and the one
    stream, the end of the group and the release of the mutex, the note
    to the allocator for the output, and the record of the completion
    event.  The work it returns holds the communicator and the wait
    policy, but no store. *)
Theorem batchedp2p_cached (send_ptrs : list DevPtr) (send_lengths : list Z)
    (recv_ptrs : list DevPtr) (recv_lengths : list Z)
    (datatype : ncclDataType_t) (input output : Tensor) (s : State)
    (p0 : CommPtr) (st0 : CUDAStream) (nev : nat) :
  let key := getKeyFromDevices [get_device input] in
  let n := Z.to_nat (size_ s) in
  devNCCLCommMap_ s !! key = Some [p0] ->
  ncclStreams_ s !! key = Some [st0] ->
  ncclEvents_ s !! key = Some nev -> (1 <= nev)%nat ->
  length send_ptrs = n -> length send_lengths = n ->
  length recv_ptrs = n -> length recv_lengths = n ->
  batchedp2p send_ptrs send_lengths recv_ptrs recv_lengths datatype
    [input] [output] s
  = (Ok {| devices_ := [get_device input];
           cudaEvents_ := [Some st0];
           ncclComms_ := [Some p0];
           w_blockingWait_ := blockingWait_ s;
           w_opTimeout_ := opTimeout_ s;
           workStartTime_ := steady_clock s;
           w_store_ := null_store;
           exception_ := None;
           barrierTensors_ := [] |},
     logged ([cudaEventRecord (SyncEvent key 0)
                (CurrentStream (get_device input));
              cudaStreamWaitEvent st0 (SyncEvent key 0);
              cudaSetDevice (get_device input);
              recordStream (storage input) st0;
              freeMutex_lock; ncclGroupStart]
             ++ p2p_calls (get_device input) datatype p0 st0 0
                  (exchanges send_ptrs send_lengths recv_ptrs recv_lengths)
             ++ [ncclGroupEnd; freeMutex_unlock;
                 cudaSetDevice (get_device input);
                 recordStream (storage output) st0;
                 cudaEventRecord (WorkEvent 0) st0])
       (note_devices [get_device input] s)).
Proof.
  intros key n Hps Hstreams Hnev Hn H1 H2 H3 H4.
  destruct (collective_prologue [input] s [p0] [st0] nev
              ltac:(discriminate) Hps Hstreams Hnev eq_refl eq_refl Hn)
    as (Hcomm & Hev & Hstr & Hsync & Hrec).
  change (getDeviceList [input]) with [get_device input] in *.
  fold key in Hcomm, Hev, Hstr, Hsync.
  set (s1 := note_devices [get_device input] s) in *.
  pose proof (length_exchanges _ _ _ _ n H1 H2 H3 H4) as Hlen.
  unfold batchedp2p.
  change (getDeviceList [input]) with [get_device input]. fold key.
  rewrite (bind_ok _ _ _ _ _ Hcomm), (bind_ok _ _ _ _ _ Hev),
    (bind_ok _ _ _ _ _ Hstr), (bind_ok _ _ _ _ _ Hsync).
  erewrite bind_ok by reflexivity.
  rewrite (bind_ok _ _ _ _ _ (Hrec _)).
  erewrite bind_ok by reflexivity.
  run_emit. run_emit.
  erewrite bind_ok.
  2:{ eapply scoped_ok; [|apply group_end_run].
      unfold for_range.
      cbn [size_ logged set_effects s1 note_devices set_usedDeviceIdxs_].
      fold n. rewrite <- Hlen.
      apply (p2p_group_run input p0 st0 [p0] [st0] send_ptrs send_lengths
               recv_ptrs recv_lengths datatype eq_refl eq_refl);
        apply exchanges_from_0. }
  erewrite bind_ok.
  2:{ unfold for_range. cbn [length seq for_each].
      erewrite bind_ok.
      2:{ erewrite bind_ok by reflexivity. run_emit.
          erewrite bind_ok by reflexivity.
          erewrite bind_ok by reflexivity. apply emit_run. }
      reflexivity. }
  cbn [length seq fold_each]. unfold batchedp2p_finish_step.
  erewrite bind_ok.
  2:{ erewrite bind_ok by reflexivity.
      erewrite bind_ok by reflexivity.
      erewrite bind_ok by reflexivity.
      run_emit.
      erewrite bind_ok by reflexivity.
      erewrite bind_ok by reflexivity.
      reflexivity. }
  unfold ret. f_equal. rewrite !logged_app. reflexivity.
Qed.

Lemma batchedp2p_cached_witness :
  effects
    (batchedp2p [mkDevPtr 0 0; mkDevPtr 0 8] [2; 2]
       [mkDevPtr 1 0; mkDevPtr 1 8] [2; 2] ncclFloat
       [dense_float 0 0] [dense_float 0 1] (sample_group 0)).2
  = [cudaEventRecord (SyncEvent "0" 0) (CurrentStream 0);
     cudaStreamWaitEvent (PoolStream 0 0) (SyncEvent "0" 0);
     cudaSetDevice 0; recordStream 0 (PoolStream 0 0);
     freeMutex_lock; ncclGroupStart;
     cudaSetDevice 0;
     ncclSend (mkDevPtr 0 0) 2 ncclFloat 0 0%nat (PoolStream 0 0);
     ncclRecv (mkDevPtr 1 0) 2 ncclFloat 0 0%nat (PoolStream 0 0);
     cudaSetDevice 0;
     ncclSend (mkDevPtr 0 8) 2 ncclFloat 1 0%nat (PoolStream 0 0);
     ncclRecv (mkDevPtr 1 8) 2 ncclFloat 1 0%nat (PoolStream 0 0);
     ncclGroupEnd; freeMutex_unlock;
     cudaSetDevice 0; recordStream 1 (PoolStream 0 0);
     cudaEventRecord (WorkEvent 0) (PoolStream 0 0)].
Proof.
  rewrite (batchedp2p_cached [mkDevPtr 0 0; mkDevPtr 0 8] [2; 2]
             [mkDevPtr 1 0; mkDevPtr 1 8] [2; 2] ncclFloat
             (dense_float 0 0) (dense_float 0 1) (sample_group 0)
             0%nat (PoolStream 0 0) 1);
    [ reflexivity | reflexivity | reflexivity | reflexivity | cbn; lia
    | reflexivity | reflexivity | reflexivity | reflexivity ].
Defined.

Lemma elementSize_pos (type : ScalarType) : 0 < elementSize type <= 8.
Proof. destruct type; cbn; lia. Qed.

Lemma ptr_add_bytes_data_ptr (t : Tensor) (b : Z) :
  ptr_add_bytes (data_ptr t) b = byte_ptr t b.
Proof. reflexivity. Qed.

Lemma ptr_add_bytes_elements (t : Tensor) (typesize k : Z) :
  elementSize (scalar_type t) = typesize ->
  ptr_add_bytes (data_ptr t) (typesize * k) = element_ptr t k.
Proof.
  intros <-. unfold ptr_add_bytes, element_ptr, data_ptr. cbn. f_equal.
  ring.
Qed.

(** The loop of [alltoall_base] for equal splits. *)
Lemma alltoall_base_equal_run (inputTensor outputTensor : Tensor)
    (typesize len : Z) :
  elementSize (scalar_type inputTensor) = typesize ->
  elementSize (scalar_type outputTensor) = typesize ->
  0 < typesize -> 0 <= len ->
  forall (m k : nat) (acc : list Z * list Z * list DevPtr * list DevPtr)
         (s : State),
    typesize * len * Z.of_nat (k + m) <= INT_MAX ->
    fold_each (seq k m)
      (alltoall_base_equal_step inputTensor outputTensor typesize len) acc s
    = (Ok (acc.1.1.1 ++ replicate m len,
           acc.1.1.2 ++ replicate m len,
           acc.1.2
           ++ ((fun i => element_ptr inputTensor (len * Z.of_nat i))
                 <$> seq k m),
           acc.2
           ++ ((fun i => element_ptr outputTensor (len * Z.of_nat i))
                 <$> seq k m)), s).
Proof.
  intros Hin Hout Hts Hlen. unfold INT_MAX.
  induction m as [|m IH]; intros k [[[a b] c] d] s Hfit.
  - cbn. now rewrite !app_nil_r.
  - cbn [seq fold_each]. unfold alltoall_base_equal_step at 1.
    assert (0 <= typesize * len) by nia.
    assert (typesize * len * Z.of_nat k <= typesize * len * Z.of_nat (k + S m))
      by (apply Z.mul_le_mono_nonneg_l; lia).
    assert (typesize * len * 1 <= typesize * len * Z.of_nat (k + S m))
      by (apply Z.mul_le_mono_nonneg_l; lia).
    erewrite bind_ok; cycle 1.
    { erewrite bind_ok
        by (unfold lift; rewrite int_mul_ok
              by (unfold INT_MIN, INT_MAX; lia); reflexivity).
      erewrite bind_ok
        by (unfold lift; rewrite int_mul_ok
              by (unfold INT_MIN, INT_MAX; nia); reflexivity).
      reflexivity. }
    rewrite IH by (replace (S k + m)%nat with (k + S m)%nat by lia; exact Hfit).
    cbn [fst snd].
    rewrite <- (Z.mul_assoc typesize len (Z.of_nat k)).
    rewrite (ptr_add_bytes_elements inputTensor) by exact Hin.
    rewrite (ptr_add_bytes_elements outputTensor) by exact Hout.
    cbn [replicate fmap list_fmap]. rewrite <- !app_assoc. reflexivity.
Qed.

Lemma tensor_size0_numel (t : Tensor) (dim0 : Z) :
  tensor_size0 t = Ok dim0 -> exists rest, numel t = dim0 * rest.
Proof.
  unfold tensor_size0, numel. destruct (sizes t) as [|d dims]; [discriminate|].
  intros [= <-]. eexists. reflexivity.
Qed.

Lemma alltoall_base_equal_plan_run (outputTensor inputTensor : Tensor)
    (s : State) (dim0 : Z) :
  0 < size_ s ->
  numel outputTensor = numel inputTensor ->
  scalar_type outputTensor = scalar_type inputTensor ->
  tensor_size0 outputTensor = Ok dim0 ->
  0 <= dim0 < 2 ^ 63 ->
  dim0 mod size_ s = 0 ->
  0 <= numel inputTensor ->
  elementSize (scalar_type inputTensor) * numel inputTensor <= INT_MAX ->
  alltoall_base_plan outputTensor inputTensor [] [] s
  = (Ok (replicate (Z.to_nat (size_ s)) (numel inputTensor / size_ s),
         replicate (Z.to_nat (size_ s)) (numel inputTensor / size_ s),
         (fun i => element_ptr inputTensor
                     (numel inputTensor / size_ s * Z.of_nat i))
           <$> seq 0 (Z.to_nat (size_ s)),
         (fun i => element_ptr outputTensor
                     (numel inputTensor / size_ s * Z.of_nat i))
           <$> seq 0 (Z.to_nat (size_ s))), s).
Proof.
  intros Hsz Hnum Hty Hdim Hrange Hdiv Hn Hfit.
  pose proof (elementSize_pos (scalar_type inputTensor)) as Hts.
  assert (numel inputTensor <= INT_MAX) as Hle by (unfold INT_MAX in *; nia).
  assert (0 <= numel inputTensor / size_ s) as Hq0
    by (apply Z.div_pos; lia).
  assert (size_ s * (numel inputTensor / size_ s) <= numel inputTensor)
    as Hfloor by (apply Z.mul_div_le; lia).
  assert (numel inputTensor / size_ s <= numel inputTensor) as Hq1 by nia.
  unfold alltoall_base_plan.
  erewrite bind_ok by reflexivity.
  cbn [length]. rewrite !bool_decide_eq_true_2 by reflexivity. cbn [andb].
  rewrite Hnum, Z.eqb_refl, Hty, bool_decide_eq_true_2 by reflexivity.
  cbn [negb orb].
  erewrite bind_ok by reflexivity.
  erewrite bind_ok by (unfold lift; rewrite Hdim; reflexivity).
  erewrite bind_ok
    by (unfold lift; rewrite int64_rem_ok by lia; reflexivity).
  rewrite Hdiv. cbn [Z.eqb negb].
  erewrite bind_ok by reflexivity.
  erewrite bind_ok
    by (unfold lift; rewrite int64_div_ok
          by (unfold INT_MAX in *; lia); reflexivity).
  rewrite wrap_int32_small by (unfold INT_MIN, INT_MAX in *; lia).
  rewrite alltoall_base_equal_run;
    [reflexivity | reflexivity | now rewrite Hty | lia | lia |].
  cbn [Nat.add]. rewrite Z2Nat.id by lia.
  unfold INT_MAX in *. nia.
Qed.

(** X23. [alltoall_base] without split sizes, for an input and an output of
    the same element type and number of elements whose size in bytes fits
    an [int], and a first dimension of the output that the group size
    divides: the call comes down to [batchedp2p] where every peer is sent,
    and answers with, [numel / size_] elements, peer [i]'s segment starting
    [i] times that many elements into each tensor; the segments cover the
    input exactly. *)
Theorem alltoall_base_equal_plan (outputTensor inputTensor : Tensor)
    (s : State) (dim0 : Z) (datatype : ncclDataType_t) :
  check_gpu_tensors_multi (numGPUs s) [inputTensor] false = Ok tt ->
  check_gpu_tensors_multi (numGPUs s) [outputTensor] false = Ok tt ->
  0 < size_ s ->
  numel outputTensor = numel inputTensor ->
  scalar_type outputTensor = scalar_type inputTensor ->
  tensor_size0 outputTensor = Ok dim0 ->
  0 <= dim0 < 2 ^ 63 ->
  dim0 mod size_ s = 0 ->
  0 <= numel inputTensor ->
  elementSize (scalar_type inputTensor) * numel inputTensor <= INT_MAX ->
  getNcclDataType (scalar_type inputTensor) = Ok datatype ->
  alltoall_base outputTensor inputTensor [] [] s
  = batchedp2p
      ((fun i => element_ptr inputTensor
                   (numel inputTensor / size_ s * Z.of_nat i))
         <$> seq 0 (Z.to_nat (size_ s)))
      (replicate (Z.to_nat (size_ s)) (numel inputTensor / size_ s))
      ((fun i => element_ptr outputTensor
                   (numel inputTensor / size_ s * Z.of_nat i))
         <$> seq 0 (Z.to_nat (size_ s)))
      (replicate (Z.to_nat (size_ s)) (numel inputTensor / size_ s))
      datatype [inputTensor] [outputTensor] s
  /\ numel inputTensor / size_ s * size_ s = numel inputTensor.
Proof.
  intros Hci Hco Hsz Hnum Hty Hdim Hrange Hdiv Hn Hfit Htype. split.
  - unfold alltoall_base.
    erewrite bind_ok by (rewrite check_gpu_tensors_m_run, Hci; reflexivity).
    erewrite bind_ok by (rewrite check_gpu_tensors_m_run, Hco; reflexivity).
    erewrite bind_ok by (eapply alltoall_base_equal_plan_run; eassumption).
    erewrite bind_ok by (unfold lift; rewrite Htype; reflexivity).
    reflexivity.
  - destruct (tensor_size0_numel _ _ Hdim) as [rest Hrest].
    rewrite <- Hnum, Hrest.
    apply Z.mod_divide in Hdiv as [q ->]; [|lia].
    replace (q * size_ s * rest) with (q * rest * size_ s) by ring.
    rewrite Z.div_mul by lia. reflexivity.
Qed.

Lemma alltoall_base_equal_plan_witness :
  alltoall_base (float_matrix 0 1 4) (float_matrix 0 0 4) [] [] blocking_state
  = batchedp2p [mkDevPtr 0 0; mkDevPtr 0 24] [6; 6]
      [mkDevPtr 1 0; mkDevPtr 1 24] [6; 6] ncclFloat
      [float_matrix 0 0 4] [float_matrix 0 1 4] blocking_state
  /\ 12 / 2 * 2 = 12.
Proof.
  apply (alltoall_base_equal_plan (float_matrix 0 1 4) (float_matrix 0 0 4)
           blocking_state 4 ncclFloat);
    [ reflexivity | reflexivity | reflexivity | reflexivity | reflexivity
    | reflexivity | cbn; lia | reflexivity | cbn; lia
    | vm_compute; discriminate | reflexivity ].
Defined.

Lemma sum_of_nonneg (l : list Z) : Forall (fun x => 0 <= x) l -> 0 <= sum_of l.
Proof. unfold sum_of. induction 1; cbn [fold_right]; lia. Qed.

(** The loop of [alltoall_base] for given splits. *)
Lemma alltoall_base_split_run (inputTensor outputTensor : Tensor)
    (typesize row_size : Z) (inputSplitSizes outputSplitSizes : list Z) :
  0 < typesize <= 8 -> 0 <= row_size ->
  forall (m k : nat)
         (acc : (list Z * list Z * list DevPtr * list DevPtr) * (Z * Z))
         (s : State),
    (k + m <= length inputSplitSizes)%nat ->
    (k + m <= length outputSplitSizes)%nat ->
    Forall (fun x => 0 <= x) (take m (drop k inputSplitSizes)) ->
    Forall (fun x => 0 <= x) (take m (drop k outputSplitSizes)) ->
    0 <= acc.2.1 -> 0 <= acc.2.2 ->
    acc.2.1 + row_size * sum_of (take m (drop k inputSplitSizes)) <= INT_MAX ->
    acc.2.2 + row_size * sum_of (take m (drop k outputSplitSizes)) <= INT_MAX ->
    fold_each (seq k m)
      (alltoall_base_split_step inputTensor outputTensor typesize row_size
         inputSplitSizes outputSplitSizes) acc s
    = (Ok ((acc.1.1.1.1
            ++ (Z.mul row_size <$> take m (drop k inputSplitSizes)),
            acc.1.1.1.2
            ++ (Z.mul row_size <$> take m (drop k outputSplitSizes)),
            acc.1.1.2
            ++ ((fun k => byte_ptr inputTensor (k * typesize))
                  <$> sums_before acc.2.1
                        (Z.mul row_size <$> take m (drop k inputSplitSizes))),
            acc.1.2
            ++ ((fun k => byte_ptr outputTensor (k * typesize))
                  <$> sums_before acc.2.2
                        (Z.mul row_size
                           <$> take m (drop k outputSplitSizes)))),
           (acc.2.1 + row_size * sum_of (take m (drop k inputSplitSizes)),
            acc.2.2 + row_size * sum_of (take m (drop k outputSplitSizes)))),
       s).
Proof.
  intros Hts Hrow. unfold INT_MAX.
  induction m as [|m IH];
    intros k [[[[a b] c] d] [io oo]] s Hi Ho Hpi Hpo Hio Hoo Hfi Hfo.
  - cbn. rewrite !app_nil_r, !Z.mul_0_r, !Z.add_0_r. reflexivity.
  - destruct (lookup_lt_is_Some_2 inputSplitSizes k) as [x Hx]; [lia|].
    destruct (lookup_lt_is_Some_2 outputSplitSizes k) as [y Hy]; [lia|].
    rewrite (drop_S _ _ _ Hx) in *. rewrite (drop_S _ _ _ Hy) in *.
    cbn [take] in *. cbn [fst snd] in Hio, Hoo, Hfi, Hfo.
    apply Forall_cons in Hpi as [Hx0 Hpi].
    apply Forall_cons in Hpo as [Hy0 Hpo].
    cbn [sum_of fold_right] in Hfi, Hfo.
    fold (sum_of (take m (drop (S k) inputSplitSizes))) in Hfi.
    fold (sum_of (take m (drop (S k) outputSplitSizes))) in Hfo.
    pose proof (sum_of_nonneg _ Hpi) as Hti.
    pose proof (sum_of_nonneg _ Hpo) as Hto.
    assert (0 <= row_size * x) by nia.
    assert (0 <= row_size * y) by nia.
    assert (0 <= row_size * sum_of (take m (drop (S k) inputSplitSizes)))
      by nia.
    assert (0 <= row_size * sum_of (take m (drop (S k) outputSplitSizes)))
      by nia.
    cbn [seq fold_each]. unfold alltoall_base_split_step at 1.
    cbn [fst snd].
    erewrite bind_ok; cycle 1.
    { erewrite bind_ok
        by (unfold lift; rewrite int64_mul_ok by nia; reflexivity).
      erewrite bind_ok
        by (unfold lift; rewrite int64_mul_ok by nia; reflexivity).
      run_at Hx.
      erewrite bind_ok
        by (unfold lift; rewrite int64_mul_ok by nia; reflexivity).
      run_at Hy.
      erewrite bind_ok
        by (unfold lift; rewrite int64_mul_ok by nia; reflexivity).
      rewrite !wrap_int32_small by (unfold INT_MIN, INT_MAX; nia).
      erewrite bind_ok
        by (unfold lift; rewrite int64_add_ok by nia; reflexivity).
      erewrite bind_ok
        by (unfold lift; rewrite int64_add_ok by nia; reflexivity).
      reflexivity. }
    rewrite IH; cbn [fst snd]; try lia; try assumption.
    cbn [sum_of fold_right fmap list_fmap sums_before].
    fold (sum_of (take m (drop (S k) inputSplitSizes))).
    fold (sum_of (take m (drop (S k) outputSplitSizes))).
    rewrite !ptr_add_bytes_data_ptr.
    rewrite <- !app_assoc. cbn [app].
    rewrite !Z.mul_add_distr_l, !Z.add_assoc. reflexivity.
Qed.

Lemma alltoall_base_split_plan_run (outputTensor inputTensor : Tensor)
    (outputSplitSizes inputSplitSizes : list Z) (s : State) (dim0 : Z) :
  0 < size_ s ->
  length inputSplitSizes = Z.to_nat (size_ s) ->
  length outputSplitSizes = Z.to_nat (size_ s) ->
  checkSplitSizes inputSplitSizes inputTensor (size_ s) = Ok tt ->
  checkSplitSizes outputSplitSizes outputTensor (size_ s) = Ok tt ->
  tensor_size0 inputTensor = Ok dim0 ->
  0 < dim0 ->
  0 <= numel inputTensor <= INT_MAX ->
  Forall (fun x => 0 <= x) inputSplitSizes ->
  Forall (fun x => 0 <= x) outputSplitSizes ->
  numel inputTensor / dim0 * sum_of inputSplitSizes <= INT_MAX ->
  numel inputTensor / dim0 * sum_of outputSplitSizes <= INT_MAX ->
  alltoall_base_plan outputTensor inputTensor outputSplitSizes
    inputSplitSizes s
  = (Ok (Z.mul (numel inputTensor / dim0) <$> inputSplitSizes,
         Z.mul (numel inputTensor / dim0) <$> outputSplitSizes,
         (fun k => byte_ptr inputTensor
                     (k * elementSize (scalar_type inputTensor)))
           <$> sums_before 0
                 (Z.mul (numel inputTensor / dim0) <$> inputSplitSizes),
         (fun k => byte_ptr outputTensor
                     (k * elementSize (scalar_type inputTensor)))
           <$> sums_before 0
                 (Z.mul (numel inputTensor / dim0) <$> outputSplitSizes)),
     s).
Proof.
  intros Hsz Hli Hlo Hsi Hso Hdim Hpos Hn Hpi Hpo Hfi Hfo.
  pose proof (elementSize_pos (scalar_type inputTensor)) as Hts.
  assert (0 <= numel inputTensor / dim0) as Hq0 by (apply Z.div_pos; lia).
  assert (dim0 * (numel inputTensor / dim0) <= numel inputTensor)
    as Hfloor by (apply Z.mul_div_le; lia).
  assert (numel inputTensor / dim0 <= numel inputTensor) as Hq1 by nia.
  unfold alltoall_base_plan.
  erewrite bind_ok by reflexivity.
  rewrite (bool_decide_eq_false_2 (length outputSplitSizes = 0%nat)) by lia.
  cbn [andb].
  erewrite bind_ok by (unfold lift; rewrite Hsi; reflexivity).
  erewrite bind_ok by (unfold lift; rewrite Hso; reflexivity).
  erewrite bind_ok by (unfold lift; rewrite Hdim; reflexivity).
  erewrite bind_ok
    by (unfold lift; rewrite int64_div_ok
          by (unfold INT_MAX in *; lia); reflexivity).
  rewrite wrap_int32_small by (unfold INT_MIN, INT_MAX in *; lia).
  erewrite bind_ok; cycle 1.
  { apply alltoall_base_split_run; cbn [fst snd Nat.add];
      rewrite ?drop_0, ?take_ge by lia; try assumption; lia. }
  cbn [fst snd Nat.add app]. rewrite !drop_0, !take_ge by lia.
  reflexivity.
Qed.

(** X24. [alltoall_base] with split sizes, one per rank and none negative,
    that [checkSplitSizes] accepts, for an input with at least one row
    whose element counts fit an [int]: the call comes down to [batchedp2p]
    where peer [i] is sent [row_size * inputSplitSizes[i]] elements and
    answers with [row_size * outputSplitSizes[i]], each segment starting
    where the one before it ends.  [row_size] is the number of elements of
    a row of the input, [numel / size(0)], for the output as well; and the
    segments of the output, too, are laid out in elements of the size of
    those of the input: this branch does not compare the element types of
    the two tensors. *)
Theorem alltoall_base_split_plan (outputTensor inputTensor : Tensor)
    (outputSplitSizes inputSplitSizes : list Z) (s : State) (dim0 : Z)
    (datatype : ncclDataType_t) :
  check_gpu_tensors_multi (numGPUs s) [inputTensor] false = Ok tt ->
  check_gpu_tensors_multi (numGPUs s) [outputTensor] false = Ok tt ->
  0 < size_ s ->
  length inputSplitSizes = Z.to_nat (size_ s) ->
  length outputSplitSizes = Z.to_nat (size_ s) ->
  checkSplitSizes inputSplitSizes inputTensor (size_ s) = Ok tt ->
  checkSplitSizes outputSplitSizes outputTensor (size_ s) = Ok tt ->
  tensor_size0 inputTensor = Ok dim0 ->
  0 < dim0 ->
  0 <= numel inputTensor <= INT_MAX ->
  Forall (fun x => 0 <= x) inputSplitSizes ->
  Forall (fun x => 0 <= x) outputSplitSizes ->
  numel inputTensor / dim0 * sum_of inputSplitSizes <= INT_MAX ->
  numel inputTensor / dim0 * sum_of outputSplitSizes <= INT_MAX ->
  getNcclDataType (scalar_type inputTensor) = Ok datatype ->
  alltoall_base outputTensor inputTensor outputSplitSizes inputSplitSizes s
  = batchedp2p
      ((fun k => byte_ptr inputTensor
                   (k * elementSize (scalar_type inputTensor)))
         <$> sums_before 0
               (Z.mul (numel inputTensor / dim0) <$> inputSplitSizes))
      (Z.mul (numel inputTensor / dim0) <$> inputSplitSizes)
      ((fun k => byte_ptr outputTensor
                   (k * elementSize (scalar_type inputTensor)))
         <$> sums_before 0
               (Z.mul (numel inputTensor / dim0) <$> outputSplitSizes))
      (Z.mul (numel inputTensor / dim0) <$> outputSplitSizes)
      datatype [inputTensor] [outputTensor] s.
Proof.
  intros Hci Hco Hsz Hli Hlo Hsi Hso Hdim Hpos Hn Hpi Hpo Hfi Hfo Htype.
  unfold alltoall_base.
  erewrite bind_ok by (rewrite check_gpu_tensors_m_run, Hci; reflexivity).
  erewrite bind_ok by (rewrite check_gpu_tensors_m_run, Hco; reflexivity).
  erewrite bind_ok by (eapply alltoall_base_split_plan_run; eassumption).
  erewrite bind_ok by (unfold lift; rewrite Htype; reflexivity).
  reflexivity.
Qed.

Lemma alltoall_base_split_plan_witness :
  alltoall_base (double_matrix 0 1 5 6) (float_matrix 0 0 4) [2; 3] [1; 3]
    blocking_state
  = batchedp2p [mkDevPtr 0 0; mkDevPtr 0 12] [3; 9]
      [mkDevPtr 1 48; mkDevPtr 1 72] [6; 9] ncclFloat
      [float_matrix 0 0 4] [double_matrix 0 1 5 6] blocking_state.
Proof.
  apply (alltoall_base_split_plan (double_matrix 0 1 5 6)
           (float_matrix 0 0 4) [2; 3] [1; 3] blocking_state 4 ncclFloat);
    [ reflexivity | reflexivity | reflexivity | reflexivity | reflexivity
    | reflexivity | reflexivity | reflexivity | reflexivity
    | vm_compute; split; discriminate
    | repeat constructor; lia | repeat constructor; lia
    | vm_compute; discriminate | vm_compute; discriminate | reflexivity ].
Defined.

(** X25. [alltoall_base] with split sizes for only one of the two tensors,
    when the checks pass (the first dimension of the other tensor is a
    multiple of the group size): the loop reads element 0 of the empty
    list of split sizes, which is undefined behaviour; nothing has been
    done by then. *)
Theorem alltoall_base_one_split_list (outputTensor inputTensor : Tensor)
    (outputSplitSizes inputSplitSizes : list Z) (s : State) (dim0 : Z) :
  check_gpu_tensors_multi (numGPUs s) [inputTensor] false = Ok tt ->
  check_gpu_tensors_multi (numGPUs s) [outputTensor] false = Ok tt ->
  0 < size_ s ->
  (inputSplitSizes = [] /\ outputSplitSizes <> [])
  \/ (outputSplitSizes = [] /\ inputSplitSizes <> []) ->
  checkSplitSizes inputSplitSizes inputTensor (size_ s) = Ok tt ->
  checkSplitSizes outputSplitSizes outputTensor (size_ s) = Ok tt ->
  tensor_size0 inputTensor = Ok dim0 ->
  0 < dim0 ->
  0 <= numel inputTensor < 2 ^ 63 ->
  Forall (fun x => - 2 ^ 63 <= wrap_int32 (numel inputTensor / dim0) * x
                   < 2 ^ 63) inputSplitSizes ->
  alltoall_base outputTensor inputTensor outputSplitSizes inputSplitSizes s
  = (Undefined "vector index out of range", s).
Proof.
  intros Hci Hco Hsz Hone Hsi Hso Hdim Hpos Hn Hfit.
  pose proof (elementSize_pos (scalar_type inputTensor)) as Hts.
  unfold alltoall_base.
  erewrite bind_ok by (rewrite check_gpu_tensors_m_run, Hci; reflexivity).
  erewrite bind_ok by (rewrite check_gpu_tensors_m_run, Hco; reflexivity).
  assert (alltoall_base_plan outputTensor inputTensor outputSplitSizes
            inputSplitSizes s
          = (Undefined "vector index out of range", s)) as Hplan.
  { unfold alltoall_base_plan.
    erewrite bind_ok by reflexivity.
    assert (bool_decide (length outputSplitSizes = 0%nat)
            && bool_decide (length inputSplitSizes = 0%nat) = false) as ->.
    { destruct Hone as [[-> Hne]|[-> Hne]].
      - destruct outputSplitSizes; [contradiction|reflexivity].
      - destruct inputSplitSizes; [contradiction|reflexivity]. }
    erewrite bind_ok by (unfold lift; rewrite Hsi; reflexivity).
    erewrite bind_ok by (unfold lift; rewrite Hso; reflexivity).
    erewrite bind_ok by (unfold lift; rewrite Hdim; reflexivity).
    erewrite bind_ok
      by (unfold lift; rewrite int64_div_ok by lia; reflexivity).
    destruct (Z.to_nat (size_ s)) as [|n] eqn:Hn0; [lia|].
    cbn [seq fold_each]. unfold alltoall_base_split_step at 1.
    cbn [fst snd].
    destruct Hone as [[-> Hne]|[-> Hne]].
    - reflexivity.
    - destruct inputSplitSizes as [|x rest]; [contradiction|].
      apply Forall_cons in Hfit as [Hx _].
      unfold bind, lift, at_index, ret.
      rewrite !(int64_mul_ok 0) by lia. cbn [lookup list_lookup].
      rewrite int64_mul_ok by exact Hx. reflexivity. }
  unfold bind at 1. rewrite Hplan. reflexivity.
Qed.

Lemma alltoall_base_one_split_list_witness :
  alltoall_base (float_matrix 0 1 4) (float_matrix 0 0 4) [] [1; 3]
    blocking_state
  = (Undefined "vector index out of range", blocking_state).
Proof.
  apply (alltoall_base_one_split_list (float_matrix 0 1 4)
           (float_matrix 0 0 4) [] [1; 3] blocking_state 4);
    [ reflexivity | reflexivity | reflexivity
    | right; split; [reflexivity | discriminate]
    | reflexivity | reflexivity | reflexivity | reflexivity
    | vm_compute; split; [discriminate | reflexivity]
    | repeat (constructor; [vm_compute; split; [discriminate|reflexivity]|]);
      constructor ].
Defined.

(** X26. [alltoall_base] with split sizes for an input without rows (its
    first dimension is 0): once the checks have passed, the size of a row
    is computed as [numel / size(0)], a division by zero, which is
    undefined behaviour. *)
Theorem alltoall_base_no_rows (outputTensor inputTensor : Tensor)
    (outputSplitSizes inputSplitSizes : list Z) (s : State) :
  check_gpu_tensors_multi (numGPUs s) [inputTensor] false = Ok tt ->
  check_gpu_tensors_multi (numGPUs s) [outputTensor] false = Ok tt ->
  outputSplitSizes <> [] \/ inputSplitSizes <> [] ->
  checkSplitSizes inputSplitSizes inputTensor (size_ s) = Ok tt ->
  checkSplitSizes outputSplitSizes outputTensor (size_ s) = Ok tt ->
  tensor_size0 inputTensor = Ok 0 ->
  alltoall_base outputTensor inputTensor outputSplitSizes inputSplitSizes s
  = (Undefined "integer division by zero", s).
Proof.
  intros Hci Hco Hone Hsi Hso Hdim.
  unfold alltoall_base.
  erewrite bind_ok by (rewrite check_gpu_tensors_m_run, Hci; reflexivity).
  erewrite bind_ok by (rewrite check_gpu_tensors_m_run, Hco; reflexivity).
  assert (alltoall_base_plan outputTensor inputTensor outputSplitSizes
            inputSplitSizes s
          = (Undefined "integer division by zero", s)) as Hplan.
  { unfold alltoall_base_plan.
    erewrite bind_ok by reflexivity.
    assert (bool_decide (length outputSplitSizes = 0%nat)
            && bool_decide (length inputSplitSizes = 0%nat) = false) as ->.
    { destruct Hone as [Hne|Hne].
      - destruct outputSplitSizes; [contradiction|reflexivity].
      - destruct inputSplitSizes; [contradiction|].
        cbn [length]. rewrite (bool_decide_eq_false_2 (S _ = 0%nat)) by lia.
        apply andb_false_r. }
    erewrite bind_ok by (unfold lift; rewrite Hsi; reflexivity).
    erewrite bind_ok by (unfold lift; rewrite Hso; reflexivity).
    erewrite bind_ok by (unfold lift; rewrite Hdim; reflexivity).
    reflexivity. }
  unfold bind at 1. rewrite Hplan. reflexivity.
Qed.

Lemma alltoall_base_no_rows_witness :
  alltoall_base (float_matrix 0 1 0) (float_matrix 0 0 0) [0; 0] [0; 0]
    blocking_state
  = (Undefined "integer division by zero", blocking_state).
Proof.
  apply (alltoall_base_no_rows (float_matrix 0 1 0) (float_matrix 0 0 0)
           [0; 0] [0; 0] blocking_state);
    [ reflexivity | reflexivity | left; discriminate
    | reflexivity | reflexivity | reflexivity ].
Defined.

Lemma alltoall_base_work_without_store outputTensor inputTensor
    outputSplitSizes inputSplitSizes s w s' :
  alltoall_base outputTensor inputTensor outputSplitSizes inputSplitSizes s
  = (Ok w, s') ->
  w_store_ w = null_store /\ exception_ w = None.
Proof.
  unfold alltoall_base. intros H. do 4 peel H.
  eapply batchedp2p_work_without_store; eauto.
Qed.

(** X27. A work returned by [alltoall_base], like one returned by
    [alltoall], has no store: when its blocking wait runs past the timeout,
    [synchronize] aborts the first communicator of the work and then
    dereferences the null store pointer; nothing is written to the store
    and no timeout error is thrown. *)
Theorem alltoall_base_timeout_without_store
    (s s1 : State) (outputTensor inputTensor : Tensor)
    (outputSplitSizes inputSplitSizes : list Z) (w : WorkNCCL)
    (tk : Tick) (rest : list Tick) (p : CommPtr) (cs : list (option CommPtr))
    (c : NCCLComm) :
  alltoall_base outputTensor inputTensor outputSplitSizes inputSplitSizes s
  = (Ok w, s1) ->
  w_blockingWait_ w = true ->
  ncclComms_ w = Some p :: cs -> comms s1 !! p = Some c ->
  tick_errors tk = [] ->
  checkForNCCLErrorsInternal (comms s1) (ncclComms_ w) = Ok None ->
  (forall s', finishedGPUExecutionInternal (tick_queries tk) (devices_ w) s'
              = (Ok false, s')) ->
  w_opTimeout_ w < tick_now tk - workStartTime_ w ->
  exists s2,
    synchronize (tk :: rest) w s1 = (Undefined "null shared_ptr<Store>", s2)
    /\ store s2 = store s1
    /\ aborted_in (comms s2) p.
Proof.
  intros Hrun Hb Hcs Hc Herrs Hcheck Hfin Hto.
  destruct (alltoall_base_work_without_store _ _ _ _ _ _ _ Hrun) as [Hst Hex].
  destruct (synchronize_past_timeout w tk rest s1 Hb Hex Herrs Hcheck Hfin Hto)
    as [calls Hsync].
  destruct (abort_on_timeout_null_store w p cs c
              (set_steady_clock (tick_now tk) (logged calls s1)) Hst Hcs Hc)
    as (s2 & Habort & Hstore & Hab).
  exists s2. rewrite Hsync. unfold bind. rewrite Habort.
  repeat split; auto.
Qed.

Lemma alltoall_base_timeout_without_store_witness :
  exists w s2,
    (alltoall_base (float_matrix 0 1 4) (float_matrix 0 0 4) [] []
       (sample_group 0)).1 = Ok w
    /\ synchronize [late_tick] w
         (alltoall_base (float_matrix 0 1 4) (float_matrix 0 0 4) [] []
            (sample_group 0)).2
       = (Undefined "null shared_ptr<Store>", s2).
Proof.
  pose (w0 := {| devices_ := [0]; cudaEvents_ := [Some (PoolStream 0 0)];
                 ncclComms_ := [Some 0%nat]; w_blockingWait_ := true;
                 w_opTimeout_ := 500; workStartTime_ := 0;
                 w_store_ := null_store; exception_ := None;
                 barrierTensors_ := [] |}).
  assert ((alltoall_base (float_matrix 0 1 4) (float_matrix 0 0 4) [] []
             (sample_group 0)).1 = Ok w0) as H1 by (vm_compute; reflexivity).
  assert (comms (alltoall_base (float_matrix 0 1 4) (float_matrix 0 0 4) [] []
                   (sample_group 0)).2 !! 0%nat
          = Some {| comm_nranks := 2; comm_rank := 0; comm_id := example_id;
                    comm_device := 0; comm_asyncErr := 0;
                    comm_aborted := false |}) as H2
    by (vm_compute; reflexivity).
  assert (checkForNCCLErrorsInternal
            (comms (alltoall_base (float_matrix 0 1 4) (float_matrix 0 0 4)
                      [] [] (sample_group 0)).2) [Some 0%nat] = Ok None)
    as H3 by (vm_compute; reflexivity).
  destruct (alltoall_base (float_matrix 0 1 4) (float_matrix 0 0 4) [] []
              (sample_group 0)) as [o s0] eqn:Hr.
  cbn [fst snd] in *. subst o.
  destruct (alltoall_base_timeout_without_store (sample_group 0) s0
              (float_matrix 0 1 4) (float_matrix 0 0 4) [] [] w0 late_tick []
              0%nat [] _ Hr eq_refl eq_refl H2 eq_refl H3
              (fun s' => eq_refl) eq_refl)
    as (s2 & Hsync & _).
  exists w0, s2. split; [reflexivity | exact Hsync].
Defined.
